(** * Test-time proof search: a shallow embedding of the control plane

    The development follows the Python sources of the repository:

    - [Py]: the operations of Python's [str] (and of the handful of regular
      expressions the sources use), on strings represented as lists of
      characters;
    - [Scheduler]: [scheduler/scheduler_service.py];
    - [CompilerPool]: [compilation_gateway/multiprocess_compiler_pool_shange.py];
    - [Lightweight]: [proofsearch/lightweight/lightweight_utils.py];
    - [Analysis]: [proofsearch/mediumweight/utils.py] (class [ProofAnalysis]).

    Definitions come first, the theorems about them follow. *)

From Stdlib Require Import Ascii String.
From stdpp Require Import gmap strings list sorting pretty.

Local Open Scope list_scope.
Local Open Scope nat_scope.

(** ** Python strings *)

Module Py.

(** A Python [str] is a sequence of code points.  Characters are the code
    points below 256; the character classes below are those of CPython on
    that range. *)
Abbreviation str := (list ascii).

Definition lit (s : string) : str := list_ascii_of_string s.

Definition LF : ascii := "010"%char.
Definition CR : ascii := "013"%char.
Definition nl : str := [LF].

Definition code (c : ascii) : N := N_of_ascii c.

Definition in_range (lo hi : N) (c : ascii) : bool :=
  (lo <=? code c)%N && (code c <=? hi)%N.

(** [str.isspace], the class [\s] of [re], and what [str.strip()] removes. *)
Definition isspace (c : ascii) : bool :=
  in_range 9 13 c || in_range 28 32 c
  || (code c =? 133)%N || (code c =? 160)%N.

(** The class [\w] of [re] on a [str] pattern: alphanumerics and [_]. *)
Definition isword (c : ascii) : bool :=
  in_range 48 57 c || in_range 65 90 c || (code c =? 95)%N
  || in_range 97 122 c
  || (code c =? 170)%N || (code c =? 178)%N || (code c =? 179)%N
  || (code c =? 181)%N || (code c =? 185)%N || (code c =? 186)%N
  || in_range 188 190 c
  || (in_range 192 255 c && negb (code c =? 215)%N && negb (code c =? 247)%N).

(** The line boundaries of [str.splitlines()]. *)
Definition islinebreak (c : ascii) : bool :=
  in_range 10 13 c || in_range 28 30 c || (code c =? 133)%N.

(** [s.startswith(p)] *)
Fixpoint startswith (p s : str) : bool :=
  match p, s with
  | [], _ => true
  | a :: p', b :: s' => Ascii.eqb a b && startswith p' s'
  | _ :: _, [] => false
  end.

(** [s.find(sub)], with [None] for Python's [-1]. *)
Fixpoint find (sub s : str) : option nat :=
  if startswith sub s then Some 0
  else match s with
       | [] => None
       | _ :: s' => S <$> find sub s'
       end.

(** [s.rfind(sub)] *)
Fixpoint rfind (sub s : str) : option nat :=
  match s with
  | [] => if startswith sub [] then Some 0 else None
  | _ :: s' =>
      match rfind sub s' with
      | Some i => Some (S i)
      | None => if startswith sub s then Some 0 else None
      end
  end.

(** [sub in s] *)
Definition contains (sub s : str) : bool :=
  match find sub s with Some _ => true | None => false end.

(** [s.split(sep, 1)]: the part before the first [sep] and, when [sep]
    occurs, the part after it. *)
Definition split1 (sep s : str) : str * option str :=
  match find sep s with
  | Some i => (take i s, Some (drop (i + length sep) s))
  | None => (s, None)
  end.

(** [s.split(sep)] for a non-empty [sep]. *)
Fixpoint split_fuel (fuel : nat) (sep s : str) : list str :=
  match fuel with
  | 0 => [s]
  | S f =>
      match find sep s with
      | None => [s]
      | Some i => take i s :: split_fuel f sep (drop (i + length sep) s)
      end
  end.

Definition split (sep s : str) : list str := split_fuel (S (length s)) sep s.

(** [s.split(c)] for a one-character separator, by structural recursion;
    the sources use it as [s.split('\n')]. *)
Fixpoint split_char (c : ascii) (s : str) : list str :=
  match s with
  | [] => [[]]
  | a :: s' =>
      if Ascii.eqb a c then [] :: split_char c s'
      else match split_char c s' with
           | l :: ls => (a :: l) :: ls
           | [] => [[a]]
           end
  end.

Definition split_lines (s : str) : list str := split_char LF s.

(** [s.splitlines()]: ["\r\n"] is one boundary, and a final boundary opens
    no further line. *)
Fixpoint splitlines (s : str) : list str :=
  match s with
  | [] => []
  | a :: s' =>
      if islinebreak a then
        [] :: (if Ascii.eqb a CR
               then match s' with
                    | b :: s'' => if Ascii.eqb b LF then splitlines s'' else splitlines s'
                    | [] => []
                    end
               else splitlines s')
      else match splitlines s' with
           | l :: ls => (a :: l) :: ls
           | [] => [[a]]
           end
  end.

(** [sep.join(parts)] *)
Fixpoint join (sep : str) (parts : list str) : str :=
  match parts with
  | [] => []
  | [x] => x
  | x :: rest => x ++ sep ++ join sep rest
  end.

Fixpoint dropwhile {A} (f : A → bool) (l : list A) : list A :=
  match l with
  | [] => []
  | x :: l' => if f x then dropwhile f l' else l
  end.

Fixpoint takewhile {A} (f : A → bool) (l : list A) : list A :=
  match l with
  | [] => []
  | x :: l' => if f x then x :: takewhile f l' else []
  end.

Definition lstrip (s : str) : str := dropwhile isspace s.
Definition rstrip (s : str) : str := rev (dropwhile isspace (rev s)).
(** [s.strip()] *)
Definition strip (s : str) : str := rstrip (lstrip s).

(** [s.replace(old, new, 1)] *)
Definition replace1 (old new s : str) : str :=
  match find old s with
  | Some i => take i s ++ new ++ drop (i + length old) s
  | None => s
  end.

(** Equality of strings as a boolean. *)
Fixpoint eqb (s t : str) : bool :=
  match s, t with
  | [], [] => true
  | a :: s', b :: t' => Ascii.eqb a b && eqb s' t'
  | _, _ => false
  end.

(** [str(n)] for a natural number. *)
Definition of_nat (n : nat) : str := lit (pretty n).

(** *** Word boundaries

    [\b] holds at a position when exactly one of the characters before and
    after it is a word character; the ends of the text count as non-word. *)
Definition isword_opt (c : option ascii) : bool :=
  match c with Some a => isword a | None => false end.

Definition boundary (prev next : option ascii) : bool :=
  xorb (isword_opt prev) (isword_opt next).

(** Does [\b name \b] match at the head of [s], [prev] being the character
    just before it?  ([name] is [re.escape]d in the sources, so it matches
    literally.) *)
Definition word_at (name : str) (prev : option ascii) (s : str) : bool :=
  startswith name s
  && boundary prev (head s)
  && boundary (match last name with Some c => Some c | None => prev end)
              (head (drop (length name) s)).

(** [re.search(r'\b' + re.escape(name) + r'\b', s)], as a boolean. *)
Fixpoint search_word_from (name : str) (prev : option ascii) (s : str) : bool :=
  word_at name prev s
  || match s with
     | [] => false
     | c :: s' => search_word_from name (Some c) s'
     end.

Definition search_word (name s : str) : bool := search_word_from name None s.

(** [re.sub(r'\b' + re.escape(old) + r'\b', new, s)] for a non-empty [old]:
    matches are found left to right and do not overlap; boundaries are those
    of the text being scanned.  [skip] counts the characters of a match
    still to be passed over. *)
Fixpoint sub_word_from (old new : str) (skip : nat) (prev : option ascii)
    (s : str) : str :=
  match s with
  | [] => []
  | c :: s' =>
      match skip with
      | S k => sub_word_from old new k (Some c) s'
      | 0 =>
          if word_at old prev s
          then new ++ sub_word_from old new (length old - 1) (Some c) s'
          else c :: sub_word_from old new 0 (Some c) s'
      end
  end.

Definition sub_word (old new s : str) : str := sub_word_from old new 0 None s.

(** *** Order

    [s <= t] on [str]: code point by code point, a proper prefix first. *)
Fixpoint str_leb (s t : str) : bool :=
  match s, t with
  | [], _ => true
  | _ :: _, [] => false
  | a :: s', b :: t' =>
      (code a <? code b)%N || ((code a =? code b)%N && str_leb s' t')
  end.

Definition str_le (s t : str) : Prop := str_leb s t = true.

Global Instance str_le_dec (s t : str) : Decision (str_le s t).
Proof. unfold str_le. apply _. Defined.

(** [sorted(l)] for a list of [str]. *)
Definition sorted (l : list str) : list str := merge_sort str_le l.

End Py.

(** ** The schedulers ([scheduler/scheduler_service.py]) *)

Module Scheduler.
Import Py.

(** A JSON value, as [response.json()] returns it: [None], a [bool], an
    [int], a [float] (kept as its literal), a [str], a [list] or a [dict]
    with string keys. *)
#[local] Unset Elimination Schemes.
Inductive json : Type :=
| JNull
| JBool (b : bool)
| JInt (n : Z)
| JFloat (literal : str)
| JString (s : str)
| JArray (items : list json)
| JObject (fields : list (str * json)).
#[local] Set Elimination Schemes.

(** The key that a failed subscript reports. *)
Inductive key : Type :=
| KeyStr (k : str)
| KeyInt (n : Z).

(** The exceptions that reach a worker loop.  [RequestError] is
    [httpx.RequestError] (a transport failure), [HTTPStatusError] is what
    [response.raise_for_status()] raises, [JSONDecodeError] is what
    [response.json()] raises on a body that is not JSON, [KeyError],
    [IndexError], [TypeError] and [AttributeError] are Python's own (the
    last three without their messages), and [RetryError] is tenacity's
    wrapper around the outcome of the last attempt. *)
Inductive exn : Type :=
| RequestError (msg : str)
| HTTPStatusError (status : nat)
| JSONDecodeError
| KeyError (k : key)
| IndexError
| TypeError
| AttributeError
| ValueError (msg : str)
| RetryError (last_attempt : exn).

Definition is_request_error (e : exn) : bool :=
  match e with RequestError _ => true | _ => false end.

Inductive result (A : Type) : Type :=
| Ok (v : A)
| Raise (e : exn).
Arguments Ok {A} v.
Arguments Raise {A} e.

(** Statements in sequence: the first exception ends the run. *)
Global Instance result_bind : MBind result :=
  λ A B f r, match r with
             | Ok v => f v
             | Raise e => Raise e
             end.

(** *** tenacity

    [@retry(stop=stop_after_attempt(n), retry=retry_if_exception_type(T))]
    with [reraise] left at its default [False].  An attempt that returns is
    the result.  An exception that is not a [T] passes through unchanged.
    For a [T], once [attempt_number >= n] the decorator raises [RetryError]
    holding the failed attempt; otherwise it waits and calls again.
    Attempts are numbered from 1; [call k] is the outcome of the [k]-th
    call.  The second component counts the calls made. *)
Fixpoint retry_from {A} (budget max_attempt_number : nat)
    (retry_if : exn → bool) (call : nat → result A) (attempt_number : nat)
    : result A * nat :=
  match call attempt_number with
  | Ok v => (Ok v, attempt_number)
  | Raise e =>
      if negb (retry_if e) then (Raise e, attempt_number)
      else if max_attempt_number <=? attempt_number
           then (Raise (RetryError e), attempt_number)
           else match budget with
                | 0 => (Raise (RetryError e), attempt_number)
                | S b => retry_from b max_attempt_number retry_if call
                           (S attempt_number)
                end
  end.

Definition retry {A} (max_attempt_number : nat) (retry_if : exn → bool)
    (call : nat → result A) : result A * nat :=
  retry_from max_attempt_number max_attempt_number retry_if call 1.

(** *** Requests and replies *)

Record Message := { role : str; content : str }.

Inductive Prompt : Type :=
| PromptStr (s : str)
| PromptMessages (ms : list Message)
| PromptOther.

Record TaskData := {
  prompt : Prompt;
  model : str;
  extra_params : list (str * str)
}.

(** The dict that [_make_api_call] returns; its values are whatever the
    reply held. *)
Record Usage := {
  prompt_tokens : json;
  completion_tokens : json;
  total_tokens : json
}.

Record InferenceResult := { res_content : json; res_usage : Usage }.

(** The value under a key of a parsed object. *)
Fixpoint lookup_field (k : str) (fields : list (str * json)) : option json :=
  match fields with
  | [] => None
  | (k', v) :: rest => if decide (k' = k) then Some v else lookup_field k rest
  end.

(** [v[k]] for a string [k]: only a dict can be indexed by a string. *)
Definition getitem (v : json) (k : string) : result json :=
  match v with
  | JObject fields =>
      match lookup_field (lit k) fields with
      | Some x => Ok x
      | None => Raise (KeyError (KeyStr (lit k)))
      end
  | _ => Raise TypeError
  end.

(** [v[0]]: the first item of a list or the first character of a string;
    a parsed dict has no integer key; nothing else can be indexed. *)
Definition getitem0 (v : json) : result json :=
  match v with
  | JArray (x :: _) => Ok x
  | JArray [] => Raise IndexError
  | JString (c :: _) => Ok (JString [c])
  | JString [] => Raise IndexError
  | JObject _ => Raise (KeyError (KeyInt 0))
  | _ => Raise TypeError
  end.

(** [v.get(k, default)]: only a dict has the method. *)
Definition get_method (v : json) (k : string) (default_value : json)
    : result json :=
  match v with
  | JObject fields => Ok (default default_value (lookup_field (lit k) fields))
  | _ => Raise AttributeError
  end.

(** What [await self._client.post(...)] does: it raises a transport error,
    or it returns a response with a status and a body; the body is the
    JSON value it holds, or [None] when it is not JSON. *)
Inductive HttpOutcome : Type :=
| Transport (msg : str)
| Response (status : nat) (body : option json).

(** The body of [InferenceSchedulerService._make_api_call], below the
    decorator. *)
Definition api_call_body (td : TaskData) (http : HttpOutcome)
    : result InferenceResult :=
  match prompt td with
  | PromptOther => Raise (ValueError (lit "Invalid prompt format"))
  | _ =>
      match http with
      | Transport msg => Raise (RequestError msg)
      | Response status body =>
          if negb ((200 <=? status) && (status <? 300))
          then Raise (HTTPStatusError status)
          else match body with
               | None => Raise JSONDecodeError
               | Some result =>
                   choices ← getitem result "choices";
                   choice ← getitem0 choices;
                   message ← getitem choice "message";
                   content ← getitem message "content";
                   usage ← get_method result "usage" (JObject []);
                   prompt_tokens ← get_method usage "prompt_tokens" (JInt 0);
                   completion_tokens ←
                     get_method usage "completion_tokens" (JInt 0);
                   total_tokens ← get_method usage "total_tokens" (JInt 0);
                   Ok {| res_content := content;
                         res_usage :=
                           {| prompt_tokens := prompt_tokens;
                              completion_tokens := completion_tokens;
                              total_tokens := total_tokens |} |}
               end
      end
  end.

(** [InferenceSchedulerService._make_api_call]: the body under
    [@retry(stop=stop_after_attempt(0), retry=retry_if_exception_type(httpx.RequestError))].
    [http k] is the outcome of the [k]-th HTTP exchange. *)
Definition _make_api_call (td : TaskData) (http : nat → HttpOutcome)
    : result InferenceResult * nat :=
  retry 0 is_request_error (λ k, api_call_body td (http k)).

(** [CompilationSchedulerService._make_api_call]: the same shape under
    [stop_after_attempt(1)]; the reply is returned as parsed. *)
Definition compile_call_body (http : HttpOutcome) : result json :=
  match http with
  | Transport msg => Raise (RequestError msg)
  | Response status body =>
      if negb ((200 <=? status) && (status <? 300))
      then Raise (HTTPStatusError status)
      else match body with
           | None => Raise JSONDecodeError
           | Some result => Ok result
           end
  end.

Definition compile_make_api_call (http : nat → HttpOutcome)
    : result json * nat :=
  retry 1 is_request_error (λ k, compile_call_body (http k)).

(** *** Futures and the priority queue *)

Inductive Future : Type :=
| Pending
| Result (r : InferenceResult)
| Exception (e : exn)
| Cancelled.

Definition done (f : Future) : bool :=
  match f with Pending => false | _ => true end.

(** A queue entry is the tuple [(priority, count, task_data, future)]; the
    future is shared with the caller, so the entry holds its key in the
    store of futures (the submission count, fresh for every task). *)
Record Entry := {
  priority : Z;
  count : nat;
  task_data : TaskData
}.

(** Python's order on the tuples.  Entries of one queue never agree on
    [(priority, count)] (see [counts_distinct] below), so the comparison
    never reaches the task data. *)
Definition entry_lt (a b : Entry) : bool :=
  (priority a <? priority b)%Z
  || ((priority a =? priority b)%Z && (count a <? count b)).

(** [asyncio.PriorityQueue]: [put] adds an entry, [get] removes the lowest
    one. *)
Fixpoint lowest (e : Entry) (q : list Entry) : Entry :=
  match q with
  | [] => e
  | x :: q' => lowest (if entry_lt x e then x else e) q'
  end.

Fixpoint remove_count (n : nat) (q : list Entry) : list Entry :=
  match q with
  | [] => []
  | x :: q' => if count x =? n then q' else x :: remove_count n q'
  end.

Definition queue_put (q : list Entry) (e : Entry) : list Entry := q ++ [e].

Definition queue_get (q : list Entry) : option (Entry * list Entry) :=
  match q with
  | [] => None
  | x :: q' => let m := lowest x q' in Some (m, remove_count (count m) q)
  end.

Record InferenceSchedulerService := {
  _queue : list Entry;
  _task_counter : nat;
  (** the futures handed to callers, by submission count *)
  futures : gmap nat Future;
  (** the entries held by workers whose API call is under way *)
  running : list Entry;
  (** the counts of the tasks taken by workers, oldest first *)
  dispatched : list nat
}.

Definition init : InferenceSchedulerService :=
  {| _queue := []; _task_counter := 0; futures := ∅; running := [];
     dispatched := [] |}.

(** [inference], up to [return await future]: a fresh future is created,
    the tuple is put on the queue and the counter is incremented.  The
    queue is unbounded, so [put] does not suspend. *)
Definition inference (s : InferenceSchedulerService) (p : Prompt) (m : str)
    (prio : Z) (extra : list (str * str)) : InferenceSchedulerService :=
  let e := {| priority := prio; count := _task_counter s;
              task_data := {| prompt := p; model := m; extra_params := extra |} |} in
  {| _queue := queue_put (_queue s) e;
     _task_counter := S (_task_counter s);
     futures := <[_task_counter s := Pending]> (futures s);
     running := running s;
     dispatched := dispatched s |}.

(** The caller abandons the future of task [n]. *)
Definition cancel (s : InferenceSchedulerService) (n : nat)
    : InferenceSchedulerService :=
  {| _queue := _queue s;
     _task_counter := _task_counter s;
     futures := match futures s !! n with
                | Some Pending => <[n := Cancelled]> (futures s)
                | _ => futures s
                end;
     running := running s;
     dispatched := dispatched s |}.

(** [_worker], first half: [await self._queue.get()] returns the lowest
    entry.  With an empty queue the worker stays blocked. *)
Definition worker_get (s : InferenceSchedulerService)
    : InferenceSchedulerService :=
  match queue_get (_queue s) with
  | None => s
  | Some (e, q') =>
      {| _queue := q';
         _task_counter := _task_counter s;
         futures := futures s;
         running := running s ++ [e];
         dispatched := dispatched s ++ [count e] |}
  end.

(** What a worker does with the outcome of [_make_api_call]:
    [future.set_result] or [future.set_exception], unless the future is
    done already. *)
Definition settle (fut : Future) (r : result InferenceResult) : Future :=
  match r with
  | Ok v => if negb (done fut) then Result v else fut
  | Raise ex => if negb (done fut) then Exception ex else fut
  end.

(** [_worker], second half, for the worker that holds task [n]: the API
    call and the hand-over to the future. *)
Definition worker_finish (s : InferenceSchedulerService) (n : nat)
    (http : nat → HttpOutcome) : InferenceSchedulerService :=
  match List.find (λ e, count e =? n) (running s) with
  | None => s
  | Some e =>
      let fut := default Pending (futures s !! n) in
      {| _queue := _queue s;
         _task_counter := _task_counter s;
         futures := <[n := settle fut (fst (_make_api_call (task_data e) http))]> (futures s);
         running := remove_count n (running s);
         dispatched := dispatched s |}
  end.

(** What can happen to a scheduler: a submission, a cancellation by the
    caller, a worker taking a task, a worker finishing one. *)
Inductive Action : Type :=
| Submit (p : Prompt) (m : str) (prio : Z) (extra : list (str * str))
| Cancel (n : nat)
| Take
| Finish (n : nat) (http : nat → HttpOutcome).

Definition act (s : InferenceSchedulerService) (a : Action)
    : InferenceSchedulerService :=
  match a with
  | Submit p m prio extra => inference s p m prio extra
  | Cancel n => cancel s n
  | Take => worker_get s
  | Finish n http => worker_finish s n http
  end.

Definition run (s : InferenceSchedulerService) (l : list Action)
    : InferenceSchedulerService :=
  foldl act s l.

End Scheduler.

(** ** The compilation pool
    ([compilation_gateway/multiprocess_compiler_pool_shange.py]) *)

Module CompilerPool.
Import Py.

(** A message of the Lean REPL, as far as the pool reads it. *)
Record ErrorMessage := {
  severity : option str;
  data : str
}.

(** A [sorry] reported by the REPL. *)
Record Sorry := { goal : str }.

(** The JSON object the REPL prints: both keys are optional. *)
Record ReplReply := {
  messages : option (list ErrorMessage);
  reply_sorries : option (list Sorry)
}.

(** What running the REPL on a command gives: the parsed reply, or any
    failure on the way (time-out, crash, output that is not JSON), with the
    traceback text. *)
Inductive ReplOutcome : Type :=
| Reply (r : ReplReply)
| Failure (traceback : str).

(** A compilation result is a Python dict; a key that the dict does not
    hold is [None] here.  ([system_errors] is also [None] when the dict
    holds Python's [None] under that key.) *)
Record CompilationResult := {
  errors : option (list ErrorMessage);
  sorries : option (list Sorry);
  system_errors : option str;
  system_messages : option str;
  pass : option bool;
  complete : option bool;
  verified_by : option str
}.

(** The empty dict. *)
Definition empty_result : CompilationResult :=
  {| errors := None; sorries := None; system_errors := None;
     system_messages := None; pass := None; complete := None;
     verified_by := None |}.

Definition is_error (m : ErrorMessage) : bool :=
  match severity m with Some s => eqb s (lit "error") | None => false end.

(** Python's [not l] for a list. *)
Definition is_empty {A} (l : list A) : bool :=
  match l with [] => true | _ => false end.

(** [verify_lean4_file], given what the REPL subprocess did. *)
Definition verify_lean4_file (out : ReplOutcome) : CompilationResult :=
  match out with
  | Reply result =>
      let errs := List.filter is_error (default [] (messages result)) in
      let srs := default [] (reply_sorries result) in
      {| errors := Some errs;
         sorries := Some srs;
         system_errors := None;
         system_messages := None;
         pass := Some (is_empty errs);
         complete := Some (is_empty errs && is_empty srs);
         verified_by := None |}
  | Failure traceback =>
      {| errors := None;
         sorries := None;
         system_errors := Some traceback;
         system_messages := Some [];
         pass := Some false;
         complete := Some false;
         verified_by := None |}
  end.

Definition DEFAULT_IMPORTS : str :=
  lit "import Mathlib" ++ nl ++ lit "import Aesop" ++ nl.

(** [set(a).issubset(set(b))] on lists of strings. *)
Definition issubset (a b : list str) : bool :=
  forallb (λ x, existsb (eqb x) b) a.

(** The loop of [split_import_and_body] over [lines[i:]], with the flag,
    the index and the two lists built so far ([last_import_idx] starts
    at -1). *)
Fixpoint split_loop (rest : list str) (saw_import : bool)
    (last_import_idx : Z) (import_lines body_lines : list str)
    : bool * Z * list str * list str :=
  match rest with
  | [] => (saw_import, last_import_idx, import_lines, body_lines)
  | line :: rest' =>
      let stripped := strip line in
      if startswith (lit "import") stripped
      then let import_lines' := import_lines ++ [stripped] in
           split_loop rest' true (Z.of_nat (length import_lines') - 1)
             import_lines' body_lines
      else if saw_import
           then (saw_import, last_import_idx, import_lines, rest)
           else split_loop rest' saw_import last_import_idx import_lines
                  (body_lines ++ [line])
  end.

(** [split_import_and_body] (the second definition of that name in the
    file, which is the one in force). *)
Definition split_import_and_body (code default_imports : str) : str * str :=
  let lines := splitlines code in
  let '(saw_import, last_import_idx, import_lines, body_lines) :=
    split_loop lines false (-1) [] [] in
  (* move trailing blank lines from the import block to the body *)
  let '(import_lines, body_lines) :=
    if saw_import && (last_import_idx + 1 <? Z.of_nat (length import_lines))%Z
    then (take (Z.to_nat (last_import_idx + 1)) import_lines,
          drop (Z.to_nat (last_import_idx + 1)) import_lines ++ body_lines)
    else (import_lines, body_lines) in
  let import_block := join nl import_lines in
  let lean_body := join nl body_lines in
  let default_import_lines :=
    List.filter (startswith (lit "import"))
      (strip <$> splitlines (strip default_imports)) in
  if issubset import_lines default_import_lines
  then (strip default_imports, lean_body)
  else (strip import_block, lean_body).

End CompilerPool.

(** ** Output normalisation
    ([proofsearch/lightweight/lightweight_utils.py]) *)

Module Lightweight.
Import Py.

Definition DEFAULT_HEADER : str :=
  lit "import Mathlib" ++ nl ++ lit "import Aesop" ++ nl ++ nl
  ++ lit "set_option maxHeartbeats 0" ++ nl ++ nl
  ++ lit "open BigOperators Real Nat Topology Rat" ++ nl ++ nl.

Definition DEFAULT_HEADER_NO_OPEN : str :=
  lit "import Mathlib" ++ nl ++ lit "import Aesop" ++ nl ++ nl
  ++ lit "set_option maxHeartbeats 0" ++ nl ++ nl.

Definition is2 (a b : ascii) (p : string) : bool := eqb [a; b] (lit p).

(** [remove_lean_comments]: the scan of the [while] loop, from position
    [i] (the text left is [lean_code[i:]]) with the nesting depth of block
    comments and the line-comment flag. *)
Fixpoint remove_lean_comments_from (nesting_level : nat)
    (in_single_line_comment : bool) (s : str) : str :=
  match s with
  | [] => []
  | c :: s' =>
      match nesting_level with
      | S n =>
          match s' with
          | c2 :: s'' =>
              if is2 c c2 "/-"
              then remove_lean_comments_from (S nesting_level) in_single_line_comment s''
              else if is2 c c2 "-/"
                   then remove_lean_comments_from n in_single_line_comment s''
                   else remove_lean_comments_from nesting_level in_single_line_comment s'
          | [] => remove_lean_comments_from nesting_level in_single_line_comment s'
          end
      | 0 =>
          if in_single_line_comment
          then if Ascii.eqb c LF
               then LF :: remove_lean_comments_from 0 false s'
               else remove_lean_comments_from 0 true s'
          else match s' with
               | c2 :: s'' =>
                   if is2 c c2 "/-"
                   then remove_lean_comments_from 1 false s''
                   else if is2 c c2 "--"
                        then remove_lean_comments_from 0 true s''
                        else c :: remove_lean_comments_from 0 false s'
               | [] => c :: remove_lean_comments_from 0 false s'
               end
      end
  end.

Definition remove_lean_comments (lean_code : str) : str :=
  remove_lean_comments_from 0 false lean_code.

(** [re.search(r'\b(axiom|lemma|theorem)\b', proof)]: where the first
    match starts. *)
Fixpoint search_statement_from (prev : option ascii) (s : str) : option nat :=
  if word_at (lit "axiom") prev s || word_at (lit "lemma") prev s
     || word_at (lit "theorem") prev s
  then Some 0
  else match s with
       | [] => None
       | c :: s' => S <$> search_statement_from (Some c) s'
       end.

Definition split_proof_at_first_statement (proof : str) : str * str :=
  match search_statement_from None proof with
  | Some idx => (take idx proof, drop idx proof)
  | None => (proof, [])
  end.

Definition remove_imports_from_proof (proof : str) : str :=
  strip (snd (split_proof_at_first_statement proof)).

Definition remove_comments_and_axioms_from_proof (proof : str) : str :=
  let proof := strip (remove_lean_comments proof) in
  if contains (lit "lemma") proof
  then let proof_split := split (lit "lemma") proof in
       strip (lit "lemma" ++ join (lit "lemma") (drop 1 proof_split))
  else let proof_split := split (lit "theorem") proof in
       strip (lit "theorem" ++ join (lit "theorem") (drop 1 proof_split)).

(** [s.rfind('\ntheorem ')], falling back to 0 when [s] starts with
    ['theorem ']. *)
Definition last_theorem (s : str) : option nat :=
  match rfind (nl ++ lit "theorem ") s with
  | Some i => Some i
  | None => if startswith (lit "theorem ") s then Some 0 else None
  end.

(** [s[a:b]] *)
Definition slice (a b : nat) (s : str) : str := take (b - a) (drop a s).

Definition substitute_final_theorem (lean_proof problem_statement : str) : str :=
  let proof := strip lean_proof in
  let problem := strip problem_statement in
  match last_theorem proof with
  | Some last_theorem_index =>
      let proof_prefix := take last_theorem_index proof in
      let final_theorem_block := drop last_theorem_index proof in
      match find (lit ":=") final_theorem_block with
      | None => strip proof_prefix ++ nl ++ nl ++ problem
      | Some proof_start_index =>
          let original_proof_part := drop proof_start_index final_theorem_block in
          match last_theorem problem with
          | None => strip proof_prefix ++ nl ++ nl ++ problem
          | Some problem_theorem_start_index =>
              match rfind (lit ":=") problem with
              | None => strip proof_prefix ++ nl ++ nl ++ problem
              | Some signature_end_index =>
                  let new_signature_part :=
                    slice problem_theorem_start_index signature_end_index problem in
                  strip proof_prefix ++ nl ++ nl ++ strip new_signature_part
                  ++ lit " " ++ strip original_proof_part
              end
          end
      end
  | None => proof ++ nl ++ nl ++ problem
  end.

Definition extract_open_line (header : str) : option str :=
  List.find (λ line, startswith (lit "open") (strip line)) (splitlines header).

Definition process_import_part (header : str) : str :=
  match extract_open_line header with
  | None => DEFAULT_HEADER
  | Some [] => DEFAULT_HEADER
  | Some line => DEFAULT_HEADER_NO_OPEN ++ line ++ nl ++ nl
  end.

Definition fence : str := lit "```".

(** [re.findall(opening + r'(.*?)```', output, re.DOTALL)]: the texts
    between each opening fence and the nearest closing one, matches taken
    left to right without overlap. *)
Fixpoint findall_fuel (fuel : nat) (opening s : str) : list str :=
  match fuel with
  | 0 => []
  | S f =>
      match s with
      | [] => []
      | _ :: s' =>
          if startswith opening s
          then let rest := drop (length opening) s in
               match find fence rest with
               | Some k => take k rest :: findall_fuel f opening (drop (k + 3) rest)
               | None => findall_fuel f opening s'
               end
          else findall_fuel f opening s'
      end
  end.

Definition findall (opening s : str) : list str :=
  findall_fuel (S (length s)) opening s.

(** The test that rejects a candidate. *)
Definition rejected (return_str : str) : bool :=
  contains (lit "apply?") return_str || contains (lit "exact?") return_str
  || contains (lit "admit") return_str || contains (lit "axiom") return_str.

(** The three lines shared by the branches of [process_output]. *)
Definition normalise (block statement : str) : str :=
  strip (substitute_final_theorem
           (remove_imports_from_proof
              (remove_comments_and_axioms_from_proof (strip block)))
           statement).

(** [process_output], which [InferenceHandler] and [RevisionHandler] define
    with the same body.  [facts] is [None] or a list. *)
Definition process_output_body (output statement : str)
    (facts : option (list str)) : str :=
  let '(use_facts, axioms_str) :=
    match facts with
    | Some (f :: fs) => (true, join (nl ++ nl) (f :: fs))
    | _ => (false, [])
    end in
  let matches := findall (lit "```lean4") output in
  let imports_and_opens := fst (split_proof_at_first_statement statement) in
  match last matches with
  | Some m =>
      let return_str := normalise m statement in
      if rejected return_str then statement
      else if use_facts
           then process_import_part imports_and_opens ++ nl ++ nl ++ axioms_str
                ++ nl ++ nl ++ return_str
           else process_import_part imports_and_opens ++ return_str
  | None =>
      let matches1 := findall (lit "```lean") output in
      match last matches1 with
      | Some m =>
          let return_str := normalise m statement in
          if rejected return_str then statement
          else if use_facts
               then process_import_part imports_and_opens ++ nl ++ nl ++ axioms_str
                    ++ nl ++ nl ++ return_str
               else process_import_part imports_and_opens ++ return_str
      | None =>
          let return_str := normalise output statement in
          if rejected return_str then statement
          else process_import_part imports_and_opens ++ return_str
      end
  end.

Module InferenceHandler.
Definition process_output := process_output_body.
End InferenceHandler.

Module RevisionHandler.
Definition process_output := process_output_body.
End RevisionHandler.

(** The candidate proof that [process_output] extracts from an output: the
    last [lean4] block, else the last [lean] block, else the whole output,
    normalised against the statement. *)
Definition candidate (output statement : str) : str :=
  let block :=
    match last (findall (lit "```lean4") output) with
    | Some m => m
    | None => default output (last (findall (lit "```lean") output))
    end in
  normalise block statement.

(** *** Token usage

    A usage dict; a key that is missing counts as 0, as in
    [d.get(key, 0)]. *)
Definition usage_get (d : gmap str nat) (key : string) : nat :=
  default 0 (d !! lit key).

(** [extract_usage_from_inference_result], for a result that is a dict:
    its ['usage'] when it has one, and otherwise three zeros. *)
Definition extract_usage_from_inference_result (usage : option (gmap str nat))
    : gmap str nat :=
  match usage with
  | Some u => u
  | None =>
      <[lit "prompt_tokens" := 0]>
        (<[lit "completion_tokens" := 0]> (<[lit "total_tokens" := 0]> ∅))
  end.

(** [accumulate_usage]: [total_usage] after the three assignments. *)
Definition accumulate_usage (total_usage new_usage : gmap str nat)
    : gmap str nat :=
  let t1 :=
    <[lit "prompt_tokens" :=
        usage_get total_usage "prompt_tokens" + usage_get new_usage "prompt_tokens"]>
      total_usage in
  let t2 :=
    <[lit "completion_tokens" :=
        usage_get t1 "completion_tokens" + usage_get new_usage "completion_tokens"]>
      t1 in
  <[lit "total_tokens" :=
      usage_get t2 "total_tokens" + usage_get new_usage "total_tokens"]> t2.

End Lightweight.

(** ** Proof analysis ([proofsearch/mediumweight/utils.py]) *)

Module Analysis.
Import Py.
Export CompilerPool.

(** *** Python dicts

    A dict keeps its keys in insertion order; assigning to a key that is
    present replaces the value where it stands. *)
Definition dict (V : Type) : Type := list (str * V).

Fixpoint dict_get {V} (d : dict V) (k : str) : option V :=
  match d with
  | [] => None
  | (k', v) :: d' => if decide (k' = k) then Some v else dict_get d' k
  end.

(** [d[k] = v] *)
Fixpoint dict_set {V} (d : dict V) (k : str) (v : V) : dict V :=
  match d with
  | [] => [(k, v)]
  | (k', v') :: d' =>
      if decide (k' = k) then (k, v) :: d' else (k', v') :: dict_set d' k v
  end.

(** [k in d] *)
Definition dict_mem {V} (d : dict V) (k : str) : bool :=
  match dict_get d k with Some _ => true | None => false end.

Definition keys {V} (d : dict V) : list str := fst <$> d.
Definition values {V} (d : dict V) : list V := snd <$> d.

(** The value under [k] is mutated in place, when there is one. *)
Fixpoint dict_update {V} (d : dict V) (k : str) (f : V → V) : dict V :=
  match d with
  | [] => []
  | (k', v) :: d' =>
      if decide (k' = k) then (k', f v) :: d' else (k', v) :: dict_update d' k f
  end.

(** *** Declarations *)

Inductive DeclType : Type := DAxiom | DLemma | DTheorem | DDef.

Global Instance DeclType_eq_dec : EqDecision DeclType.
Proof. solve_decision. Defined.

Definition keyword (t : DeclType) : str :=
  match t with
  | DAxiom => lit "axiom"
  | DLemma => lit "lemma"
  | DTheorem => lit "theorem"
  | DDef => lit "def"
  end.

(** [info['type'] in ['lemma', 'theorem']] *)
Definition is_lemma_or_theorem (t : DeclType) : bool :=
  match t with DLemma | DTheorem => true | _ => false end.

Definition is_def (t : DeclType) : bool :=
  match t with DDef => true | _ => false end.

Definition is_axiom (t : DeclType) : bool :=
  match t with DAxiom => true | _ => false end.

Record Declaration := {
  name : str;
  type : DeclType;
  start_line : nat;
  end_line : nat;
  dependencies : gset str;
  has_proof : bool;
  full_text : str;
  original_subproblem : option (str * list str);
  fixed_subproblem : option str;
  was_fixed : bool;
  is_verified : bool;
  added_for : option str;
  renamed_from : option str
}.

Definition with_span (e : nat) (t : str) (p : bool) (d : Declaration) :=
  {| name := name d; type := type d; start_line := start_line d;
     end_line := e; dependencies := dependencies d; has_proof := p;
     full_text := t; original_subproblem := original_subproblem d;
     fixed_subproblem := fixed_subproblem d; was_fixed := was_fixed d;
     is_verified := is_verified d; added_for := added_for d;
     renamed_from := renamed_from d |}.

Definition with_dependencies (deps : gset str) (d : Declaration) :=
  {| name := name d; type := type d; start_line := start_line d;
     end_line := end_line d; dependencies := deps; has_proof := has_proof d;
     full_text := full_text d; original_subproblem := original_subproblem d;
     fixed_subproblem := fixed_subproblem d; was_fixed := was_fixed d;
     is_verified := is_verified d; added_for := added_for d;
     renamed_from := renamed_from d |}.

Definition with_original_subproblem (o : option (str * list str)) (d : Declaration) :=
  {| name := name d; type := type d; start_line := start_line d;
     end_line := end_line d; dependencies := dependencies d;
     has_proof := has_proof d; full_text := full_text d;
     original_subproblem := o;
     fixed_subproblem := fixed_subproblem d; was_fixed := was_fixed d;
     is_verified := is_verified d; added_for := added_for d;
     renamed_from := renamed_from d |}.

Definition with_fixed_subproblem (o : option str) (d : Declaration) :=
  {| name := name d; type := type d; start_line := start_line d;
     end_line := end_line d; dependencies := dependencies d;
     has_proof := has_proof d; full_text := full_text d;
     original_subproblem := original_subproblem d;
     fixed_subproblem := o; was_fixed := was_fixed d;
     is_verified := is_verified d; added_for := added_for d;
     renamed_from := renamed_from d |}.

Definition with_was_fixed (b : bool) (d : Declaration) :=
  {| name := name d; type := type d; start_line := start_line d;
     end_line := end_line d; dependencies := dependencies d;
     has_proof := has_proof d; full_text := full_text d;
     original_subproblem := original_subproblem d;
     fixed_subproblem := fixed_subproblem d; was_fixed := b;
     is_verified := is_verified d; added_for := added_for d;
     renamed_from := renamed_from d |}.

Definition with_is_verified (b : bool) (d : Declaration) :=
  {| name := name d; type := type d; start_line := start_line d;
     end_line := end_line d; dependencies := dependencies d;
     has_proof := has_proof d; full_text := full_text d;
     original_subproblem := original_subproblem d;
     fixed_subproblem := fixed_subproblem d; was_fixed := was_fixed d;
     is_verified := b; added_for := added_for d;
     renamed_from := renamed_from d |}.

Definition with_added_for (o : option str) (d : Declaration) :=
  {| name := name d; type := type d; start_line := start_line d;
     end_line := end_line d; dependencies := dependencies d;
     has_proof := has_proof d; full_text := full_text d;
     original_subproblem := original_subproblem d;
     fixed_subproblem := fixed_subproblem d; was_fixed := was_fixed d;
     is_verified := is_verified d; added_for := o;
     renamed_from := renamed_from d |}.

Definition with_renamed_from (o : option str) (d : Declaration) :=
  {| name := name d; type := type d; start_line := start_line d;
     end_line := end_line d; dependencies := dependencies d;
     has_proof := has_proof d; full_text := full_text d;
     original_subproblem := original_subproblem d;
     fixed_subproblem := fixed_subproblem d; was_fixed := was_fixed d;
     is_verified := is_verified d; added_for := added_for d;
     renamed_from := o |}.

(** *** The declaration pattern

    [re.match(r'^\s*(axiom|lemma|theorem|def)\s+([\w\.]+)', line)].  The
    classes [\s], the keywords' letters and [[\w.]] do not overlap and no
    keyword is a prefix of another, so the greedy match is the only one. *)
Definition parse_keyword (s : str) : option (DeclType * str) :=
  if startswith (lit "axiom") s then Some (DAxiom, drop 5 s)
  else if startswith (lit "lemma") s then Some (DLemma, drop 5 s)
  else if startswith (lit "theorem") s then Some (DTheorem, drop 7 s)
  else if startswith (lit "def") s then Some (DDef, drop 3 s)
  else None.

Definition isname (c : ascii) : bool := isword c || Ascii.eqb c "."%char.

Definition match_declaration (line : str) : option (DeclType * str) :=
  match parse_keyword (dropwhile isspace line) with
  | Some (t, rest) =>
      match rest with
      | c :: _ =>
          if isspace c
          then match takewhile isname (dropwhile isspace rest) with
               | [] => None
               | n => Some (t, n)
               end
          else None
      | [] => None
      end
  | None => None
  end.

(** [sorted(decls, key=lambda x: x['start_line'])]: a stable sort. *)
Fixpoint insert_by {A} (key : A → nat) (x : A) (l : list A) : list A :=
  match l with
  | [] => [x]
  | y :: l' => if key y <=? key x then y :: insert_by key x l' else x :: l
  end.

Definition sorted_by {A} (key : A → nat) (l : list A) : list A :=
  foldl (λ acc x, insert_by key x acc) [] l.

(** [lines[a:b]] *)
Definition slice_lines (a b : nat) (lines : list str) : list str :=
  take (b - a) (drop a lines).

(** First pass of [_extract_declarations], from line index [i]. *)
Fixpoint first_pass (i : nat) (lines : list str) (declarations : dict Declaration)
    : dict Declaration :=
  match lines with
  | [] => declarations
  | line :: rest =>
      first_pass (S i) rest
        match match_declaration line with
        | Some (decl_type, decl_name) =>
            dict_set declarations decl_name
              {| name := decl_name; type := decl_type;
                 start_line := i + 1; end_line := i + 1;
                 dependencies := ∅; has_proof := false; full_text := [];
                 original_subproblem := None; fixed_subproblem := None;
                 was_fixed := false; is_verified := false;
                 added_for := None; renamed_from := None |}
        | None => declarations
        end
  end.

(** Second pass: the end line, the text and [has_proof] of each
    declaration, in the order of [sorted_decls]. *)
Fixpoint second_pass (lines : list str) (sorted_decls : list Declaration)
    : list Declaration :=
  match sorted_decls with
  | [] => []
  | decl_info :: rest =>
      let start_idx := start_line decl_info - 1 in
      let end_idx :=
        match rest with
        | next :: _ => start_line next - 1
        | [] => length lines
        end in
      let text := strip (join nl (slice_lines start_idx end_idx lines)) in
      with_span end_idx text
        (is_lemma_or_theorem (type decl_info) && contains (lit ":=") text)
        decl_info
      :: second_pass lines rest
  end.

(** The entries of [sorted_decls] are the dict's own values: what the second
    pass writes is seen through the dict. *)
Definition write_back (declarations : dict Declaration)
    (infos : list Declaration) : dict Declaration :=
  foldl (λ d info, dict_set d (name info) info) declarations infos.

(** Third pass: the names of the other declarations that occur in the
    text of a lemma, a theorem or a definition. *)
Definition with_found_dependencies (decl_names : list str) (n : str)
    (info : Declaration) : Declaration :=
  if is_lemma_or_theorem (type info) || is_def (type info)
  then with_dependencies
         (dependencies info ∪
          list_to_set
            (List.filter
               (λ other_name,
                  negb (bool_decide (other_name = n))
                  && search_word other_name (full_text info))
               decl_names))
         info
  else info.

Definition third_pass (declarations : dict Declaration) : dict Declaration :=
  let decl_names := keys declarations in
  (λ '(n, info), (n, with_found_dependencies decl_names n info)) <$> declarations.

Definition _extract_declarations (lines : list str) : dict Declaration :=
  let declarations := first_pass 0 lines [] in
  let sorted_decls := sorted_by start_line (values declarations) in
  third_pass (write_back declarations (second_pass lines sorted_decls)).

Definition is_header_line (line : str) : bool :=
  let stripped := strip line in
  startswith (lit "import") stripped || startswith (lit "open") stripped
  || startswith (lit "set_option") stripped || is_empty stripped.

Definition _extract_header (lines : list str) : str :=
  strip (join nl (takewhile is_header_line lines)).

(** *** The analysis state *)

(** What [await compilation_scheduler.compile(name, code)] gives: the
    response dict, in which the key ['compilation_result'] may be missing,
    or an exception. *)
Inductive CompileOutcome : Type :=
| Compiled (compilation_result : option CompilationResult)
| CompileRaises (message : str).

(** The compilation scheduler, as the analysis sees it. *)
Definition Compiler : Type := str → str → CompileOutcome.

Record FixRecord := {
  fix_original_subproblem : str;
  fix_fixed_subproblem : str;
  renamings : option (dict str)
}.

Record ProofAnalysis := {
  code : str;
  _original_code : str;
  lines : list str;
  compilation_scheduler : option Compiler;
  fix_history : gmap str FixRecord;
  header : str;
  declarations : dict Declaration;
  lemma_compilation_results : gmap str CompilationResult;
  error_declarations : gset str;
  _verification_done : bool
}.

Definition set_declarations (decls : dict Declaration) (st : ProofAnalysis) :=
  {| code := code st; _original_code := _original_code st; lines := lines st;
     compilation_scheduler := compilation_scheduler st;
     fix_history := fix_history st; header := header st;
     declarations := decls;
     lemma_compilation_results := lemma_compilation_results st;
     error_declarations := error_declarations st;
     _verification_done := _verification_done st |}.

Definition set_results (r : gmap str CompilationResult) (st : ProofAnalysis) :=
  {| code := code st; _original_code := _original_code st; lines := lines st;
     compilation_scheduler := compilation_scheduler st;
     fix_history := fix_history st; header := header st;
     declarations := declarations st;
     lemma_compilation_results := r;
     error_declarations := error_declarations st;
     _verification_done := _verification_done st |}.

Definition set_errors (e : gset str) (st : ProofAnalysis) :=
  {| code := code st; _original_code := _original_code st; lines := lines st;
     compilation_scheduler := compilation_scheduler st;
     fix_history := fix_history st; header := header st;
     declarations := declarations st;
     lemma_compilation_results := lemma_compilation_results st;
     error_declarations := e;
     _verification_done := _verification_done st |}.

Definition set_verification_done (b : bool) (st : ProofAnalysis) :=
  {| code := code st; _original_code := _original_code st; lines := lines st;
     compilation_scheduler := compilation_scheduler st;
     fix_history := fix_history st; header := header st;
     declarations := declarations st;
     lemma_compilation_results := lemma_compilation_results st;
     error_declarations := error_declarations st;
     _verification_done := b |}.

(** [ProofAnalysis.__init__] *)
Definition __init__ (code : str) (compilation_scheduler : option Compiler)
    : ProofAnalysis :=
  let lines := split_lines code in
  {| code := code; _original_code := code; lines := lines;
     compilation_scheduler := compilation_scheduler;
     fix_history := ∅;
     header := _extract_header lines;
     declarations := _extract_declarations lines;
     lemma_compilation_results := ∅;
     error_declarations := ∅;
     _verification_done := false |}.

(** [result.get('complete', False)] *)
Definition get_complete (r : CompilationResult) : bool :=
  default false (complete r).

(** The exceptions raised inside the analysis. *)
Inductive exn : Type :=
| ValueError (message : str)
| TypeError (message : str).

Inductive result (A : Type) : Type :=
| Ok (v : A)
| Raise (e : exn).
Arguments Ok {A} v.
Arguments Raise {A} e.

(** [_get_proof_dependencies] *)
Definition _get_proof_dependencies (st : ProofAnalysis) (lemma_name : str)
    : gset str :=
  match dict_get (declarations st) lemma_name with
  | None => ∅
  | Some target_decl =>
      let text := full_text target_decl in
      let proof_text :=
        if contains (lit ":= by") text
        then default [] (snd (split1 (lit ":= by") text))
        else if contains (lit ":=") text
             then default [] (snd (split1 (lit ":=") text))
             else [] in
      list_to_set
        (List.filter
           (λ other_name,
              negb (bool_decide (other_name = lemma_name))
              && search_word other_name proof_text)
           (keys (declarations st)))
  end.

(** A lemma or theorem in axiom form: the keyword is replaced and what
    follows [:=] is dropped. *)
Definition axiom_form (decl_text : str) : str :=
  let axiom_text :=
    if startswith (lit "lemma") decl_text
    then replace1 (lit "lemma") (lit "axiom") decl_text
    else replace1 (lit "theorem") (lit "axiom") decl_text in
  if contains (lit ":=") axiom_text
  then strip (fst (split1 (lit ":=") axiom_text))
  else axiom_text.

(** Whether a lemma or theorem that the proof uses is taken as correct. *)
Definition should_include (st : ProofAnalysis) (n : str) : bool :=
  match lemma_compilation_results st !! n with
  | Some r => get_complete r
  | None => negb (bool_decide (n ∈ error_declarations st))
  end.

Definition not_a_lemma (what : string) (lemma_name : str) : exn :=
  ValueError (lit "'" ++ lemma_name ++ lit what).

Definition is_target (st : ProofAnalysis) (lemma_name : str) : bool :=
  match dict_get (declarations st) lemma_name with
  | Some d => is_lemma_or_theorem (type d)
  | None => false
  end.

(** The loop of [_construct_verification_code] over [sorted_decls]. *)
Fixpoint verification_context (st : ProofAnalysis) (lemma_name : str)
    (proof_deps : gset str) (sorted_decls : list Declaration)
    (context_parts : list str) : list str :=
  match sorted_decls with
  | [] => context_parts
  | info :: rest =>
      verification_context st lemma_name proof_deps rest
        (if bool_decide (name info = lemma_name) then context_parts
         else match type info with
              | DDef => context_parts ++ [full_text info]
              | DAxiom =>
                  if bool_decide (name info ∈ proof_deps)
                  then context_parts ++ [full_text info]
                  else context_parts
              | _ =>
                  if bool_decide (name info ∈ proof_deps)
                     && should_include st (name info)
                  then context_parts ++ [axiom_form (full_text info)]
                  else context_parts
              end)
  end.

Definition _construct_verification_code (st : ProofAnalysis) (lemma_name : str)
    : result str :=
  match dict_get (declarations st) lemma_name with
  | Some target_decl =>
      if is_lemma_or_theorem (type target_decl)
      then
        let proof_deps := _get_proof_dependencies st lemma_name in
        let target_text := full_text target_decl in
        let sorted_decls := sorted_by start_line (values (declarations st)) in
        let full_context :=
          join (nl ++ nl)
            (verification_context st lemma_name proof_deps sorted_decls []) in
        Ok (header st ++ nl ++ nl ++ full_context ++ nl ++ nl ++ target_text)
      else Raise (not_a_lemma "' is not a valid lemma or theorem to verify." lemma_name)
  | None => Raise (not_a_lemma "' is not a valid lemma or theorem to verify." lemma_name)
  end.

(** The loop of [_construct_subproblem_internal] over [sorted_decls]: the
    definitions go to [context_parts], the axioms and the correct lemmas
    that the proof uses go to [facts]. *)
Fixpoint subproblem_context (st : ProofAnalysis) (lemma_name : str)
    (proof_deps : gset str) (sorted_decls : list Declaration)
    (context_parts facts : list str) : list str * list str :=
  match sorted_decls with
  | [] => (context_parts, facts)
  | info :: rest =>
      let '(context_parts', facts') :=
        if bool_decide (name info = lemma_name) then (context_parts, facts)
        else match type info with
             | DDef => (context_parts ++ [full_text info], facts)
             | DAxiom =>
                 if bool_decide (name info ∈ proof_deps)
                 then (context_parts, facts ++ [full_text info])
                 else (context_parts, facts)
             | _ =>
                 if bool_decide (name info ∈ proof_deps)
                    && should_include st (name info)
                 then (context_parts, facts ++ [axiom_form (full_text info)])
                 else (context_parts, facts)
             end in
      subproblem_context st lemma_name proof_deps rest context_parts' facts'
  end.

(** The target with its keyword turned into [theorem] and its proof
    replaced by [sorry]. *)
Definition sorry_form (target_text : str) : str :=
  let theorem_text :=
    if startswith (lit "lemma") target_text
    then replace1 (lit "lemma") (lit "theorem") target_text
    else target_text in
  if contains (lit ":=") theorem_text
  then strip (fst (split1 (lit ":=") theorem_text)) ++ lit " := by sorry"
  else theorem_text ++ lit " := by sorry".

Definition _construct_subproblem_internal (st : ProofAnalysis) (lemma_name : str)
    : result (str * list str) :=
  match dict_get (declarations st) lemma_name with
  | Some target_decl =>
      if is_lemma_or_theorem (type target_decl)
      then
        let proof_deps := _get_proof_dependencies st lemma_name in
        let theorem_text := sorry_form (full_text target_decl) in
        let sorted_decls := sorted_by start_line (values (declarations st)) in
        let '(context_parts, facts) :=
          subproblem_context st lemma_name proof_deps sorted_decls [] [] in
        let full_context := join (nl ++ nl) context_parts in
        Ok (header st ++ nl ++ full_context ++ nl ++ theorem_text, facts)
      else Raise (not_a_lemma "' is not a valid lemma or theorem to construct a subproblem for." lemma_name)
  | None => Raise (not_a_lemma "' is not a valid lemma or theorem to construct a subproblem for." lemma_name)
  end.

(** [construct_subproblem]: the cached pair when there is one. *)
Definition construct_subproblem (st : ProofAnalysis) (lemma_name : str)
    : result (str * list str) :=
  match dict_get (declarations st) lemma_name with
  | Some d =>
      match original_subproblem d with
      | Some cached => Ok cached
      | None => _construct_subproblem_internal st lemma_name
      end
  | None => _construct_subproblem_internal st lemma_name
  end.

(** [_cache_subproblems]: the declarations are visited in dict order and
    each lemma or theorem gets its subproblem, computed on the analysis as
    it is at that point. *)
Fixpoint cache_loop (names : list str) (st : ProofAnalysis) : ProofAnalysis :=
  match names with
  | [] => st
  | n :: rest =>
      cache_loop rest
        match dict_get (declarations st) n with
        | Some info =>
            if is_lemma_or_theorem (type info)
            then match _construct_subproblem_internal st n with
                 | Ok sub =>
                     set_declarations
                       (dict_update (declarations st) n
                          (with_original_subproblem (Some sub))) st
                 | Raise _ => st
                 end
            else st
        | None => st
        end
  end.

Definition _cache_subproblems (st : ProofAnalysis) : ProofAnalysis :=
  cache_loop (keys (declarations st)) st.

(** *** Verification *)

(** The dict stored when the compile call raises. *)
Definition failed_verification (message : str) : CompilationResult :=
  {| errors := Some [ {| severity := None;
                         data := lit "Verification failed: " ++ message |} ];
     sorries := None; system_errors := None; system_messages := None;
     pass := Some false; complete := Some false; verified_by := None |}.

(** [_verify_lemma_async].  [asyncio.gather] starts every task before any
    compile call returns, so a task builds its verification code on the
    analysis as it was on entry ([view]); it records its result in the
    analysis as it is when the call returns ([st]). *)
Definition _verify_lemma_async (compile : Compiler) (view st : ProofAnalysis)
    (lemma_name : str) : ProofAnalysis * bool :=
  if negb (dict_mem (declarations view) lemma_name) then (st, false)
  else
    match _construct_verification_code view lemma_name with
    | Raise (ValueError m) | Raise (TypeError m) =>
        (set_results (<[lemma_name := failed_verification m]>
                        (lemma_compilation_results st)) st, false)
    | Ok verification_code =>
        match compile (lit "verify_" ++ lemma_name) verification_code with
        | CompileRaises m =>
            (set_results (<[lemma_name := failed_verification m]>
                            (lemma_compilation_results st)) st, false)
        | Compiled info =>
            let compilation_result := default empty_result info in
            (set_results (<[lemma_name := compilation_result]>
                            (lemma_compilation_results st)) st,
             get_complete compilation_result)
        end
    end.

(** The tasks of [asyncio.gather(..., return_exceptions=True)], in order:
    the analysis after them and what each returned. *)
Fixpoint gather (compile : Compiler) (view : ProofAnalysis)
    (lemma_names : list str) (st : ProofAnalysis)
    : ProofAnalysis * list (exn + bool) :=
  match lemma_names with
  | [] => (st, [])
  | n :: rest =>
      let '(st1, r) := _verify_lemma_async compile view st n in
      let '(st2, rs) := gather compile view rest st1 in
      (st2, inr r :: rs)
  end.

(** The loop over [zip(lemma_names, results)]. *)
Fixpoint record_results (named : list (str * (exn + bool))) (st : ProofAnalysis)
    : ProofAnalysis :=
  match named with
  | [] => st
  | (n, inl _) :: rest =>
      record_results rest
        (set_declarations
           (dict_update (declarations st) n (with_is_verified false))
           (set_errors ({[n]} ∪ error_declarations st) st))
  | (n, inr r) :: rest =>
      record_results rest
        (let st1 :=
           set_declarations
             (dict_update (declarations st) n (with_is_verified r)) st in
         if negb r then set_errors ({[n]} ∪ error_declarations st1) st1
         else st1)
  end.

Definition lemmas_to_verify (declarations : dict Declaration) : list str :=
  keys (List.filter (λ '(_, info), is_lemma_or_theorem (type info) && has_proof info)
          declarations).

Definition verify_all_lemmas (st : ProofAnalysis) : ProofAnalysis :=
  if _verification_done st then st
  else match compilation_scheduler st with
       | None => st
       | Some compile =>
           let lemma_names := lemmas_to_verify (declarations st) in
           let '(st1, results) := gather compile st lemma_names st in
           let st2 := record_results (zip lemma_names results) st1 in
           _cache_subproblems (set_verification_done true st2)
       end.

(** *** Renaming *)

(** The loop of [_generate_unique_name].  Fewer than [size existing_names]
    candidates can be taken, so the loop ends within that many turns. *)
Fixpoint unique_from (fuel counter : nat) (base_name : str)
    (existing_names : gset str) : str :=
  let candidate := base_name ++ lit "_" ++ of_nat counter in
  match fuel with
  | 0 => candidate
  | S f =>
      if bool_decide (candidate ∈ existing_names)
      then unique_from f (S counter) base_name existing_names
      else candidate
  end.

Definition _generate_unique_name (base_name : str) (existing_names : gset str)
    : str :=
  if bool_decide (base_name ∈ existing_names)
  then unique_from (size existing_names) 1 base_name existing_names
  else base_name.

(** [^] under [re.MULTILINE]: at the start of the text and after a newline. *)
Definition at_line_start (prev : option ascii) : bool :=
  match prev with None => true | Some c => Ascii.eqb c LF end.

(** Does [\s*(axiom|lemma|theorem|def)\s+ old \b] match at the head of
    [s]?  The keyword matched and the length of the match. *)
Definition declaration_at (old_name s : str) : option (str * nat) :=
  let ws := takewhile isspace s in
  match parse_keyword (drop (length ws) s) with
  | Some (t, rest) =>
      let ws2 := takewhile isspace rest in
      let rest2 := drop (length ws2) rest in
      if negb (is_empty ws2) && startswith old_name rest2
         && boundary (last old_name) (head (drop (length old_name) rest2))
      then Some (keyword t,
                 length ws + length (keyword t) + length ws2 + length old_name)
      else None
  | None => None
  end.

(** [re.sub(r'^\s*(axiom|lemma|theorem|def)\s+' + re.escape(old_name) + r'\b',
    r'\1 ' + new_name, text, flags=re.MULTILINE)] *)
Fixpoint sub_declaration_from (old_name new_name : str) (skip : nat)
    (prev : option ascii) (s : str) : str :=
  match s with
  | [] => []
  | c :: s' =>
      match skip with
      | S k => sub_declaration_from old_name new_name k (Some c) s'
      | 0 =>
          match (if at_line_start prev then declaration_at old_name s else None) with
          | Some (kw, len) =>
              kw ++ lit " " ++ new_name
              ++ sub_declaration_from old_name new_name (len - 1) (Some c) s'
          | None => c :: sub_declaration_from old_name new_name 0 (Some c) s'
          end
      end
  end.

Definition _rename_declaration_in_text (text old_name new_name : str) : str :=
  let text := sub_declaration_from old_name new_name 0 None text in
  sub_word old_name new_name text.

(** Every renaming of [name_mappings], in dict order. *)
Definition rename_all (name_mappings : dict str) (text : str) : str :=
  foldl (λ t '(old_name, new_name), _rename_declaration_in_text t old_name new_name)
        text name_mappings.

(** *** Fixing a lemma *)

(** A declaration of the fixed code. *)
Record FixedDecl := {
  f_type : DeclType;
  f_start_line : nat;
  f_name : str;
  f_end_line : nat;
  f_text : str;
  f_original_name : option str
}.

Fixpoint fixed_first_pass (i : nat) (fixed_lines : list str)
    (fixed_declarations : dict FixedDecl) : dict FixedDecl :=
  match fixed_lines with
  | [] => fixed_declarations
  | line :: rest =>
      fixed_first_pass (S i) rest
        match match_declaration line with
        | Some (decl_type, decl_name) =>
            dict_set fixed_declarations decl_name
              {| f_type := decl_type; f_start_line := i; f_name := decl_name;
                 f_end_line := 0; f_text := []; f_original_name := None |}
        | None => fixed_declarations
        end
  end.

Fixpoint fixed_second_pass (fixed_lines : list str)
    (sorted_fixed_decls : list FixedDecl) : list FixedDecl :=
  match sorted_fixed_decls with
  | [] => []
  | decl_info :: rest =>
      let start_idx := f_start_line decl_info in
      let end_idx :=
        match rest with
        | next :: _ => f_start_line next
        | [] => length fixed_lines
        end in
      {| f_type := f_type decl_info; f_start_line := start_idx;
         f_name := f_name decl_info; f_end_line := end_idx;
         f_text := strip (join nl (slice_lines start_idx end_idx fixed_lines));
         f_original_name := f_original_name decl_info |}
      :: fixed_second_pass fixed_lines rest
  end.

(** Step 1 of [fix_lemma]: the declarations of the fixed code, with their
    texts. *)
Definition parse_fixed (fixed_subproblem_code : str) : dict FixedDecl :=
  let fixed_lines := split_lines fixed_subproblem_code in
  let fixed_declarations := fixed_first_pass 0 fixed_lines [] in
  let sorted_fixed_decls := sorted_by f_start_line (values fixed_declarations) in
  foldl (λ d info, dict_set d (f_name info) info) fixed_declarations
        (fixed_second_pass fixed_lines sorted_fixed_decls).

(** Step 3: the keyword of the fixed target goes back to the original one. *)
Definition restore_keyword (original_type : DeclType) (new_decl_text : str) : str :=
  match original_type with
  | DLemma =>
      if startswith (lit "theorem") new_decl_text
      then replace1 (lit "theorem") (lit "lemma") new_decl_text
      else new_decl_text
  | DTheorem =>
      if startswith (lit "lemma") new_decl_text
      then replace1 (lit "lemma") (lit "theorem") new_decl_text
      else new_decl_text
  | _ => new_decl_text
  end.

(** Step 4: the loop over [fixed_declarations.items()], which collects the
    new helper lemmas and renames those whose names are taken. *)
Fixpoint new_lemma_loop (lemma_name : str) (items : list (str * FixedDecl))
    (new_lemmas : list FixedDecl) (name_mappings : dict str)
    (existing_names : gset str) : list FixedDecl * dict str * gset str :=
  match items with
  | [] => (new_lemmas, name_mappings, existing_names)
  | (decl_name, decl_info) :: rest =>
      if negb (is_lemma_or_theorem (f_type decl_info))
      then new_lemma_loop lemma_name rest new_lemmas name_mappings existing_names
      else if bool_decide (decl_name = lemma_name)
      then new_lemma_loop lemma_name rest new_lemmas name_mappings existing_names
      else if bool_decide (decl_name ∈ existing_names)
      then
        let new_name := _generate_unique_name decl_name existing_names in
        new_lemma_loop lemma_name rest
          (new_lemmas ++
             [ {| f_type := f_type decl_info;
                  f_start_line := f_start_line decl_info;
                  f_name := new_name; f_end_line := f_end_line decl_info;
                  f_text := f_text decl_info;
                  f_original_name := Some decl_name |} ])
          (dict_set name_mappings decl_name new_name)
          ({[new_name]} ∪ existing_names)
      else
        new_lemma_loop lemma_name rest (new_lemmas ++ [decl_info])
          name_mappings ({[decl_name]} ∪ existing_names)
  end.

Definition with_text (t : str) (d : FixedDecl) : FixedDecl :=
  {| f_type := f_type d; f_start_line := f_start_line d; f_name := f_name d;
     f_end_line := f_end_line d; f_text := t;
     f_original_name := f_original_name d |}.

(** Step 6: a helper stated as a theorem becomes a lemma. *)
Definition helper_text (lemma_text : str) : str :=
  if startswith (lit "theorem") lemma_text
  then replace1 (lit "theorem") (lit "lemma") lemma_text
  else lemma_text.

(** The dict stored for a lemma that the lightweight pipeline has proved. *)
Definition trusted_result : CompilationResult :=
  {| errors := Some []; sorries := None; system_errors := None;
     system_messages := None; pass := Some true; complete := Some true;
     verified_by := Some (lit "lightweight_pipeline") |}.

(** Step 9, the loop that restores the marks of the lemmas fixed before. *)
Fixpoint restore_loop (previously_fixed : list str)
    (old_compilation_results : gmap str CompilationResult)
    (st : ProofAnalysis) : ProofAnalysis :=
  match previously_fixed with
  | [] => st
  | n :: rest =>
      restore_loop rest old_compilation_results
        (if dict_mem (declarations st) n then
           let st1 :=
             set_declarations
               (dict_update (declarations st) n (with_was_fixed true)) st in
           let st2 :=
             match fix_history st1 !! n with
             | Some h =>
                 set_declarations
                   (dict_update (declarations st1) n
                      (with_fixed_subproblem (Some (fix_fixed_subproblem h)))) st1
             | None => st1
             end in
           match old_compilation_results !! n with
           | Some r =>
               set_declarations
                 (dict_update (declarations st2) n
                    (with_is_verified (get_complete r)))
                 (set_results (<[n := r]> (lemma_compilation_results st2)) st2)
           | None => st2
           end
         else st)
  end.

(** Step 10, the loop that marks the fixed lemma and its helpers. *)
Fixpoint mark_verified_loop (lemmas_to_mark_verified : list str)
    (st : ProofAnalysis) : ProofAnalysis :=
  match lemmas_to_mark_verified with
  | [] => st
  | verify_name :: rest =>
      mark_verified_loop rest
        (if dict_mem (declarations st) verify_name then
           set_errors (error_declarations st ∖ {[verify_name]})
             (set_results
                (<[verify_name := trusted_result]> (lemma_compilation_results st))
                (set_declarations
                   (dict_update
                      (dict_update (declarations st) verify_name
                         (with_was_fixed true))
                      verify_name (with_is_verified true))
                   st))
         else st)
  end.

(** Step 12, the loop over the new helpers. *)
Fixpoint helper_metadata_loop (lemma_name : str) (new_lemmas : list FixedDecl)
    (st : ProofAnalysis) : ProofAnalysis :=
  match new_lemmas with
  | [] => st
  | new_lemma_info :: rest =>
      helper_metadata_loop lemma_name rest
        (let lemma_name_final := f_name new_lemma_info in
         if dict_mem (declarations st) lemma_name_final then
           let st1 :=
             set_declarations
               (dict_update (declarations st) lemma_name_final
                  (with_added_for (Some lemma_name))) st in
           match f_original_name new_lemma_info with
           | Some o =>
               set_declarations
                 (dict_update (declarations st1) lemma_name_final
                    (with_renamed_from (Some o))) st1
           | None => st1
           end
         else st)
  end.

(** How a call of [fix_lemma] ends, with the analysis it leaves. *)
Inductive Outcome : Type :=
| Returned (st : ProofAnalysis)
| Raised (e : exn) (st : ProofAnalysis).

Definition final_state (o : Outcome) : ProofAnalysis :=
  match o with Returned st => st | Raised _ st => st end.

(** Steps 9 (from the restoring loop on) to 12 of [fix_lemma], on the
    analysis that holds the spliced code and its declarations. *)
Definition record_fix (st1 : ProofAnalysis) (lemma_name : str)
    (new_lemmas : list FixedDecl) (history : FixRecord)
    (previously_fixed : list str)
    (old_compilation_results : gmap str CompilationResult) : ProofAnalysis :=
  let st2 := restore_loop previously_fixed old_compilation_results st1 in
  (* 10 *)
  let st3 := mark_verified_loop (lemma_name :: (f_name <$> new_lemmas)) st2 in
  (* 11 *)
  let st4 :=
    if dict_mem (declarations st3) lemma_name
    then set_declarations
           (dict_update (declarations st3) lemma_name
              (with_fixed_subproblem (Some (fix_fixed_subproblem history)))) st3
    else st3 in
  (* 12 *)
  let st5 := helper_metadata_loop lemma_name new_lemmas st4 in
  _cache_subproblems st5.

(** Steps 3 to 12 of [fix_lemma], once the target has been found in the
    fixed code. *)
Definition splice (st : ProofAnalysis) (lemma_name fixed_subproblem_code : str)
    (original_subproblem : str) (previously_fixed : list str)
    (original_info : Declaration) (fixed_declarations : dict FixedDecl)
    (target_fixed_decl : FixedDecl) : ProofAnalysis :=
  (* 3 *)
  let new_decl_text := restore_keyword (type original_info) (f_text target_fixed_decl) in
  (* 4 *)
  let '(new_lemmas, name_mappings, _) :=
    new_lemma_loop lemma_name fixed_declarations [] []
      (list_to_set (keys (declarations st))) in
  let new_lemmas := sorted_by f_start_line new_lemmas in
  (* 5 *)
  let new_lemmas :=
    (λ lemma_info, with_text (rename_all name_mappings (f_text lemma_info)) lemma_info)
      <$> new_lemmas in
  let new_decl_text := rename_all name_mappings new_decl_text in
  (* 6 *)
  let replacement_parts :=
    ((λ info, helper_text (f_text info)) <$> new_lemmas) ++ [new_decl_text] in
  let replacement_text := join (nl ++ nl) replacement_parts in
  (* 7 *)
  let start_line_idx := start_line original_info - 1 in
  let end_line_idx := end_line original_info in
  let new_lines :=
    take start_line_idx (lines st) ++ split_lines replacement_text
    ++ drop end_line_idx (lines st) in
  let new_code := join nl new_lines in
  (* 8 *)
  let history :=
    if is_empty name_mappings
    then {| fix_original_subproblem := original_subproblem;
            fix_fixed_subproblem := fixed_subproblem_code;
            renamings := None |}
    else {| fix_original_subproblem := original_subproblem;
            fix_fixed_subproblem := rename_all name_mappings fixed_subproblem_code;
            renamings := Some name_mappings |} in
  (* 9 *)
  let st1 :=
    {| code := new_code; _original_code := _original_code st;
       lines := split_lines new_code;
       compilation_scheduler := compilation_scheduler st;
       fix_history := <[lemma_name := history]> (fix_history st);
       header := header st;
       declarations := _extract_declarations (split_lines new_code);
       lemma_compilation_results := lemma_compilation_results st;
       error_declarations := error_declarations st;
       _verification_done := _verification_done st |} in
  record_fix st1 lemma_name new_lemmas history previously_fixed
    (lemma_compilation_results st).

Definition fix_lemma (st : ProofAnalysis) (lemma_name fixed_subproblem_code : str)
    : Outcome :=
  match dict_get (declarations st) lemma_name with
  | None => Returned st
  | Some original_info =>
      (* original_subproblem, _ = ...get('original_subproblem') *)
      match original_subproblem original_info with
      | None => Raised (TypeError (lit "cannot unpack non-iterable NoneType object")) st
      | Some (cached, _) =>
          match (if is_empty cached
                 then match _construct_subproblem_internal st lemma_name with
                      | Ok (sub, _) => Ok sub
                      | Raise e => Raise e
                      end
                 else Ok cached) with
          | Raise e => Raised e st
          | Ok original_subproblem =>
              let previously_fixed :=
                keys (List.filter (λ '(_, info), was_fixed info) (declarations st)) in
              let fixed_declarations := parse_fixed fixed_subproblem_code in
              match dict_get fixed_declarations lemma_name with
              | None => Returned st
              | Some target_fixed_decl =>
                  Returned
                    (splice st lemma_name fixed_subproblem_code
                       original_subproblem previously_fixed original_info
                       fixed_declarations target_fixed_decl)
              end
          end
      end
  end.

(** *** Reports *)

(** [get_error_lemmas_sorted], its logging apart: nothing before
    verification; then the lemmas and theorems are listed in the order of
    their lines, and the names of those in [error_declarations] are
    returned sorted. *)
Definition get_error_lemmas_sorted (st : ProofAnalysis) : list str :=
  if negb (_verification_done st) then []
  else
    let lemma_info :=
      sorted_by
        (λ x : str * Declaration,
           match dict_get (declarations st) x.1 with
           | Some d => start_line d
           | None => 0
           end)
        (List.filter (λ '(_, info), is_lemma_or_theorem (type info))
           (declarations st)) in
    sorted
      (fst <$> List.filter
                 (λ '(n, _), bool_decide (n ∈ error_declarations st))
                 lemma_info).

(** [is_proof_correct] *)
Definition is_proof_correct (st : ProofAnalysis) : bool :=
  bool_decide (error_declarations st = ∅).

(** *** Full correctness *)

(** [_get_all_dependencies(lemma_name, visited)]: the set that the call
    returns and [visited] as the call leaves it.  [order] is the order in
    which a [for] loop goes through a set, which Python leaves open.
    [fuel] bounds the depth of the recursion: a call that finds its name
    in [visited] returns at once, so the depth never exceeds the number of
    declarations. *)
Fixpoint all_dependencies_from (order : gset str → list str) (fuel : nat)
    (decls : dict Declaration) (lemma_name : str) (visited : gset str)
    : gset str * gset str :=
  match fuel with
  | 0 => (∅, visited)
  | S f =>
      match dict_get decls lemma_name with
      | None => (∅, visited)
      | Some d =>
          if bool_decide (lemma_name ∈ visited) then (∅, visited)
          else
            foldl
              (λ '(all_deps, visited) dep,
                 match dict_get decls dep with
                 | Some dep_info =>
                     if is_lemma_or_theorem (type dep_info)
                     then
                       let '(indirect_deps, visited') :=
                         all_dependencies_from order f decls dep visited in
                       (all_deps ∪ indirect_deps, visited')
                     else (all_deps, visited)
                 | None => (all_deps, visited)
                 end)
              (dependencies d, {[lemma_name]} ∪ visited)
              (order (dependencies d))
      end
  end.

Definition _get_all_dependencies (order : gset str → list str)
    (st : ProofAnalysis) (lemma_name : str) : gset str :=
  (all_dependencies_from order (S (length (declarations st)))
     (declarations st) lemma_name ∅).1.

(** The loop [for dep in all_deps: ... if not check(dep): return False]
    followed by [return True]; [None] when a check does not return. *)
Fixpoint check_all (is_target : str → bool) (check : str → option bool)
    (deps : list str) : option bool :=
  match deps with
  | [] => Some true
  | dep :: rest =>
      if is_target dep
      then match check dep with
           | Some true => check_all is_target check rest
           | Some false => Some false
           | None => None
           end
      else check_all is_target check rest
  end.

(** [is_lemma_fully_correct].  The function calls itself on the
    dependencies with nothing that bounds the depth; [fuel] is the depth
    allowed, and [None] says that the call needs more (in Python the
    recursion ends in [RecursionError] when no depth is enough). *)
Fixpoint is_lemma_fully_correct (order : gset str → list str) (fuel : nat)
    (st : ProofAnalysis) (lemma_name : str) : option bool :=
  match fuel with
  | 0 => None
  | S f =>
      if negb (dict_mem (declarations st) lemma_name) then Some false
      else if negb (_verification_done st) then Some false
      else
        match lemma_compilation_results st !! lemma_name with
        | None => Some false
        | Some r =>
            if negb (get_complete r) then Some false
            else
              check_all (is_target st) (is_lemma_fully_correct order f st)
                (order (_get_all_dependencies order st lemma_name))
        end
  end.

(** An entry of the list that [get_fully_correct_lemmas] returns. *)
Record CorrectLemma := {
  c_name : str;
  c_type : DeclType;
  c_statement : str;
  c_dependencies : gset str;
  c_direct_dependencies : gset str;
  c_compilation_result : option CompilationResult
}.

(** The loop of [get_fully_correct_lemmas] over [declarations.items()]. *)
Fixpoint fully_correct_loop (order : gset str → list str) (fuel : nat)
    (st : ProofAnalysis) (items : list (str * Declaration))
    : option (list CorrectLemma) :=
  match items with
  | [] => Some []
  | (n, info) :: rest =>
      if is_lemma_or_theorem (type info) && has_proof info
      then
        match is_lemma_fully_correct order fuel st n with
        | None => None
        | Some true =>
            cons {| c_name := n; c_type := type info;
                    c_statement := full_text info;
                    c_dependencies := _get_all_dependencies order st n;
                    c_direct_dependencies := dependencies info;
                    c_compilation_result := lemma_compilation_results st !! n |}
              <$> fully_correct_loop order fuel st rest
        | Some false => fully_correct_loop order fuel st rest
        end
      else fully_correct_loop order fuel st rest
  end.

(** [get_fully_correct_lemmas] *)
Definition get_fully_correct_lemmas (order : gset str → list str) (fuel : nat)
    (st : ProofAnalysis) : option (list CorrectLemma) :=
  if negb (_verification_done st) then Some []
  else fully_correct_loop order fuel st (declarations st).

End Analysis.

(** * Theorems *)

(** ** The inference scheduler: dispatch order *)

Section SchedulerOrder.
Import Py Scheduler.

(** The invariant of a scheduler: the waiting entries carry distinct
    counts, all below the counter. *)
Definition wf (s : InferenceSchedulerService) : Prop :=
  NoDup (count <$> _queue s)
  ∧ Forall (λ e, count e < _task_counter s) (_queue s).

(** [x] stands before [y] in [l]. *)
Definition before (x y : nat) (l : list nat) : Prop :=
  ∃ l1 l2 l3, l = l1 ++ x :: l2 ++ y :: l3.

Lemma entry_lt_spec a b :
  entry_lt a b = true ↔
  (priority a < priority b)%Z ∨ (priority a = priority b ∧ count a < count b).
Proof.
  unfold entry_lt.
  rewrite orb_true_iff, andb_true_iff, Z.ltb_lt, Z.eqb_eq, Nat.ltb_lt. done.
Qed.

Lemma entry_lt_false a b :
  entry_lt a b = false ↔
  ¬ ((priority a < priority b)%Z ∨ (priority a = priority b ∧ count a < count b)).
Proof. rewrite <- entry_lt_spec. destruct (entry_lt a b); naive_solver. Qed.

Lemma entry_lt_irrefl a : entry_lt a a = false.
Proof. apply entry_lt_false. lia. Qed.

Lemma entry_lt_trans a b c :
  entry_lt a b = true → entry_lt b c = true → entry_lt a c = true.
Proof. rewrite !entry_lt_spec. lia. Qed.

(** If [a] is below [c], any [b] is above [a] or below [c]. *)
Lemma entry_lt_between a b c :
  entry_lt a c = true → entry_lt a b = true ∨ entry_lt b c = true.
Proof. rewrite !entry_lt_spec. lia. Qed.

Lemma lowest_in x q : lowest x q ∈ x :: q.
Proof.
  revert x. induction q as [|z q IH]; intros x; simpl.
  - apply list_elem_of_singleton. done.
  - specialize (IH (if entry_lt z x then z else x)).
    apply elem_of_cons in IH as [IH|IH].
    + rewrite IH. destruct (entry_lt z x).
      * apply elem_of_cons. right. apply elem_of_cons. by left.
      * apply elem_of_cons. by left.
    + apply elem_of_cons. right. apply elem_of_cons. by right.
Qed.

(** No waiting entry is below the one that [get] returns. *)
Lemma lowest_least x q y : y ∈ x :: q → entry_lt y (lowest x q) = false.
Proof.
  revert x y. induction q as [|z q IH]; intros x y Hy; simpl.
  - apply list_elem_of_singleton in Hy as ->. apply entry_lt_irrefl.
  - set (m := if entry_lt z x then z else x).
    assert (Hm : entry_lt m (lowest m q) = false)
      by (apply IH, elem_of_cons; by left).
    assert (Hcases : y = x ∨ y = z ∨ y ∈ q).
    { apply elem_of_cons in Hy as [Hy|Hy]; [by left|].
      apply elem_of_cons in Hy as [Hy|Hy]; [right; by left|right; by right]. }
    destruct (entry_lt y (lowest m q)) eqn:E; [exfalso|done].
    destruct Hcases as [->|[->|Hq]].
    + subst m. destruct (entry_lt z x) eqn:Ezx; [|congruence].
      pose proof (entry_lt_trans _ _ _ Ezx E). congruence.
    + subst m. destruct (entry_lt z x) eqn:Ezx; [congruence|].
      destruct (entry_lt_between _ x _ E); congruence.
    + rewrite IH in E; [done|]. apply elem_of_cons. by right.
Qed.

Lemma remove_count_other n q e :
  e ∈ q → count e ≠ n → e ∈ remove_count n q.
Proof.
  induction q as [|x q IH]; simpl; intros He Hn; [done|].
  apply elem_of_cons in He as [->|He].
  - apply Nat.eqb_neq in Hn. rewrite Hn. apply elem_of_cons. by left.
  - destruct (count x =? n); [done|]. apply elem_of_cons. right. auto.
Qed.

Lemma remove_count_subset n q e : e ∈ remove_count n q → e ∈ q.
Proof.
  induction q as [|x q IH]; simpl; [done|].
  destruct (count x =? n); intros He.
  - apply elem_of_cons. by right.
  - apply elem_of_cons in He as [->|He]; apply elem_of_cons; auto.
Qed.

Lemma remove_count_NoDup n q :
  NoDup (count <$> q) → NoDup (count <$> remove_count n q).
Proof.
  induction q as [|x q IH]; simpl; [done|].
  rewrite NoDup_cons. intros [Hx Hq].
  destruct (count x =? n); [done|].
  simpl. apply NoDup_cons. split; [|auto].
  intros Hin. apply Hx.
  apply list_elem_of_fmap in Hin as (y & Hy & Hin).
  apply list_elem_of_fmap. exists y. split; [done|].
  by eapply remove_count_subset.
Qed.

(** Two waiting entries with one count are one entry. *)
Lemma same_count q a b :
  NoDup (count <$> q) → a ∈ q → b ∈ q → count a = count b → a = b.
Proof.
  induction q as [|x q IH]; simpl; [by intros _ ?%elem_of_nil|].
  rewrite NoDup_cons. intros [Hx Hq] Ha Hb Hc.
  apply elem_of_cons in Ha as [->|Ha]; apply elem_of_cons in Hb as [->|Hb]; auto.
  - exfalso. apply Hx. rewrite Hc. by apply list_elem_of_fmap_2.
  - exfalso. apply Hx. rewrite <- Hc. by apply list_elem_of_fmap_2.
Qed.

Lemma queue_get_spec q e q' :
  queue_get q = Some (e, q') →
  e ∈ q ∧ q' = remove_count (count e) q ∧ ∀ y, y ∈ q → entry_lt y e = false.
Proof.
  unfold queue_get. destruct q as [|x q]; [done|].
  intros [= <- <-]. split_and!; [apply lowest_in|done|apply lowest_least].
Qed.

Lemma wf_init : wf init.
Proof. split; simpl; constructor. Qed.

Lemma wf_act s a : wf s → wf (act s a).
Proof.
  intros [Hnd Hlt]. destruct a as [p m prio extra|n| |n http]; simpl.
  - split; simpl; unfold queue_put.
    + rewrite fmap_app. apply NoDup_app. split; [done|]. split.
      * intros x Hx Hx'. apply list_elem_of_singleton in Hx'. simpl in Hx'. subst x.
        apply list_elem_of_fmap in Hx as (y & Hy & Hin).
        rewrite Forall_forall in Hlt. specialize (Hlt y Hin). simpl in Hlt. lia.
      * apply NoDup_singleton.
    + apply Forall_app. split.
      * eapply Forall_impl; [exact Hlt|]. simpl. intros; lia.
      * constructor; [simpl; lia|constructor].
  - split; simpl; done.
  - unfold worker_get.
    destruct (queue_get (_queue s)) as [[e q']|] eqn:Eg; [|done].
    apply queue_get_spec in Eg as (He & -> & _).
    split; cbn [_queue _task_counter].
    + by apply remove_count_NoDup.
    + rewrite Forall_forall in Hlt |- *. intros b Hb.
      apply Hlt. by eapply remove_count_subset.
  - unfold worker_finish.
    destruct (List.find _ _); [|done]. split; simpl; done.
Qed.

Lemma wf_run s l : wf s → wf (run s l).
Proof.
  revert s. induction l as [|a l IH]; intros s Hs; simpl; [done|].
  apply IH, wf_act, Hs.
Qed.

(** One worker turn: the entry it takes is below every entry it leaves. *)
Lemma worker_get_lowest s e q' :
  wf s → queue_get (_queue s) = Some (e, q') →
  e ∈ _queue s ∧ ∀ b, b ∈ q' → entry_lt e b = true.
Proof.
  intros [Hnd _] (Hmin & -> & Hleast)%queue_get_spec. split; [done|].
  intros b Hb.
  assert (Hbq : b ∈ _queue s) by (by eapply remove_count_subset).
  pose proof (Hleast b Hbq) as Hle.
  destruct (decide (count b = count e)) as [Hc|Hc].
  - (* b would be the entry removed *)
    pose proof (same_count _ _ _ Hnd Hbq Hmin Hc) as ->.
    exfalso. clear Hle Hbq Hc Hleast.
    revert Hb Hnd Hmin. generalize e as m. generalize (_queue s) as l.
    induction l as [|y l IH]; simpl; intros m Hb Hnd Hm; [by apply elem_of_nil in Hb|].
    apply NoDup_cons in Hnd as [Hy Hl].
    destruct (count y =? count m) eqn:E.
    + apply Nat.eqb_eq in E. apply Hy. rewrite E. by apply list_elem_of_fmap_2.
    + apply elem_of_cons in Hb as [->|Hb]; [rewrite Nat.eqb_refl in E; done|].
      apply elem_of_cons in Hm as [->|Hm]; [rewrite Nat.eqb_refl in E; done|].
      eauto.
  - apply entry_lt_false in Hle. apply entry_lt_spec. lia.
Qed.

(** The state of two waiting tasks [a] below [b] along a run: both wait;
    or [a] has been taken and [b] waits; or both have been taken, [a]
    first. *)
Definition progress (a b : Entry) (s : InferenceSchedulerService) : Prop :=
  (a ∈ _queue s ∧ b ∈ _queue s ∧ count b ∉ dispatched s)
  ∨ (count a ∈ dispatched s ∧ b ∈ _queue s ∧ count b ∉ dispatched s)
  ∨ before (count a) (count b) (dispatched s).

Lemma before_app x y l k : before x y l → before x y (l ++ k).
Proof.
  intros (l1 & l2 & l3 & ->). exists l1, l2, (l3 ++ k).
  rewrite <- app_assoc. simpl. rewrite <- app_assoc. done.
Qed.

Lemma before_snoc x y l : x ∈ l → before x y (l ++ [y]).
Proof.
  intros (l1 & l2 & ->)%list_elem_of_split. exists l1, l2, [].
  rewrite <- app_assoc. done.
Qed.

Lemma progress_act a b s act0 :
  wf s → entry_lt a b = true → count a < _task_counter s →
  count b < _task_counter s →
  progress a b s → progress a b (act s act0).
Proof.
  intros Hwf Hab Hca Hcb Hp.
  destruct act0 as [p m prio extra|n| |n http]; simpl.
  - unfold progress, inference, queue_put; cbn [_queue dispatched].
    destruct Hp as [(Ha & Hb & Hnb)|[(Ha & Hb & Hnb)|Hbe]].
    + left. rewrite !elem_of_app. auto.
    + right; left. rewrite !elem_of_app. auto.
    + right; right. done.
  - done.
  - unfold worker_get. destruct (queue_get (_queue s)) as [[e q']|] eqn:Eg; [|done].
    pose proof (worker_get_lowest _ _ _ Hwf Eg) as [He Hlow].
    assert (Hq' : q' = remove_count (count e) (_queue s))
      by (by apply queue_get_spec in Eg as (_ & -> & _)).
    destruct Hwf as [Hnd _].
    unfold progress; cbn [_queue dispatched].
    destruct Hp as [(Ha & Hb & Hnb)|[(Ha & Hb & Hnb)|Hbe]].
    + destruct (decide (count e = count b)) as [Heb|Heb].
      { (* b cannot be the lowest: a is below it *)
        pose proof (same_count _ _ _ Hnd He Hb Heb) as ->.
        destruct (decide (count a = count b)) as [Hc|Hc].
        - pose proof (same_count _ _ _ Hnd Ha Hb Hc) as ->.
          rewrite entry_lt_irrefl in Hab. done.
        - assert (Ha' : a ∈ q') by (subst q'; by apply remove_count_other).
          specialize (Hlow a Ha').
          apply entry_lt_spec in Hlow. apply entry_lt_spec in Hab. lia. }
      assert (Hb' : b ∈ q') by (subst q'; apply remove_count_other; [done|lia]).
      assert (Hnb' : count b ∉ dispatched s ++ [count e]).
      { rewrite elem_of_app, list_elem_of_singleton. intros [?|?]; [done|lia]. }
      destruct (decide (count e = count a)) as [Hea|Hea].
      * right; left. split_and!; [|done|done].
        rewrite elem_of_app, list_elem_of_singleton. right. lia.
      * left. split_and!; [|done|done].
        subst q'. apply remove_count_other; [done|lia].
    + destruct (decide (count e = count b)) as [Heb|Heb].
      * right; right. rewrite Heb. by apply before_snoc.
      * right; left. split_and!.
        -- rewrite elem_of_app. by left.
        -- subst q'. apply remove_count_other; [done|lia].
        -- rewrite elem_of_app, list_elem_of_singleton. intros [?|?]; [done|lia].
    + right; right. by apply before_app.
  - unfold worker_finish. destruct (List.find _ _); done.
Qed.

Lemma counter_act s a : _task_counter s ≤ _task_counter (act s a).
Proof.
  destruct a; simpl; try lia.
  - unfold worker_get. destruct (queue_get _) as [[??]|]; simpl; lia.
  - unfold worker_finish. destruct (List.find _ _); simpl; lia.
Qed.

Lemma progress_run a b s l :
  wf s → entry_lt a b = true → count a < _task_counter s →
  count b < _task_counter s →
  progress a b s → progress a b (run s l).
Proof.
  revert s. induction l as [|x l IH]; intros s Hwf Hab Hca Hcb Hp; simpl; [done|].
  pose proof (counter_act s x).
  apply IH; [by apply wf_act|done|lia|lia|by apply progress_act].
Qed.

(** What has been dispatched is no longer waiting. *)
Definition taken_apart (s : InferenceSchedulerService) : Prop :=
  ∀ e, e ∈ _queue s → count e ∉ dispatched s.

Lemma taken_apart_act s a :
  wf s → Forall (λ n, n < _task_counter s) (dispatched s) →
  taken_apart s →
  taken_apart (act s a) ∧ Forall (λ n, n < _task_counter (act s a)) (dispatched (act s a)).
Proof.
  intros [Hnd Hlt] Hd Hta.
  destruct a as [p m prio extra|n| |n http]; simpl.
  - unfold taken_apart, inference, queue_put; cbn [_queue dispatched _task_counter].
    split.
    + intros e He. apply elem_of_app in He as [He|He]; [auto|].
      apply list_elem_of_singleton in He as ->. simpl.
      intros Hin. rewrite Forall_forall in Hd. specialize (Hd _ Hin). lia.
    + eapply Forall_impl; [exact Hd|]. simpl. intros; lia.
  - done.
  - unfold worker_get. destruct (queue_get (_queue s)) as [[e q']|] eqn:Eg; [|done].
    pose proof (worker_get_lowest _ _ _ (conj Hnd Hlt) Eg) as [He Hlow].
    unfold taken_apart; cbn [_queue dispatched _task_counter]. split.
    + intros b Hb. rewrite elem_of_app, list_elem_of_singleton.
      assert (Hbq : b ∈ _queue s).
      { apply queue_get_spec in Eg as (_ & -> & _).
        by eapply remove_count_subset. }
      intros [Hin|Hc].
      * by apply (Hta b).
      * pose proof (same_count _ _ _ Hnd Hbq He Hc) as ->.
        specialize (Hlow e Hb). rewrite entry_lt_irrefl in Hlow. done.
    + apply Forall_app. split; [done|]. constructor; [|constructor].
      rewrite Forall_forall in Hlt. by apply Hlt.
  - unfold worker_finish. destruct (List.find _ _); done.
Qed.

Lemma taken_apart_run l :
  taken_apart (run init l)
  ∧ Forall (λ n, n < _task_counter (run init l)) (dispatched (run init l)).
Proof.
  assert (H : ∀ s, wf s → Forall (λ n, n < _task_counter s) (dispatched s) →
              taken_apart s →
              taken_apart (run s l)
              ∧ Forall (λ n, n < _task_counter (run s l)) (dispatched (run s l))).
  { induction l as [|a l IH]; intros s Hwf Hd Hta; simpl; [done|].
    destruct (taken_apart_act s a Hwf Hd Hta) as [H1 H2].
    apply IH; [by apply wf_act|done|done]. }
  apply H; [apply wf_init|constructor|].
  intros e He. simpl in He. by apply elem_of_nil in He.
Qed.

(** C3. Two tasks [a] and [b] wait in the queue of a scheduler that has run
    any sequence of submissions, cancellations and worker turns, and [a]
    comes first in the order of the queue: its priority number is strictly
    smaller, or the priorities are equal and [a] was submitted earlier (its
    submission count is smaller).  Then, however the scheduler runs on,
    [b] is dispatched only after [a]. *)
Theorem priority_then_fifo_dispatch (l1 l2 : list Action) (a b : Entry) :
  let s := run init l1 in
  a ∈ _queue s → b ∈ _queue s →
  ((priority a < priority b)%Z
   ∨ (priority a = priority b ∧ count a < count b)) →
  count b ∈ dispatched (run s l2) →
  before (count a) (count b) (dispatched (run s l2)).
Proof.
  intros s Ha Hb Hlt Hd.
  assert (Hwf : wf s) by apply wf_run, wf_init.
  destruct (taken_apart_run l1) as [Hta _]. fold s in Hta.
  assert (Hp : progress a b s).
  { left. split_and!; [done|done|by apply Hta]. }
  pose proof Hwf as [Hnd Hc]. rewrite Forall_forall in Hc.
  apply (progress_run a b s l2) in Hp;
    [|done|by apply entry_lt_spec|by apply Hc|by apply Hc].
  destruct Hp as [(_ & _ & Hn)|[(_ & _ & Hn)|Hbe]]; [done|done|done].
Qed.

(** The run of the theorem above on two submissions at priorities 32 and 0,
    taken by two worker turns: the later, more urgent task goes first. *)
Lemma priority_then_fifo_dispatch_witness :
  let l1 := [Submit (PromptStr (lit "p")) (lit "m") 32 [];
             Submit (PromptStr (lit "q")) (lit "m") 0 []] in
  let a := {| priority := 0; count := 1;
              task_data := {| prompt := PromptStr (lit "q"); model := lit "m";
                              extra_params := [] |} |} in
  let b := {| priority := 32; count := 0;
              task_data := {| prompt := PromptStr (lit "p"); model := lit "m";
                              extra_params := [] |} |} in
  before (count a) (count b) (dispatched (run (run init l1) [Take; Take])).
Proof.
  intros l1 a b.
  apply (priority_then_fifo_dispatch l1 [Take; Take] a b).
  - vm_compute. apply elem_of_cons. right. apply elem_of_cons. by left.
  - vm_compute. apply elem_of_cons. by left.
  - left. simpl. lia.
  - vm_compute. apply elem_of_cons. right. apply elem_of_cons. by left.
Defined.

End SchedulerOrder.

(** ** The inference scheduler: transport errors *)

Section SchedulerErrors.
Import Py Scheduler.

(** With [stop_after_attempt(n)] for [n ≤ 1], the first outcome decides:
    one call is made. *)
Lemma retry_single_attempt {A} (n : nat) (retry_if : exn → bool)
    (call : nat → result A) :
  n ≤ 1 →
  retry n retry_if call =
    (match call 1 with
     | Ok v => Ok v
     | Raise e => if retry_if e then Raise (RetryError e) else Raise e
     end, 1).
Proof.
  intros Hn. unfold retry.
  destruct n as [|[|n]]; [| |lia]; simpl;
    destruct (call 1) as [v|e]; try done; by destruct (retry_if e).
Qed.

(** C7, as the claim states it, fails: the exception that reaches the
    future of a task whose HTTP call raised a transport error is not that
    error but tenacity's [RetryError] around it. *)
Lemma transport_error_is_wrapped :
  let td := {| prompt := PromptStr (lit "prove it"); model := lit "prover";
               extra_params := [] |} in
  let http := λ _ : nat, Transport (lit "connection refused") in
  settle Pending (fst (_make_api_call td http))
  = Exception (RetryError (RequestError (lit "connection refused")))
  ∧ Exception (RetryError (RequestError (lit "connection refused")))
    ≠ Exception (RequestError (lit "connection refused")).
Proof. split; [reflexivity|discriminate]. Qed.

(** What the worker that holds a task leaves in the future of the task
    when [_make_api_call] raises: the exception, unless the future is done
    already. *)
Lemma worker_finish_exception (s : InferenceSchedulerService) (n : nat)
    (e : Entry) (http : nat → HttpOutcome) (ex : exn) :
  List.find (λ x, count x =? n) (running s) = Some e →
  fst (_make_api_call (task_data e) http) = Raise ex →
  futures (worker_finish s n http) !! n
  = Some (match default Pending (futures s !! n) with
          | Pending => Exception ex
          | f => f
          end).
Proof.
  intros Hrun Hcall. unfold worker_finish. rewrite Hrun. cbn [futures].
  rewrite lookup_insert_eq, Hcall. simpl.
  by destruct (default Pending (futures s !! n)).
Qed.

(** The body of [_make_api_call] raises a transport error only when the
    HTTP exchange does. *)
Lemma api_call_body_request_error (td : TaskData) (h : HttpOutcome) (ex : exn) :
  api_call_body td h = Raise ex → is_request_error ex = true →
  ∃ msg, h = Transport msg ∧ ex = RequestError msg.
Proof.
  unfold api_call_body. intros Hbody Hex.
  assert (∀ status (body : option json),
            (if negb ((200 <=? status) && (status <? 300))
             then Raise (HTTPStatusError status)
             else match body with
                  | None => Raise JSONDecodeError
                  | Some result =>
                      choices ← getitem result "choices";
                      choice ← getitem0 choices;
                      message ← getitem choice "message";
                      content ← getitem message "content";
                      usage ← get_method result "usage" (JObject []);
                      prompt_tokens ← get_method usage "prompt_tokens" (JInt 0);
                      completion_tokens ←
                        get_method usage "completion_tokens" (JInt 0);
                      total_tokens ← get_method usage "total_tokens" (JInt 0);
                      Ok {| res_content := content;
                            res_usage :=
                              {| prompt_tokens := prompt_tokens;
                                 completion_tokens := completion_tokens;
                                 total_tokens := total_tokens |} |}
                  end) = Raise ex →
            is_request_error ex = false) as Hreply.
  { intros status body.
    assert (∀ v k, getitem v k = Raise ex → is_request_error ex = false) as Hg.
    { intros v k. unfold getitem. destruct v; try by intros [= <-].
      destruct (lookup_field (lit k) fields); [done|by intros [= <-]]. }
    assert (∀ v, getitem0 v = Raise ex → is_request_error ex = false) as Hg0.
    { intros v. unfold getitem0.
      destruct v as [| | | |[|c t]|[|x t]|]; try done; by intros [= <-]. }
    assert (∀ v k d, get_method v k d = Raise ex → is_request_error ex = false)
      as Hm.
    { intros v k d. unfold get_method. destruct v; try done; by intros [= <-]. }
    destruct (negb ((200 <=? status) && (status <? 300))); [by intros [= <-]|].
    destruct body as [result|]; [|by intros [= <-]].
    unfold mbind, result_bind.
    destruct (getitem result "choices") as [choices|?] eqn:E1;
      [|intros [= ->]; by eapply Hg].
    destruct (getitem0 choices) as [choice|?] eqn:E2;
      [|intros [= ->]; by eapply Hg0].
    destruct (getitem choice "message") as [message|?] eqn:E3;
      [|intros [= ->]; by eapply Hg].
    destruct (getitem message "content") as [content|?] eqn:E4;
      [|intros [= ->]; by eapply Hg].
    destruct (get_method result "usage" (JObject [])) as [usage|?] eqn:E5;
      [|intros [= ->]; by eapply Hm].
    destruct (get_method usage "prompt_tokens" (JInt 0)) as [?|?] eqn:E6;
      [|intros [= ->]; by eapply Hm].
    destruct (get_method usage "completion_tokens" (JInt 0)) as [?|?] eqn:E7;
      [|intros [= ->]; by eapply Hm].
    destruct (get_method usage "total_tokens" (JInt 0)) as [?|?] eqn:E8;
      [|intros [= ->]; by eapply Hm].
    done. }
  destruct h as [msg|status body].
  - destruct (prompt td); injection Hbody as <-; try done; by exists msg.
  - destruct (prompt td);
      [apply Hreply in Hbody; congruence..|injection Hbody as <-; done].
Qed.

(** C7, amended.  A worker holds an inference task.  When the HTTP call of
    the task raises a transport error, [_make_api_call] makes that one call
    and no other, and raises tenacity's [RetryError] holding the transport
    error; the worker sets this exception on the task's future unless the
    future is done already, in which case the future is left as it is; the
    compilation scheduler's [_make_api_call] treats a transport error the
    same way.  Every other exception that the call raises (it is a
    transport error only when the HTTP exchange raised one) is raised
    unchanged after the same single call, and it is that exception that
    the worker sets on the future. *)
Theorem transport_error_single_attempt_wrapped
    (s : InferenceSchedulerService) (n : nat) (e : Entry)
    (http : nat → HttpOutcome) :
  List.find (λ x, count x =? n) (running s) = Some e →
  (∀ msg, prompt (task_data e) ≠ PromptOther → http 1 = Transport msg →
     _make_api_call (task_data e) http
     = (Raise (RetryError (RequestError msg)), 1)
     ∧ futures (worker_finish s n http) !! n
       = Some (match default Pending (futures s !! n) with
               | Pending => Exception (RetryError (RequestError msg))
               | f => f
               end)
     ∧ compile_make_api_call http
       = (Raise (RetryError (RequestError msg)), 1))
  ∧ (∀ ex, api_call_body (task_data e) (http 1) = Raise ex →
       (is_request_error ex = true →
        ∃ msg, http 1 = Transport msg ∧ ex = RequestError msg)
       ∧ (is_request_error ex = false →
          _make_api_call (task_data e) http = (Raise ex, 1)
          ∧ futures (worker_finish s n http) !! n
            = Some (match default Pending (futures s !! n) with
                    | Pending => Exception ex
                    | f => f
                    end))).
Proof.
  intros Hrun. split.
  - intros msg Hprompt Hhttp.
    assert (Hcall : _make_api_call (task_data e) http
                    = (Raise (RetryError (RequestError msg)), 1)).
    { unfold _make_api_call. rewrite retry_single_attempt by lia.
      unfold api_call_body. rewrite Hhttp.
      destruct (prompt (task_data e)); done. }
    split_and!; [done| |].
    + apply (worker_finish_exception s n e http _ Hrun). by rewrite Hcall.
    + unfold compile_make_api_call. rewrite retry_single_attempt by lia.
      unfold compile_call_body. by rewrite Hhttp.
  - intros ex Hbody.
    split; [exact (api_call_body_request_error _ _ _ Hbody)|].
    intros Hex.
    assert (Hcall : _make_api_call (task_data e) http = (Raise ex, 1)).
    { unfold _make_api_call. rewrite retry_single_attempt by lia.
      by rewrite Hbody, Hex. }
    split; [done|].
    apply (worker_finish_exception s n e http _ Hrun). by rewrite Hcall.
Qed.

(** The theorem above on a scheduler with one task, submitted and taken by
    a worker, whose call meets a refused connection, a reply with status
    503, and a reply whose list of choices is empty. *)
Lemma transport_error_single_attempt_wrapped_witness :
  let td := {| prompt := PromptStr (lit "prove it"); model := lit "prover";
               extra_params := [] |} in
  let s := run init [Submit (prompt td) (model td) 32 []; Take] in
  let refused := λ _ : nat, Transport (lit "connection refused") in
  let unavailable := λ _ : nat, Response 503 None in
  let no_choice :=
    λ _ : nat, Response 200 (Some (JObject [(lit "choices", JArray [])])) in
  futures (worker_finish s 0 refused) !! 0
  = Some (Exception (RetryError (RequestError (lit "connection refused"))))
  ∧ futures (worker_finish s 0 unavailable) !! 0
    = Some (Exception (HTTPStatusError 503))
  ∧ futures (worker_finish s 0 no_choice) !! 0
    = Some (Exception IndexError).
Proof.
  intros td s refused unavailable no_choice.
  assert (List.find (λ x, count x =? 0) (running s)
          = Some {| priority := 32; count := 0; task_data := td |})
    as Hrun by reflexivity.
  split_and!.
  - destruct (transport_error_single_attempt_wrapped s 0 _ refused Hrun)
      as [Ht _].
    destruct (Ht (lit "connection refused")) as (_ & Hf & _);
      [discriminate|reflexivity|].
    rewrite Hf. reflexivity.
  - destruct (transport_error_single_attempt_wrapped s 0 _ unavailable Hrun)
      as [_ Ho].
    destruct (Ho (HTTPStatusError 503)) as [_ Hf]; [reflexivity|].
    destruct Hf as [_ Hf]; [reflexivity|]. rewrite Hf. reflexivity.
  - destruct (transport_error_single_attempt_wrapped s 0 _ no_choice Hrun)
      as [_ Ho].
    destruct (Ho IndexError) as [_ Hf]; [reflexivity|].
    destruct Hf as [_ Hf]; [reflexivity|]. rewrite Hf. reflexivity.
Defined.

End SchedulerErrors.

(** ** The compilation pool: results *)

Section CompilationResults.
Import Py CompilerPool.

(** C6.  Every result that [verify_lean4_file] produces has [pass] and
    [complete] set; [pass] is true exactly when the result holds an empty
    list of errors, and [complete] is true exactly when it holds an empty
    list of errors and an empty list of sorries.  So a complete result has
    passed and holds no error and no sorry.  (A result of the failure path
    holds no list of errors at all, and has neither passed nor completed.) *)
Theorem verify_lean4_file_pass_complete (out : ReplOutcome) :
  let r := verify_lean4_file out in
  is_Some (pass r) ∧ is_Some (complete r)
  ∧ (pass r = Some true ↔ errors r = Some [])
  ∧ (complete r = Some true ↔ errors r = Some [] ∧ sorries r = Some [])
  ∧ (complete r = Some true →
     pass r = Some true ∧ errors r = Some [] ∧ sorries r = Some []).
Proof.
  destruct out as [reply|tb]; simpl.
  - set (errs := List.filter is_error (default [] (messages reply))).
    set (srs := default [] (reply_sorries reply)).
    split_and!; [by eexists|by eexists| | |].
    + destruct errs; simpl; intuition congruence.
    + destruct errs, srs; simpl; intuition congruence.
    + destruct errs, srs; simpl; intuition congruence.
  - split_and!; [by eexists|by eexists| | |]; intuition congruence.
Qed.

End CompilationResults.

(** ** Python dicts *)

Section DictFacts.
Import Py Analysis.
Context {V : Type}.
Implicit Types (d : dict V) (k : str) (v : V).

Lemma dict_get_set d k v k' :
  dict_get (dict_set d k v) k' = if decide (k = k') then Some v else dict_get d k'.
Proof.
  induction d as [|[k0 v0] d IH]; simpl.
  - destruct (decide (k = k')); done.
  - destruct (decide (k0 = k)) as [->|Hne]; simpl.
    + destruct (decide (k = k')); done.
    + destruct (decide (k0 = k')) as [->|Hne'].
      * destruct (decide (k = k')); congruence.
      * done.
Qed.

Lemma dict_get_update d k f k' :
  dict_get (dict_update d k f) k'
  = if decide (k = k') then f <$> dict_get d k else dict_get d k'.
Proof.
  induction d as [|[k0 v0] d IH]; simpl.
  - destruct (decide (k = k')); done.
  - destruct (decide (k0 = k)) as [->|Hne]; simpl.
    + destruct (decide (k = k')); done.
    + destruct (decide (k0 = k')) as [->|Hne'].
      * destruct (decide (k = k')); congruence.
      * done.
Qed.

Lemma keys_dict_update d k f : keys (dict_update d k f) = keys d.
Proof.
  unfold keys. induction d as [|[k0 v0] d IH]; csimpl; [done|].
  destruct (decide (k0 = k)); csimpl; [done|]. by rewrite IH.
Qed.

Lemma dict_get_None d k : dict_get d k = None ↔ k ∉ keys d.
Proof.
  unfold keys. induction d as [|[k0 v0] d IH]; csimpl.
  - split; [intros _; apply not_elem_of_nil|done].
  - destruct (decide (k0 = k)) as [->|Hne].
    + split; [done|]. intros H. exfalso. apply H. apply elem_of_cons. by left.
    + rewrite IH, not_elem_of_cons. intuition congruence.
Qed.

Lemma dict_mem_keys d k : dict_mem d k = true ↔ k ∈ keys d.
Proof.
  unfold dict_mem. destruct (dict_get d k) eqn:E.
  - split; [|done]. intros _.
    destruct (decide (k ∈ keys d)) as [|Hn]; [done|].
    apply dict_get_None in Hn. congruence.
  - split; [done|]. intros Hin. apply dict_get_None in E. done.
Qed.

Lemma keys_dict_set d k v :
  keys (dict_set d k v) = if dict_mem d k then keys d else keys d ++ [k].
Proof.
  unfold keys, dict_mem. induction d as [|[k0 v0] d IH]; csimpl; [done|].
  destruct (decide (k0 = k)) as [->|Hne]; csimpl; [done|].
  rewrite IH. by destruct (dict_get d k).
Qed.

Lemma NoDup_keys_dict_set d k v : NoDup (keys d) → NoDup (keys (dict_set d k v)).
Proof.
  intros Hnd. rewrite keys_dict_set.
  destruct (dict_mem d k) eqn:E; [done|].
  apply NoDup_app. split_and!; [done| |apply NoDup_singleton].
  intros x Hx Hx'. apply list_elem_of_singleton in Hx' as ->.
  apply dict_mem_keys in Hx. congruence.
Qed.

Lemma dict_get_elem_of d k v : dict_get d k = Some v → (k, v) ∈ d.
Proof.
  induction d as [|[k0 v0] d IH]; simpl; [done|].
  destruct (decide (k0 = k)) as [->|Hne].
  - intros [= ->]. apply elem_of_cons. by left.
  - intros H. apply elem_of_cons. right. auto.
Qed.

Lemma elem_of_dict_get d k v : NoDup (keys d) → (k, v) ∈ d → dict_get d k = Some v.
Proof.
  unfold keys. induction d as [|[k0 v0] d IH]; csimpl; [by intros _ ?%elem_of_nil|].
  rewrite NoDup_cons. intros [Hk Hnd] Hin.
  apply elem_of_cons in Hin as [[= -> ->]|Hin].
  - by rewrite decide_True.
  - destruct (decide (k0 = k)) as [->|Hne]; [|auto].
    exfalso. apply Hk. apply list_elem_of_fmap. by exists (k, v).
Qed.

End DictFacts.

(** ** Proof analysis: what the updates keep *)

Section AnalysisFrame.
Import Py Analysis.

(** The fields of a declaration that only the extraction sets. *)
Definition core (d : Declaration) : str * DeclType * nat * nat * bool * str :=
  (name d, type d, start_line d, end_line d, has_proof d, full_text d).

(** Two tables with the same keys, in the same order, whose declarations
    agree on their cores. *)
Definition same_core (d d' : dict Declaration) : Prop :=
  Forall2 (λ x y, x.1 = y.1 ∧ core x.2 = core y.2) d d'.

(** Two analyses that differ at most in their tables. *)
Definition frame (st st' : ProofAnalysis) : Prop :=
  code st = code st' ∧ _original_code st = _original_code st'
  ∧ lines st = lines st' ∧ compilation_scheduler st = compilation_scheduler st'
  ∧ fix_history st = fix_history st' ∧ header st = header st'
  ∧ lemma_compilation_results st = lemma_compilation_results st'
  ∧ error_declarations st = error_declarations st'
  ∧ _verification_done st = _verification_done st'.

Lemma same_core_refl d : same_core d d.
Proof. apply Forall2_same_length_lookup_2; [done|]. intros i x y ? ?. by simplify_eq. Qed.

Lemma same_core_trans d1 d2 d3 : same_core d1 d2 → same_core d2 d3 → same_core d1 d3.
Proof.
  unfold same_core. intros H1 H2.
  eapply Forall2_trans; [|exact H1|exact H2].
  simpl. intros x y z [? ?] [? ?]. split; congruence.
Qed.

Lemma same_core_keys d d' : same_core d d' → keys d = keys d'.
Proof.
  unfold keys. induction 1 as [|x y d d' [Hk _] _ IH]; csimpl; [done|].
  by rewrite Hk, IH.
Qed.

Lemma same_core_get d d' k v :
  same_core d d' → dict_get d k = Some v →
  ∃ v', dict_get d' k = Some v' ∧ core v = core v'.
Proof.
  induction 1 as [|[k1 v1] [k2 v2] d d' [Hk Hc] _ IH]; simpl in *; [done|].
  subst k2. destruct (decide (k1 = k)) as [->|Hne]; [|done].
  intros [= ->]. eauto.
Qed.

Lemma same_core_get_inv d d' k v' :
  same_core d d' → dict_get d' k = Some v' →
  ∃ v, dict_get d k = Some v ∧ core v = core v'.
Proof.
  induction 1 as [|[k1 v1] [k2 v2] d d' [Hk Hc] _ IH]; simpl in *; [done|].
  subst k2. destruct (decide (k1 = k)) as [->|Hne]; [|done].
  intros [= ->]. eauto.
Qed.

Lemma same_core_update d k f :
  (∀ v, core (f v) = core v) → same_core d (dict_update d k f).
Proof.
  intros Hf. induction d as [|[k0 v0] d IH]; simpl; [constructor|].
  destruct (decide (k0 = k)).
  - constructor; [simpl; by rewrite Hf|apply same_core_refl].
  - constructor; [done|exact IH].
Qed.

Lemma frame_refl st : frame st st.
Proof. by repeat split. Qed.

Lemma frame_trans st1 st2 st3 : frame st1 st2 → frame st2 st3 → frame st1 st3.
Proof. unfold frame. intuition congruence. Qed.

Lemma frame_set_declarations d st : frame st (set_declarations d st).
Proof. by repeat split. Qed.

(** [_cache_subproblems] writes the caches and nothing else. *)
Lemma cache_loop_frame names st :
  frame st (cache_loop names st)
  ∧ same_core (declarations st) (declarations (cache_loop names st)).
Proof.
  revert st. induction names as [|n names IH]; intros st; simpl.
  - split; [apply frame_refl|apply same_core_refl].
  - set (st' := match dict_get (declarations st) n with
                | Some info => _
                | None => st
                end).
    assert (H : frame st st' ∧ same_core (declarations st) (declarations st')).
    { subst st'. destruct (dict_get (declarations st) n) as [info|];
        [|split; [apply frame_refl|apply same_core_refl]].
      destruct (is_lemma_or_theorem (type info));
        [|split; [apply frame_refl|apply same_core_refl]].
      destruct (_construct_subproblem_internal st n) as [sub|e];
        [|split; [apply frame_refl|apply same_core_refl]].
      split; [apply frame_set_declarations|]. simpl.
      by apply same_core_update. }
    destruct H as [Hf Hc]. destruct (IH st') as [Hf' Hc'].
    split; [by eapply frame_trans|by eapply same_core_trans].
Qed.

End AnalysisFrame.

(** ** Proof analysis: extraction *)

Section Extraction.
Import Py Analysis.

Lemma NoDup_keys_first_pass i lines (d : dict Declaration) :
  NoDup (keys d) → NoDup (keys (first_pass i lines d)).
Proof.
  revert i d. induction lines as [|line lines IH]; intros i d Hd; simpl; [done|].
  apply IH. destruct (match_declaration line) as [[t n]|]; [|done].
  by apply NoDup_keys_dict_set.
Qed.

Lemma NoDup_keys_write_back (d : dict Declaration) infos :
  NoDup (keys d) → NoDup (keys (write_back d infos)).
Proof.
  unfold write_back. revert d.
  induction infos as [|info infos IH]; intros d Hd; simpl; [done|].
  apply IH. by apply NoDup_keys_dict_set.
Qed.

Lemma keys_third_pass (d : dict Declaration) : keys (third_pass d) = keys d.
Proof.
  unfold third_pass. generalize (keys d) at 1 as names. intros names.
  unfold keys. induction d as [|[n info] d IH]; csimpl; [done|]. by rewrite IH.
Qed.

(** Every name has one entry in the table that the extraction builds. *)
Lemma NoDup_keys_extract lines : NoDup (keys (_extract_declarations lines)).
Proof.
  unfold _extract_declarations. rewrite keys_third_pass.
  apply NoDup_keys_write_back, NoDup_keys_first_pass. constructor.
Qed.

End Extraction.

(** ** Proof analysis: verification *)

Section Verification.
Import Py Analysis.

(** The result that [_verify_lemma_async] records for a declared name. *)
Definition recorded (compile : Compiler) (view : ProofAnalysis) (n : str)
    : CompilationResult :=
  match _construct_verification_code view n with
  | Raise (ValueError m) | Raise (TypeError m) => failed_verification m
  | Ok c =>
      match compile (lit "verify_" ++ n) c with
      | CompileRaises m => failed_verification m
      | Compiled info => default empty_result info
      end
  end.

Lemma _verify_lemma_async_spec compile view st n :
  dict_mem (declarations view) n = true →
  _verify_lemma_async compile view st n
  = (set_results (<[n := recorded compile view n]> (lemma_compilation_results st)) st,
     get_complete (recorded compile view n)).
Proof.
  intros Hmem. unfold _verify_lemma_async, recorded. rewrite Hmem. simpl.
  destruct (_construct_verification_code view n) as [c|[m|m]]; try done.
  destruct (compile _ c) as [info|m]; done.
Qed.

Lemma gather_spec compile view names st :
  Forall (λ n, dict_mem (declarations view) n = true) names →
  let '(st', results) := gather compile view names st in
  frame (set_results (lemma_compilation_results st') st) st'
  ∧ declarations st' = declarations st
  ∧ results = (λ n, inr (get_complete (recorded compile view n))) <$> names
  ∧ ∀ k, lemma_compilation_results st' !! k
         = if decide (k ∈ names) then Some (recorded compile view k)
           else lemma_compilation_results st !! k.
Proof.
  revert st. induction names as [|n names IH]; intros st Hall; cbn [gather].
  - split_and!; [by repeat split|done|done|]. intros k.
    case_decide as Hk; [by apply elem_of_nil in Hk|done].
  - apply Forall_cons in Hall as [Hn Hall].
    rewrite (_verify_lemma_async_spec _ _ _ _ Hn).
    set (st1 := set_results _ st).
    specialize (IH st1 Hall).
    destruct (gather compile view names st1) as [st2 rs].
    destruct IH as (Hf & Hd & Hr & Hl).
    split_and!.
    + unfold frame in *. simpl in *. intuition congruence.
    + by rewrite Hd.
    + csimpl. by rewrite Hr.
    + intros k. rewrite Hl. subst st1. simpl.
      destruct (decide (k ∈ names)) as [Hk|Hk].
      * rewrite decide_True; [done|]. apply elem_of_cons. by right.
      * destruct (decide (k = n)) as [->|Hne].
        -- rewrite decide_True by (apply elem_of_cons; by left).
           by rewrite lookup_insert_eq.
        -- rewrite decide_False by (rewrite elem_of_cons; intuition).
           by rewrite lookup_insert_ne.
Qed.

Lemma core_with_is_verified b v : core (with_is_verified b v) = core v.
Proof. done. Qed.

Lemma record_results_spec (names : list str) (f : str → bool) st :
  let st' := record_results (zip names ((λ n, inr (f n)) <$> names)) st in
  frame (set_errors (error_declarations st') st)
        (set_declarations (declarations st) st')
  ∧ same_core (declarations st) (declarations st')
  ∧ ∀ k, k ∈ error_declarations st'
         ↔ k ∈ error_declarations st ∨ (k ∈ names ∧ f k = false).
Proof.
  revert st. induction names as [|n names IH]; intros st; simpl.
  - split_and!; [by repeat split|apply same_core_refl|].
    intros k. rewrite elem_of_nil. intuition.
  - set (st1 := set_declarations _ st).
    set (st2 := if negb (f n) then _ else st1).
    specialize (IH st2). simpl in IH.
    destruct IH as (Hf & Hc & He).
    assert (Hc12 : same_core (declarations st) (declarations st2)).
    { subst st2 st1. destruct (negb (f n)); simpl;
        apply same_core_update, core_with_is_verified. }
    split_and!.
    + unfold frame in *. subst st2 st1.
      destruct (negb (f n)); simpl in *; intuition congruence.
    + by eapply same_core_trans.
    + intros k. rewrite He. subst st2 st1.
      destruct (f n) eqn:Efn; simpl.
      * rewrite elem_of_cons. split; [|intuition congruence].
        intros [?|[? ?]]; [by left|]. right. split; [by right|done].
      * rewrite elem_of_union, elem_of_singleton, elem_of_cons.
        split; [|intuition congruence].
        intros [[->|?]|[? ?]]; [|by left|].
        -- right. split; [by left|done].
        -- right. split; [by right|done].
Qed.

Lemma lemmas_to_verify_spec (d : dict Declaration) n :
  NoDup (keys d) →
  n ∈ lemmas_to_verify d
  ↔ ∃ info, dict_get d n = Some info
            ∧ is_lemma_or_theorem (type info) = true ∧ has_proof info = true.
Proof.
  intros Hnd. unfold lemmas_to_verify, keys.
  rewrite list_elem_of_fmap. split.
  - intros ([k info] & -> & Hin). simpl.
    apply list_elem_of_In, filter_In in Hin as [Hin Hc].
    apply list_elem_of_In in Hin. apply andb_true_iff in Hc as [? ?].
    exists info. split_and!; [|done|done]. by apply elem_of_dict_get.
  - intros (info & Hg & Ht & Hp). exists (n, info). split; [done|].
    apply list_elem_of_In, filter_In. split.
    + by apply list_elem_of_In, dict_get_elem_of.
    + by rewrite Ht, Hp.
Qed.

Lemma lemmas_to_verify_declared (d : dict Declaration) :
  Forall (λ n, dict_mem d n = true) (lemmas_to_verify d).
Proof.
  apply Forall_forall. intros n Hn. apply dict_mem_keys.
  unfold lemmas_to_verify, keys in *.
  apply list_elem_of_fmap in Hn as (x & -> & Hin).
  apply list_elem_of_fmap. exists x. split; [done|].
  apply list_elem_of_In, filter_In in Hin as [Hin _]. by apply list_elem_of_In.
Qed.

(** Without a compilation scheduler [verify_all_lemmas] returns at its
    second test: nothing is compiled, nothing is recorded, and
    verification is not done. *)
Lemma verify_all_lemmas_without_scheduler (code : str) :
  verify_all_lemmas (__init__ code None) = __init__ code None
  ∧ _verification_done (verify_all_lemmas (__init__ code None)) = false.
Proof. done. Qed.

(** C1.  An analysis is created for a code with a compilation scheduler,
    and [verify_all_lemmas] has run.  Then verification is done, and for
    every declaration [d] of the analysis: if [d] is a lemma or a theorem
    with a proof, the result recorded for it is the one its verification
    code compiled to; if it is one without a proof, no result is recorded;
    in both cases its name is in [error_declarations] exactly when [d] has
    a proof and the compilation result recorded for it is not complete (a
    result that is missing counts as not complete, as in
    [is_lemma_fully_correct]).  If [d] is a definition or an axiom, its
    name is not in [error_declarations] and no result is recorded. *)
Theorem verify_all_lemmas_error_declarations
    (code : str) (compile : Compiler) (n : str) (d : Declaration) :
  let st0 := __init__ code (Some compile) in
  let st := verify_all_lemmas st0 in
  dict_get (declarations st) n = Some d →
  _verification_done st = true
  ∧ (is_lemma_or_theorem (type d) = true →
     (has_proof d = true →
      lemma_compilation_results st !! n = Some (recorded compile st0 n))
     ∧ (has_proof d = false → lemma_compilation_results st !! n = None)
     ∧ (n ∈ error_declarations st
        ↔ has_proof d = true
          ∧ default false (get_complete <$> lemma_compilation_results st !! n)
            = false))
  ∧ (is_lemma_or_theorem (type d) = false →
     (n ∉ error_declarations st) ∧ lemma_compilation_results st !! n = None).
Proof.
  intros st0 st Hd. subst st. unfold verify_all_lemmas in *.
  assert (Hnd : NoDup (keys (declarations st0))) by apply NoDup_keys_extract.
  change (_verification_done st0) with false in *. cbn iota in *.
  change (compilation_scheduler st0) with (Some compile) in *. cbn iota in *.
  pose proof (gather_spec compile st0 (lemmas_to_verify (declarations st0)) st0
                (lemmas_to_verify_declared _)) as Hg.
  destruct (gather compile st0 (lemmas_to_verify (declarations st0)) st0)
    as [st1 results].
  destruct Hg as (Hf1 & Hd1 & -> & Hl1).
  pose proof (record_results_spec (lemmas_to_verify (declarations st0))
                (λ n, get_complete (recorded compile st0 n)) st1) as Hr.
  cbv zeta in Hr.
  set (st2 := record_results _ st1) in *.
  destruct Hr as (Hf2 & Hc2 & He2).
  unfold _cache_subproblems in *.
  set (st3 := set_verification_done true st2) in *.
  destruct (cache_loop_frame (keys (declarations st3)) st3) as [Hf3 Hc3].
  set (st := cache_loop _ st3) in *.
  assert (Hdone : _verification_done st = true).
  { by destruct Hf3 as (_ & _ & _ & _ & _ & _ & _ & _ & <-). }
  (* the declaration as the extraction made it *)
  destruct (same_core_get_inv _ _ _ _ Hc3 Hd) as (d2 & Hd2 & Hcore3).
  change (declarations st3) with (declarations st2) in Hd2.
  destruct (same_core_get_inv _ _ _ _ Hc2 Hd2) as (d0 & Hd0 & Hcore2).
  rewrite Hd1 in Hd0.
  assert (Ht : type d = type d0) by (unfold core in *; congruence).
  assert (Hp : has_proof d = has_proof d0) by (unfold core in *; congruence).
  (* the sets after the run *)
  assert (Herr : ∀ k, k ∈ error_declarations st
                      ↔ k ∈ lemmas_to_verify (declarations st0)
                        ∧ get_complete (recorded compile st0 k) = false).
  { intros k. destruct Hf3 as (_ & _ & _ & _ & _ & _ & _ & <- & _).
    change (error_declarations st3) with (error_declarations st2).
    rewrite He2.
    destruct Hf1 as (_ & _ & _ & _ & _ & _ & _ & <- & _). simpl.
    rewrite elem_of_empty. intuition. }
  assert (Hres : ∀ k, lemma_compilation_results st !! k
                      = if decide (k ∈ lemmas_to_verify (declarations st0))
                        then Some (recorded compile st0 k) else None).
  { intros k. destruct Hf3 as (_ & _ & _ & _ & _ & _ & <- & _).
    change (lemma_compilation_results st3) with (lemma_compilation_results st2).
    destruct Hf2 as (_ & _ & _ & _ & _ & _ & Hr2 & _). simpl in Hr2.
    rewrite <- Hr2, Hl1. by destruct (decide _). }
  assert (Hin : n ∈ lemmas_to_verify (declarations st0)
                ↔ is_lemma_or_theorem (type d) = true ∧ has_proof d = true).
  { rewrite (lemmas_to_verify_spec _ _ Hnd). split.
    - intros (info & Hi & Hti & Hpi). rewrite Hd0 in Hi. simplify_eq.
      split; congruence.
    - intros [? ?]. exists d0. split_and!; [done|congruence|congruence]. }
  split_and!.
  - done.
  - intros Hlt. split_and!.
    + intros Hhp. rewrite Hres, decide_True; [done|]. by apply Hin.
    + intros Hhp. rewrite Hres, decide_False; [done|].
      intros [_ ?]%Hin. congruence.
    + rewrite Herr, Hres. split.
      * intros [Hn Hc]. pose proof Hn as [_ Hhp]%Hin. split; [done|].
        rewrite decide_True by done. simpl. done.
      * intros [Hhp Hc].
        assert (Hn : n ∈ lemmas_to_verify (declarations st0)) by (by apply Hin).
        split; [done|]. rewrite decide_True in Hc by done. simpl in Hc. done.
  - intros Hlt. split.
    + rewrite Herr. intros [[? _]%Hin _]. congruence.
    + rewrite Hres, decide_False; [done|]. intros [? _]%Hin. congruence.
Qed.

(** A file with a definition, an axiom, two lemmas and a theorem. *)
Definition example_code : str :=
  lit "import Mathlib" ++ nl ++ nl
  ++ lit "def f (n : Nat) : Nat := n" ++ nl ++ nl
  ++ lit "axiom f_zero : f 0 = 0" ++ nl ++ nl
  ++ lit "lemma A : f 1 = 1 := by" ++ nl ++ lit "  rfl" ++ nl ++ nl
  ++ lit "lemma L : f 2 = 2 := by" ++ nl ++ lit "  simp [f_zero]" ++ nl ++ nl
  ++ lit "theorem T : f 3 = 3 := by" ++ nl ++ lit "  have := A; exact L".

(** A compiler that finds an error in the verification file of [L] and
    accepts every other file. *)
Definition example_compiler : Compiler :=
  λ task_name _,
    Compiled
      (Some (verify_lean4_file
               (Reply {| messages :=
                           if eqb task_name (lit "verify_L")
                           then Some [ {| severity := Some (lit "error");
                                          data := lit "simp made no progress" |} ]
                           else None;
                         reply_sorries := None |}))).

(** The theorem above on [example_code]: the compiler's result for [L] is
    recorded and is not complete, and [L] is in [error_declarations]. *)
Lemma verify_all_lemmas_error_declarations_witness :
  let st0 := __init__ example_code (Some example_compiler) in
  let st := verify_all_lemmas st0 in
  _verification_done st = true
  ∧ lemma_compilation_results st !! lit "L"
    = Some (recorded example_compiler st0 (lit "L"))
  ∧ get_complete (recorded example_compiler st0 (lit "L")) = false
  ∧ lit "L" ∈ error_declarations st.
Proof.
  intros st0 st.
  assert (∃ d, dict_get (declarations st) (lit "L") = Some d
               ∧ is_lemma_or_theorem (type d) = true
               ∧ has_proof d = true) as (d & Hd & Ht & Hp).
  { eexists. split_and!; vm_compute; reflexivity. }
  destruct (verify_all_lemmas_error_declarations example_code example_compiler
              (lit "L") d Hd) as (Hdone & Hl & _).
  destruct (Hl Ht) as (Hrec & _ & Herr).
  assert (get_complete (recorded example_compiler st0 (lit "L")) = false)
    as Hc by (vm_compute; reflexivity).
  split_and!; [exact Hdone|exact (Hrec Hp)|exact Hc|].
  apply Herr. split; [exact Hp|]. rewrite (Hrec Hp). exact Hc.
Defined.

End Verification.

(** ** Proof analysis: subproblems *)

Section Subproblems.
Import Py Analysis.

(** *** The subproblem, stated with filters

    The context of a subproblem, as the amended claim C2 words it: the
    definitions, verbatim, in source order; and, kept apart as facts, the
    axioms (verbatim) and the correct lemmas and theorems (in axiom form)
    whose names occur in the proof of the target, in source order. *)
Definition is_context_def (lemma_name : str) (info : Declaration) : bool :=
  negb (bool_decide (name info = lemma_name)) && is_def (type info).

Definition is_fact (st : ProofAnalysis) (lemma_name : str)
    (proof_deps : gset str) (info : Declaration) : bool :=
  negb (bool_decide (name info = lemma_name))
  && bool_decide (name info ∈ proof_deps)
  && (is_axiom (type info)
      || (is_lemma_or_theorem (type info) && should_include st (name info))).

Definition fact_text (info : Declaration) : str :=
  if is_axiom (type info) then full_text info
  else axiom_form (full_text info).

Definition subproblem_defs (lemma_name : str) (sorted_decls : list Declaration)
    : list str :=
  full_text <$> List.filter (is_context_def lemma_name) sorted_decls.

Definition subproblem_facts (st : ProofAnalysis) (lemma_name : str)
    (sorted_decls : list Declaration) : list str :=
  fact_text
  <$> List.filter (is_fact st lemma_name (_get_proof_dependencies st lemma_name))
        sorted_decls.

(** The loop of the source computes these two lists. *)
Lemma subproblem_context_spec st lemma_name proof_deps sorted_decls context_parts facts :
  subproblem_context st lemma_name proof_deps sorted_decls context_parts facts
  = (context_parts
     ++ (full_text <$> List.filter (is_context_def lemma_name) sorted_decls),
     facts
     ++ (fact_text <$> List.filter (is_fact st lemma_name proof_deps) sorted_decls)).
Proof.
  revert context_parts facts.
  induction sorted_decls as [|info rest IH]; intros context_parts facts.
  - simpl. by rewrite !app_nil_r.
  - cbn [subproblem_context List.filter].
    unfold is_context_def at 1, is_fact at 1.
    destruct (bool_decide (name info = lemma_name)); cbn [negb andb].
    { apply IH. }
    destruct (type info) eqn:Et;
      cbn [is_def is_axiom is_lemma_or_theorem orb andb];
      destruct (bool_decide (name info ∈ proof_deps)); cbn [andb];
      try destruct (should_include st (name info)); cbn [andb];
      rewrite IH; csimpl; unfold fact_text at 2; rewrite ?Et;
      cbn [is_axiom]; by rewrite <- ?app_assoc.
Qed.

Lemma _construct_subproblem_internal_spec st lemma_name d :
  dict_get (declarations st) lemma_name = Some d →
  is_lemma_or_theorem (type d) = true →
  _construct_subproblem_internal st lemma_name
  = Ok (header st ++ nl
        ++ join (nl ++ nl)
             (subproblem_defs lemma_name
                (sorted_by start_line (values (declarations st))))
        ++ nl ++ sorry_form (full_text d),
        subproblem_facts st lemma_name
          (sorted_by start_line (values (declarations st)))).
Proof.
  intros Hd Ht. unfold _construct_subproblem_internal. rewrite Hd, Ht.
  rewrite subproblem_context_spec. done.
Qed.

End Subproblems.

(** ** Proof analysis: the subproblem cache *)

Section SubproblemCache.
Import Py Analysis.

Lemma insert_by_Forall2 {A} (R : A → A → Prop) (key : A → nat) x y l l' :
  (∀ a b, R a b → key a = key b) →
  R x y → Forall2 R l l' →
  Forall2 R (insert_by key x l) (insert_by key y l').
Proof.
  intros Hkey Hxy. induction 1 as [|a b l l' Hab Hl IH]; simpl.
  - by repeat constructor.
  - rewrite (Hkey _ _ Hab), (Hkey _ _ Hxy).
    destruct (key b <=? key y); by repeat constructor.
Qed.

Lemma sorted_by_Forall2 {A} (R : A → A → Prop) (key : A → nat) l l' :
  (∀ a b, R a b → key a = key b) →
  Forall2 R l l' → Forall2 R (sorted_by key l) (sorted_by key l').
Proof.
  intros Hkey. unfold sorted_by.
  assert (H : ∀ acc acc', Forall2 R acc acc' → Forall2 R l l' →
              Forall2 R (foldl (λ acc x, insert_by key x acc) acc l)
                        (foldl (λ acc x, insert_by key x acc) acc' l')).
  { intros acc acc' Hacc Hl. revert acc acc' Hacc.
    induction Hl as [|x y l l' Hxy Hl IH]; intros acc acc' Hacc; simpl; [done|].
    apply IH. by apply insert_by_Forall2. }
  intros Hl. apply H; [constructor|done].
Qed.

Lemma fmap_filter_Forall2 {A B} (R : A → A → Prop) (p p' : A → bool)
    (f f' : A → B) l l' :
  (∀ x y, R x y → p x = p' y) → (∀ x y, R x y → p x = true → f x = f' y) →
  Forall2 R l l' → f <$> List.filter p l = f' <$> List.filter p' l'.
Proof.
  intros Hp Hf. induction 1 as [|x y l l' Hxy Hl IH]; simpl; [done|].
  rewrite <- (Hp _ _ Hxy). destruct (p x) eqn:E; [|done].
  csimpl. by rewrite IH, (Hf _ _ Hxy E).
Qed.

(** The relation between two declarations that agree on their cores. *)
Definition core_eq (x y : Declaration) : Prop := core x = core y.

Lemma core_eq_fields x y :
  core_eq x y →
  name x = name y ∧ type x = type y ∧ start_line x = start_line y
  ∧ has_proof x = has_proof y ∧ full_text x = full_text y.
Proof. unfold core_eq, core. intros [= ? ? ? ? ? ?]. done. Qed.

Lemma same_core_values d d' :
  same_core d d' → Forall2 core_eq (values d) (values d').
Proof.
  unfold values. induction 1 as [|x y d d' [_ Hc] _ IH]; csimpl; by constructor.
Qed.

Lemma same_core_get_eq d d' k :
  same_core d d' →
  option_Forall2 core_eq (dict_get d k) (dict_get d' k).
Proof.
  induction 1 as [|[k1 v1] [k2 v2] d d' [Hk Hc] _ IH]; simpl in *; [constructor|].
  subst k2. destruct (decide (k1 = k)); [by constructor|done].
Qed.

Lemma should_include_frame st st' n :
  frame st st' → should_include st n = should_include st' n.
Proof.
  intros (_ & _ & _ & _ & _ & _ & Hr & He & _).
  unfold should_include. by rewrite Hr, He.
Qed.

Lemma _get_proof_dependencies_frame st st' n :
  same_core (declarations st) (declarations st') →
  _get_proof_dependencies st n = _get_proof_dependencies st' n.
Proof.
  intros Hc. unfold _get_proof_dependencies.
  rewrite <- (same_core_keys _ _ Hc).
  destruct (same_core_get_eq _ _ n Hc) as [x y Hxy|]; [|done].
  destruct (core_eq_fields _ _ Hxy) as (_ & _ & _ & _ & ->). done.
Qed.

(** A subproblem depends on the cores of the declarations, the header, the
    recorded results and the error set, and on nothing else. *)
Lemma _construct_subproblem_internal_frame st st' n :
  frame st st' → same_core (declarations st) (declarations st') →
  _construct_subproblem_internal st n = _construct_subproblem_internal st' n.
Proof.
  intros Hf Hc. unfold _construct_subproblem_internal.
  destruct (same_core_get_eq _ _ n Hc) as [x y Hxy|]; [|done].
  destruct (core_eq_fields _ _ Hxy) as (_ & Htype & _ & _ & Htext).
  rewrite Htype, Htext. destruct (is_lemma_or_theorem (type y)); [|done].
  rewrite !subproblem_context_spec.
  rewrite <- (_get_proof_dependencies_frame st st' n Hc).
  assert (Hs : Forall2 core_eq (sorted_by start_line (values (declarations st)))
                               (sorted_by start_line (values (declarations st')))).
  { apply sorted_by_Forall2; [|by apply same_core_values].
    by intros a b (_ & _ & ? & _)%core_eq_fields. }
  assert (Hdefs : full_text <$> List.filter (is_context_def n)
                                  (sorted_by start_line (values (declarations st)))
                  = full_text <$> List.filter (is_context_def n)
                                    (sorted_by start_line (values (declarations st')))).
  { apply (fmap_filter_Forall2 core_eq); [| |exact Hs].
    - intros a b (Hn & Ht & _)%core_eq_fields. unfold is_context_def.
      by rewrite Hn, Ht.
    - by intros a b (_ & _ & _ & _ & Hx)%core_eq_fields _. }
  assert (Hfacts :
            fact_text <$> List.filter (is_fact st n (_get_proof_dependencies st n))
                            (sorted_by start_line (values (declarations st)))
            = fact_text <$> List.filter (is_fact st' n (_get_proof_dependencies st n))
                              (sorted_by start_line (values (declarations st')))).
  { apply (fmap_filter_Forall2 core_eq); [| |exact Hs].
    - intros a b (Hn & Ht & _)%core_eq_fields. unfold is_fact.
      by rewrite (should_include_frame st st') by done; rewrite Hn, Ht.
    - intros a b (_ & Ht & _ & _ & Hx)%core_eq_fields _. unfold fact_text.
      by rewrite Ht, Hx. }
  rewrite Hdefs, Hfacts.
  destruct Hf as (_ & _ & _ & _ & _ & -> & _). done.
Qed.

(** No declaration carries a cached subproblem. *)
Definition no_cache (d : dict Declaration) : Prop :=
  Forall (λ x, original_subproblem x.2 = None) d.

(** Every cached subproblem is the subproblem of its lemma, and only
    lemmas and theorems carry one. *)
Definition cache_ok (st : ProofAnalysis) : Prop :=
  ∀ n d c, dict_get (declarations st) n = Some d →
           original_subproblem d = Some c →
           _construct_subproblem_internal st n = Ok c.

Lemma no_cache_get d n x :
  no_cache d → dict_get d n = Some x → original_subproblem x = None.
Proof.
  intros Hn Hg. apply dict_get_elem_of in Hg.
  unfold no_cache in Hn. rewrite Forall_forall in Hn. by apply (Hn (n, x)).
Qed.

Lemma no_cache_cache_ok st : no_cache (declarations st) → cache_ok st.
Proof.
  intros Hn n d c Hd Hc. rewrite (no_cache_get _ _ _ Hn Hd) in Hc. done.
Qed.

Lemma no_cache_update d k f :
  (∀ v, original_subproblem (f v) = original_subproblem v) →
  no_cache d → no_cache (dict_update d k f).
Proof.
  intros Hf. unfold no_cache.
  induction d as [|[k0 v0] d IH]; simpl; [done|].
  rewrite !Forall_cons. intros [H0 Hd].
  destruct (decide (k0 = k)); rewrite Forall_cons; simpl.
  - by rewrite Hf.
  - auto.
Qed.

Lemma no_cache_set d k v :
  original_subproblem v = None → no_cache d → no_cache (dict_set d k v).
Proof.
  intros Hv. unfold no_cache.
  induction d as [|[k0 v0] d IH]; simpl.
  - intros _. by repeat constructor.
  - rewrite !Forall_cons. intros [H0 Hd].
    destruct (decide (k0 = k)); rewrite Forall_cons; simpl; auto.
Qed.

Lemma no_cache_first_pass i lines d :
  no_cache d → no_cache (first_pass i lines d).
Proof.
  revert i d. induction lines as [|line lines IH]; intros i d Hd; simpl; [done|].
  apply IH. destruct (match_declaration line) as [[t n]|]; [|done].
  by apply no_cache_set.
Qed.

Lemma second_pass_no_cache lines infos :
  Forall (λ x, original_subproblem x = None) infos →
  Forall (λ x, original_subproblem x = None) (second_pass lines infos).
Proof.
  revert lines. induction infos as [|x infos IH]; intros lines; simpl; [done|].
  rewrite !Forall_cons. intros [Hx Hi]. split; [done|auto].
Qed.

Lemma insert_by_Forall {A} (P : A → Prop) key x l :
  P x → Forall P l → Forall P (insert_by key x l).
Proof.
  intros Hx. induction 1 as [|y l Hy Hl IH]; simpl; [by repeat constructor|].
  destruct (key y <=? key x); by repeat constructor.
Qed.

Lemma sorted_by_Forall {A} (P : A → Prop) key l :
  Forall P l → Forall P (sorted_by key l).
Proof.
  unfold sorted_by.
  assert (H : ∀ acc, Forall P acc → Forall P l →
              Forall P (foldl (λ acc x, insert_by key x acc) acc l)).
  { intros acc Hacc Hl. revert acc Hacc.
    induction Hl as [|x l Hx Hl IH]; intros acc Hacc; simpl; [done|].
    apply IH. by apply insert_by_Forall. }
  intros Hl. by apply H.
Qed.

Lemma no_cache_extract lines : no_cache (_extract_declarations lines).
Proof.
  unfold _extract_declarations.
  set (d := first_pass 0 lines []).
  assert (Hd : no_cache d) by (apply no_cache_first_pass; constructor).
  assert (Hv : Forall (λ x, original_subproblem x = None) (values d)).
  { unfold values, no_cache in *. by apply Forall_fmap. }
  assert (Hw : no_cache (write_back d (second_pass lines (sorted_by start_line (values d))))).
  { unfold write_back.
    pose proof (second_pass_no_cache lines _ (sorted_by_Forall _ start_line _ Hv)) as Hs.
    revert Hd Hs. generalize (second_pass lines (sorted_by start_line (values d))).
    generalize d. intros d0 infos. revert d0.
    induction infos as [|x infos IH]; intros d0 Hd0; simpl; [done|].
    rewrite Forall_cons. intros [Hx Hi]. apply IH; [|done].
    by apply no_cache_set. }
  revert Hw. generalize (write_back d (second_pass lines (sorted_by start_line (values d)))).
  intros d1 H1. unfold third_pass, no_cache in *.
  apply Forall_fmap. eapply Forall_impl; [exact H1|].
  intros [n info] Hx. simpl in *. unfold with_found_dependencies.
  by destruct (_ || _).
Qed.

(** One turn of the loop of [_cache_subproblems] keeps the cache sound. *)
Lemma cache_loop_ok names st : cache_ok st → cache_ok (cache_loop names st).
Proof.
  revert st. induction names as [|n names IH]; intros st Hok; simpl; [done|].
  apply IH.
  destruct (dict_get (declarations st) n) as [info|] eqn:Hn; [|done].
  destruct (is_lemma_or_theorem (type info)); [|done].
  destruct (_construct_subproblem_internal st n) as [sub|e] eqn:Es; [|done].
  set (st' := set_declarations _ st).
  assert (Hint : ∀ m, _construct_subproblem_internal st' m
                      = _construct_subproblem_internal st m).
  { intros m. symmetry. apply _construct_subproblem_internal_frame.
    - apply frame_set_declarations.
    - simpl. by apply same_core_update. }
  intros m d c Hd Hc. rewrite Hint.
  subst st'. simpl in Hd. rewrite dict_get_update in Hd.
  destruct (decide (n = m)) as [->|Hne].
  - rewrite Hn in Hd. simpl in Hd. simplify_eq. simpl in Hc. by simplify_eq.
  - by eapply Hok.
Qed.

End SubproblemCache.

(** ** Proof analysis: the states an analysis goes through *)

Section Reachable.
Import Py Analysis.

(** An analysis is created, verified, and repaired by [fix_lemma]. *)
Inductive reachable : ProofAnalysis → Prop :=
| reach_init code scheduler : reachable (__init__ code scheduler)
| reach_verify st : reachable st → reachable (verify_all_lemmas st)
| reach_fix st lemma_name fixed_code :
    reachable st → reachable (final_state (fix_lemma st lemma_name fixed_code)).

Lemma record_results_no_cache named st :
  no_cache (declarations st) → no_cache (declarations (record_results named st)).
Proof.
  revert st. induction named as [|[n [e|r]] named IH]; intros st Hn; simpl; [done| |].
  - apply IH. simpl. by apply no_cache_update.
  - apply IH. destruct (negb r); simpl; by apply no_cache_update.
Qed.

Lemma record_results_done named st :
  _verification_done (record_results named st) = _verification_done st.
Proof.
  revert st. induction named as [|[n [e|r]] named IH]; intros st; simpl; [done| |].
  - by rewrite IH.
  - rewrite IH. by destruct (negb r).
Qed.

Lemma restore_loop_no_cache names old st :
  no_cache (declarations st) → no_cache (declarations (restore_loop names old st)).
Proof.
  revert st. induction names as [|n names IH]; intros st Hn; simpl; [done|].
  apply IH. destruct (dict_mem (declarations st) n); [|done].
  destruct (fix_history _ !! n), (old !! n); simpl;
    repeat (apply no_cache_update; [done|]); done.
Qed.

Lemma restore_loop_done names old st :
  _verification_done (restore_loop names old st) = _verification_done st.
Proof.
  revert st. induction names as [|n names IH]; intros st; simpl; [done|].
  rewrite IH. destruct (dict_mem (declarations st) n); [|done].
  by destruct (fix_history _ !! n), (old !! n).
Qed.

Lemma mark_verified_loop_no_cache names st :
  no_cache (declarations st) → no_cache (declarations (mark_verified_loop names st)).
Proof.
  revert st. induction names as [|n names IH]; intros st Hn; simpl; [done|].
  apply IH. destruct (dict_mem (declarations st) n); [|done]. simpl.
  repeat (apply no_cache_update; [done|]); done.
Qed.

Lemma mark_verified_loop_done names st :
  _verification_done (mark_verified_loop names st) = _verification_done st.
Proof.
  revert st. induction names as [|n names IH]; intros st; simpl; [done|].
  rewrite IH. by destruct (dict_mem (declarations st) n).
Qed.

Lemma helper_metadata_loop_no_cache l infos st :
  no_cache (declarations st) →
  no_cache (declarations (helper_metadata_loop l infos st)).
Proof.
  revert st. induction infos as [|x infos IH]; intros st Hn; simpl; [done|].
  apply IH. destruct (dict_mem (declarations st) (f_name x)); [|done].
  destruct (f_original_name x); simpl;
    repeat (apply no_cache_update; [done|]); done.
Qed.

Lemma helper_metadata_loop_done l infos st :
  _verification_done (helper_metadata_loop l infos st) = _verification_done st.
Proof.
  revert st. induction infos as [|x infos IH]; intros st; simpl; [done|].
  rewrite IH. destruct (dict_mem (declarations st) (f_name x)); [|done].
  by destruct (f_original_name x).
Qed.

Lemma cache_loop_done names st :
  _verification_done (cache_loop names st) = _verification_done st.
Proof.
  by destruct (cache_loop_frame names st) as [(_ & _ & _ & _ & _ & _ & _ & _ & <-) _].
Qed.

(** The analysis that [record_fix] leaves has a sound cache, once the
    declarations it starts from carry none. *)
Lemma record_fix_cache_ok st1 l new_lemmas history prev old :
  no_cache (declarations st1) →
  cache_ok (record_fix st1 l new_lemmas history prev old)
  ∧ _verification_done (record_fix st1 l new_lemmas history prev old)
    = _verification_done st1.
Proof.
  intros Hn1. unfold record_fix. cbv zeta. unfold _cache_subproblems.
  set (st2 := restore_loop prev old st1).
  set (st3 := mark_verified_loop (l :: (f_name <$> new_lemmas)) st2).
  set (st4 := if dict_mem (declarations st3) l then _ else st3).
  set (st5 := helper_metadata_loop l new_lemmas st4).
  assert (H3 : no_cache (declarations st3) ∧ _verification_done st3 = _verification_done st1).
  { subst st3 st2. split.
    - by apply mark_verified_loop_no_cache, restore_loop_no_cache.
    - by rewrite mark_verified_loop_done, restore_loop_done. }
  destruct H3 as [Hn3 Hd3].
  assert (H4 : no_cache (declarations st4) ∧ _verification_done st4 = _verification_done st1).
  { subst st4. destruct (dict_mem (declarations st3) l); [|done]. simpl.
    split; [by apply no_cache_update|done]. }
  destruct H4 as [Hn4 Hd4].
  split.
  - apply cache_loop_ok, no_cache_cache_ok. subst st5.
    by apply helper_metadata_loop_no_cache.
  - rewrite cache_loop_done. subst st5. by rewrite helper_metadata_loop_done.
Qed.

Lemma splice_cache_ok st l fixed orig prev info fds target :
  cache_ok (splice st l fixed orig prev info fds target)
  ∧ _verification_done (splice st l fixed orig prev info fds target)
    = _verification_done st.
Proof.
  unfold splice.
  destruct (new_lemma_loop l fds [] [] (list_to_set (keys (declarations st))))
    as [[new_lemmas name_mappings] existing].
  cbv zeta.
  match goal with
  | |- context [record_fix ?s ?a ?b ?c ?d ?e] =>
      destruct (record_fix_cache_ok s a b c d e) as [H1 H2];
        [simpl; apply no_cache_extract|]
  end.
  split; [done|]. by rewrite H2.
Qed.

(** In every reachable analysis the cached subproblems are the subproblems;
    before verification there is none. *)
Lemma reachable_cache_ok st :
  reachable st →
  cache_ok st ∧ (_verification_done st = false → no_cache (declarations st)).
Proof.
  induction 1 as [code scheduler|st Hr [Hok Hno]|st l fixed Hr [Hok Hno]].
  - assert (Hn : no_cache (declarations (__init__ code scheduler)))
      by apply no_cache_extract.
    split; [by apply no_cache_cache_ok|done].
  - unfold verify_all_lemmas.
    destruct (_verification_done st) eqn:Hdone;
      [split; [done|by rewrite Hdone]|].
    destruct (compilation_scheduler st) as [compile|];
      [|split; [done|by rewrite Hdone]].
    specialize (Hno eq_refl).
    pose proof (gather_spec compile st (lemmas_to_verify (declarations st)) st
                  (lemmas_to_verify_declared _)) as Hg.
    destruct (gather compile st (lemmas_to_verify (declarations st)) st)
      as [st1 results].
    destruct Hg as (_ & Hd1 & _ & _).
    unfold _cache_subproblems. split.
    + apply cache_loop_ok, no_cache_cache_ok. simpl.
      apply record_results_no_cache. by rewrite Hd1.
    + rewrite cache_loop_done. done.
  - unfold fix_lemma.
    destruct (dict_get (declarations st) l) as [info|] eqn:Hl; [|done].
    destruct (original_subproblem info) as [[cached facts]|] eqn:Ho; [|done].
    destruct (if is_empty cached then _ else Ok cached) as [orig|e]; [|done].
    destruct (dict_get (parse_fixed fixed) l) as [target|]; [|done].
    cbn [final_state].
    destruct (splice_cache_ok st l fixed orig
                (keys (List.filter (λ '(_, i), was_fixed i) (declarations st)))
                info (parse_fixed fixed) target) as [H1 H2].
    split; [done|]. rewrite H2. intros Hdone.
    rewrite (no_cache_get _ _ _ (Hno Hdone) Hl) in Ho. done.
Qed.

(** C2, amended.  In an analysis reached by creation, verification and
    fixes, [construct_subproblem] returns for every lemma or theorem [L] a
    pair [(subproblem_code, facts_list)].  [subproblem_code] is the header,
    a newline, the definitions other than [L], verbatim and in source
    order, separated by blank lines, a newline, and [L] with a leading
    [lemma] turned into [theorem] and its proof replaced by [:= by sorry].
    The axioms and the correct lemmas and theorems whose names occur in the
    proof body of [L] are not part of [subproblem_code]: they make up
    [facts_list], in source order, the axioms verbatim and the lemmas and
    theorems in axiom form (keyword replaced by [axiom], text from [:=] on
    dropped).  A lemma or theorem counts as correct when its recorded
    compilation result is complete or, with no result recorded, when it is
    not in [error_declarations]. *)
Theorem construct_subproblem_defs_and_facts
    (st : ProofAnalysis) (L : str) (d : Declaration) :
  reachable st →
  dict_get (declarations st) L = Some d →
  is_lemma_or_theorem (type d) = true →
  let sorted_decls := sorted_by start_line (values (declarations st)) in
  construct_subproblem st L
  = Ok (header st ++ nl
        ++ join (nl ++ nl) (subproblem_defs L sorted_decls)
        ++ nl ++ sorry_form (full_text d),
        subproblem_facts st L sorted_decls).
Proof.
  intros Hr Hd Ht sorted_decls. subst sorted_decls.
  destruct (reachable_cache_ok st Hr) as [Hok _].
  rewrite <- (_construct_subproblem_internal_spec st L d Hd Ht).
  unfold construct_subproblem. rewrite Hd.
  destruct (original_subproblem d) as [c|] eqn:Hc; [|done].
  symmetry. by eapply Hok.
Qed.

End Reachable.

(** ** Proof analysis: subproblems, on an example *)

Section SubproblemExample.
Import Py Analysis.

(** C2, as the claim states it, fails: [A] is a verified lemma whose name
    occurs in the proof body of [T], and the subproblem code built for [T]
    holds the header, the definition and the target only; [A] in axiom
    form is in the list of facts. *)
Lemma subproblem_code_leaves_facts_out :
  let st := verify_all_lemmas (__init__ example_code (Some example_compiler)) in
  let subproblem_code :=
    lit "import Mathlib" ++ nl ++ lit "def f (n : Nat) : Nat := n" ++ nl
    ++ lit "theorem T : f 3 = 3 := by sorry" in
  search_word (lit "A") (lit "have := A; exact L") = true
  ∧ (get_complete <$> lemma_compilation_results st !! lit "A") = Some true
  ∧ construct_subproblem st (lit "T")
    = Ok (subproblem_code, [lit "axiom A : f 1 = 1"])
  ∧ contains (lit "axiom A") subproblem_code = false.
Proof. vm_compute. done. Qed.

(** The amended claim on the same analysis. *)
Lemma construct_subproblem_defs_and_facts_witness :
  let st := verify_all_lemmas (__init__ example_code (Some example_compiler)) in
  ∃ d, dict_get (declarations st) (lit "T") = Some d
       ∧ construct_subproblem st (lit "T")
         = Ok (header st ++ nl
               ++ join (nl ++ nl)
                    (subproblem_defs (lit "T")
                       (sorted_by start_line (values (declarations st))))
               ++ nl ++ sorry_form (full_text d),
               subproblem_facts st (lit "T")
                 (sorted_by start_line (values (declarations st)))).
Proof.
  intros st. eexists. split.
  - vm_compute. reflexivity.
  - apply (construct_subproblem_defs_and_facts st (lit "T")).
    + apply reach_verify, reach_init.
    + vm_compute. reflexivity.
    + reflexivity.
Defined.

End SubproblemExample.


(** ** Proof analysis: fixing a lemma *)

Section FixLemma.
Import Py Analysis.

(** What [fix_lemma] promises of the lemma it has fixed. *)
Definition fixed_mark (L : str) (st : ProofAnalysis) : Prop :=
  (∀ v, dict_get (declarations st) L = Some v →
        was_fixed v = true ∧ is_verified v = true)
  ∧ (∃ r, lemma_compilation_results st !! L = Some r ∧ get_complete r = true)
  ∧ L ∉ error_declarations st.

Lemma dict_update_keeps (P : Declaration → Prop) d k f n :
  (∀ v, P v → P (f v)) →
  (∀ v, dict_get d n = Some v → P v) →
  ∀ v, dict_get (dict_update d k f) n = Some v → P v.
Proof.
  intros Hf Hd v. rewrite dict_get_update.
  destruct (decide (k = n)) as [->|Hne]; [|by apply Hd].
  destruct (dict_get d n) as [v0|]; [|done].
  intros [= <-]. by apply Hf, Hd.
Qed.

Definition flags (v : Declaration) : Prop :=
  was_fixed v = true ∧ is_verified v = true.

Lemma mark_verified_loop_keeps L names st :
  keys (declarations (mark_verified_loop names st)) = keys (declarations st)
  ∧ (fixed_mark L st → fixed_mark L (mark_verified_loop names st)).
Proof.
  revert st. induction names as [|n names IH]; intros st; simpl; [done|].
  set (st' := if dict_mem (declarations st) n then _ else st).
  destruct (IH st') as [Hk Hm].
  assert (H : keys (declarations st') = keys (declarations st)
              ∧ (fixed_mark L st → fixed_mark L st')).
  { subst st'. destruct (dict_mem (declarations st) n); [|done]. simpl. split.
    - by rewrite !keys_dict_update.
    - intros (Hf & (r & Hr & Hc) & He). split_and!.
      + simpl. apply (dict_update_keeps flags); [by intros ? [? ?]|].
        apply (dict_update_keeps flags); [by intros ? [? ?]|done].
      + simpl. destruct (decide (n = L)) as [->|Hne].
        * exists trusted_result. by rewrite lookup_insert_eq.
        * exists r. by rewrite lookup_insert_ne.
      + simpl. rewrite elem_of_difference. intros [? _]. done. }
  destruct H as [Hk' Hm']. split; [congruence|auto].
Qed.

Lemma mark_verified_first L st :
  dict_mem (declarations st) L = true →
  fixed_mark L
    (set_errors (error_declarations st ∖ {[L]})
       (set_results (<[L := trusted_result]> (lemma_compilation_results st))
          (set_declarations
             (dict_update (dict_update (declarations st) L (with_was_fixed true))
                L (with_is_verified true))
             st))).
Proof.
  intros Hmem. split_and!; simpl.
  - intros v. rewrite !dict_get_update, !decide_True by done.
    destruct (dict_get (declarations st) L); [|done]. by intros [= <-].
  - exists trusted_result. by rewrite lookup_insert_eq.
  - rewrite elem_of_difference, elem_of_singleton. tauto.
Qed.

Lemma helper_metadata_loop_keeps L l infos st :
  keys (declarations (helper_metadata_loop l infos st)) = keys (declarations st)
  ∧ (fixed_mark L st → fixed_mark L (helper_metadata_loop l infos st)).
Proof.
  revert st. induction infos as [|x infos IH]; intros st; simpl; [done|].
  set (st' := if dict_mem (declarations st) (f_name x) then _ else st).
  destruct (IH st') as [Hk Hm].
  assert (H : keys (declarations st') = keys (declarations st)
              ∧ (fixed_mark L st → fixed_mark L st')).
  { subst st'. destruct (dict_mem (declarations st) (f_name x)); [|done].
    destruct (f_original_name x); simpl.
    - split; [by rewrite !keys_dict_update|].
      intros (Hf & Hr & He). split_and!; [|done|done]. simpl.
      apply (dict_update_keeps flags); [by intros ? [? ?]|].
      apply (dict_update_keeps flags); [by intros ? [? ?]|done].
    - split; [by rewrite !keys_dict_update|].
      intros (Hf & Hr & He). split_and!; [|done|done]. simpl.
      apply (dict_update_keeps flags); [by intros ? [? ?]|done]. }
  destruct H as [Hk' Hm']. split; [congruence|auto].
Qed.

Lemma cache_loop_keeps L names st :
  keys (declarations (cache_loop names st)) = keys (declarations st)
  ∧ (fixed_mark L st → fixed_mark L (cache_loop names st)).
Proof.
  revert st. induction names as [|n names IH]; intros st; simpl; [done|].
  set (st' := match dict_get (declarations st) n with Some _ => _ | None => st end).
  destruct (IH st') as [Hk Hm].
  assert (H : keys (declarations st') = keys (declarations st)
              ∧ (fixed_mark L st → fixed_mark L st')).
  { subst st'. destruct (dict_get (declarations st) n) as [info|]; [|done].
    destruct (is_lemma_or_theorem (type info)); [|done].
    destruct (_construct_subproblem_internal st n); [|done]. simpl.
    split; [by rewrite keys_dict_update|].
    intros (Hf & Hr & He). split_and!; [|done|done]. simpl.
    apply (dict_update_keeps flags); [by intros ? [? ?]|done]. }
  destruct H as [Hk' Hm']. split; [congruence|auto].
Qed.

Lemma keys_mem_eq (d d' : dict Declaration) n :
  keys d = keys d' → dict_mem d n = dict_mem d' n.
Proof.
  intros Hk. destruct (dict_mem d n) eqn:E1, (dict_mem d' n) eqn:E2; try done.
  - apply dict_mem_keys in E1. rewrite Hk in E1. apply dict_mem_keys in E1. congruence.
  - apply dict_mem_keys in E2. rewrite <- Hk in E2. apply dict_mem_keys in E2. congruence.
Qed.

Lemma restore_loop_history names old s :
  fix_history (restore_loop names old s) = fix_history s.
Proof.
  revert s. induction names as [|n names IH]; intros s; simpl; [done|].
  rewrite IH. destruct (dict_mem (declarations s) n); [|done].
  by destruct (fix_history s !! n), (old !! n).
Qed.

Lemma mark_verified_loop_history names s :
  fix_history (mark_verified_loop names s) = fix_history s.
Proof.
  revert s. induction names as [|n names IH]; intros s; simpl; [done|].
  rewrite IH. by destruct (dict_mem (declarations s) n).
Qed.

Lemma helper_metadata_loop_history L infos s :
  fix_history (helper_metadata_loop L infos s) = fix_history s.
Proof.
  revert s. induction infos as [|x infos IH]; intros s; simpl; [done|].
  rewrite IH. destruct (dict_mem (declarations s) (f_name x)); [|done].
  by destruct (f_original_name x).
Qed.

Lemma cache_loop_history names s :
  fix_history (cache_loop names s) = fix_history s.
Proof.
  by destruct (cache_loop_frame names s) as [(_ & _ & _ & _ & <- & _) _].
Qed.

(** Steps 9 to 12 keep the history, and the fixed lemma, if the spliced
    code still declares it, carries every mark. *)
Lemma record_fix_marks st1 L new_lemmas history prev old :
  let st' := record_fix st1 L new_lemmas history prev old in
  fix_history st' = fix_history st1
  ∧ (dict_mem (declarations st') L = true → fixed_mark L st').
Proof.
  unfold record_fix. cbv zeta. unfold _cache_subproblems.
  set (st2 := restore_loop prev old st1).
  set (st3 := mark_verified_loop (L :: (f_name <$> new_lemmas)) st2).
  set (st4 := if dict_mem (declarations st3) L then _ else st3).
  set (st5 := helper_metadata_loop L new_lemmas st4).
  assert (H34 : fix_history st4 = fix_history st3
                ∧ keys (declarations st4) = keys (declarations st3)
                ∧ (fixed_mark L st3 → fixed_mark L st4)).
  { subst st4. destruct (dict_mem (declarations st3) L); [|done]. simpl.
    split_and!; [done|by rewrite keys_dict_update|].
    intros (Hf & Hr & He). split_and!; [|done|done]. simpl.
    apply (dict_update_keeps flags); [by intros ? [? ?]|done]. }
  destruct H34 as (Hh34 & Hk34 & Hm34).
  split.
  - rewrite cache_loop_history. subst st5. rewrite helper_metadata_loop_history.
    rewrite Hh34. subst st3 st2.
    by rewrite mark_verified_loop_history, restore_loop_history.
  - destruct (cache_loop_keeps L (keys (declarations st5)) st5) as [Hk5 Hm5].
    destruct (helper_metadata_loop_keeps L L new_lemmas st4) as [Hk4 Hm4].
    fold st5 in Hk4, Hm4.
    destruct (mark_verified_loop_keeps L (L :: (f_name <$> new_lemmas)) st2)
      as [Hk3 _].
    fold st3 in Hk3.
    intros Hmem. apply Hm5, Hm4, Hm34.
    assert (Hmem2 : dict_mem (declarations st2) L = true).
    { rewrite <- Hmem. apply keys_mem_eq. congruence. }
    subst st3. cbn [mark_verified_loop]. rewrite Hmem2.
    apply mark_verified_loop_keeps. by apply mark_verified_first.
Qed.

(** After [fix_lemma] has spliced a replacement for a lemma [L] that
    exists in the analysis and whose declaration appears in the fixed code,
    the fix is in the history; and if the declarations extracted from the
    spliced code still hold [L] (the guard of the marking loop), then [L]
    is marked as fixed and verified, its recorded compilation result is
    complete, and it is not in [error_declarations]. *)
Theorem fix_lemma_marks_fixed_lemma
    (st st' : ProofAnalysis) (L fixed_code : str) :
  fix_lemma st L fixed_code = Returned st' →
  dict_mem (declarations st) L = true →
  dict_mem (parse_fixed fixed_code) L = true →
  is_Some (fix_history st' !! L)
  ∧ ∀ d, dict_get (declarations st') L = Some d →
         was_fixed d = true ∧ is_verified d = true
         ∧ (∃ r, lemma_compilation_results st' !! L = Some r
                 ∧ get_complete r = true)
         ∧ L ∉ error_declarations st'.
Proof.
  unfold fix_lemma, dict_mem. intros Hfix Hdecl Hfixed.
  destruct (dict_get (declarations st) L) as [info|]; [|done].
  destruct (original_subproblem info) as [[cached facts]|]; [|done].
  destruct (if is_empty cached then _ else Ok cached) as [orig|e]; [|done].
  destruct (dict_get (parse_fixed fixed_code) L) as [target|]; [|done].
  injection Hfix as <-. unfold splice.
  destruct (new_lemma_loop L (parse_fixed fixed_code) [] []
              (list_to_set (keys (declarations st))))
    as [[new_lemmas name_mappings] existing].
  cbv zeta.
  match goal with
  | |- context [record_fix ?s ?a ?b ?c ?d ?e] =>
      destruct (record_fix_marks s a b c d e) as [Hh Hm];
      set (st' := record_fix s a b c d e) in *
  end.
  split.
  - rewrite Hh. simpl. rewrite lookup_insert_eq. by eexists.
  - intros d Hd.
    assert (Hmem : dict_mem (declarations st') L = true)
      by (unfold dict_mem; by rewrite Hd).
    destruct (Hm Hmem) as (Hf & Hr & He).
    destruct (Hf d Hd). done.
Qed.

End FixLemma.


(** ** Proof analysis: fixing a lemma, on examples *)

Section FixLemmaExamples.
Import Py Analysis.

(** A fix for [L] of [example_code] that brings no helper. *)
Definition example_fix : str :=
  lit "import Mathlib" ++ nl ++ nl
  ++ lit "def f (n : Nat) : Nat := n" ++ nl ++ nl
  ++ lit "theorem L : f 2 = 2 := by" ++ nl ++ lit "  rfl".

(** The theorem [fix_lemma_marks_fixed_lemma] on [example_code], verified,
    and [example_fix]. *)
Lemma fix_lemma_marks_fixed_lemma_witness :
  let st := verify_all_lemmas (__init__ example_code (Some example_compiler)) in
  ∃ st', fix_lemma st (lit "L") example_fix = Returned st'
         ∧ is_Some (fix_history st' !! lit "L")
         ∧ ∀ d, dict_get (declarations st') (lit "L") = Some d →
                was_fixed d = true ∧ is_verified d = true
                ∧ (∃ r, lemma_compilation_results st' !! lit "L" = Some r
                        ∧ get_complete r = true)
                ∧ lit "L" ∉ error_declarations st'.
Proof.
  intros st. eexists. split.
  - vm_compute. reflexivity.
  - apply (fix_lemma_marks_fixed_lemma st _ (lit "L") example_fix).
    + vm_compute. reflexivity.
    + vm_compute. reflexivity.
    + vm_compute. reflexivity.
Defined.

(** A file in which the name of the theorem extends the name of a lemma. *)
Definition dotted_code : str :=
  lit "import Mathlib" ++ nl ++ nl
  ++ lit "lemma A : 1 = 1 := by" ++ nl ++ lit "  rfl" ++ nl ++ nl
  ++ lit "theorem A.foo : 2 = 2 := by" ++ nl ++ lit "  simp".

(** A compiler that rejects the verification file of [A.foo]. *)
Definition dotted_compiler : Compiler :=
  λ task_name _,
    Compiled
      (Some (verify_lean4_file
               (Reply {| messages :=
                           if eqb task_name (lit "verify_A.foo")
                           then Some [ {| severity := Some (lit "error");
                                          data := lit "simp made no progress" |} ]
                           else None;
                         reply_sorries := None |}))).

(** A fix for [A.foo] whose helper is named [A], as a lemma of the file is. *)
Definition dotted_fix : str :=
  lit "import Mathlib" ++ nl ++ nl
  ++ lit "lemma A : 3 = 3 := by" ++ nl ++ lit "  rfl" ++ nl ++ nl
  ++ lit "theorem A.foo : 2 = 2 := by" ++ nl ++ lit "  rfl".

(** The analysis that a call of [fix_lemma] leaves when it returns. *)
Definition returned (o : Outcome) : option ProofAnalysis :=
  match o with Returned st => Some st | Raised _ _ => None end.

(** C4 fails on [dotted_code] and [dotted_fix].  [A.foo] exists in the
    analysis and its declaration appears in the fixed code; the helper [A]
    collides with the lemma [A] and is renamed to [A_1], and the renaming
    rewrites the target's own declaration to [A_1.foo].  After the splice
    the fix is in the history, but the analysis has no declaration [A.foo]:
    the loop that marks the fixed lemmas, the main lemma included, skips
    it; the result recorded for [A.foo] is not complete, and [A.foo] is
    still in [error_declarations]. *)
Lemma fix_lemma_loses_dotted_target :
  let st := verify_all_lemmas (__init__ dotted_code (Some dotted_compiler)) in
  let L := lit "A.foo" in
  dict_mem (declarations st) L = true
  ∧ dict_mem (parse_fixed dotted_fix) L = true
  ∧ (λ st', (bool_decide (is_Some (fix_history st' !! L)),
             keys (declarations st'),
             dict_mem (declarations st') L,
             get_complete <$> lemma_compilation_results st' !! L,
             bool_decide (L ∈ error_declarations st')))
    <$> returned (fix_lemma st L dotted_fix)
    = Some (true, [lit "A"; lit "A_1"; lit "A_1.foo"], false, Some false, true).
Proof. split_and!; vm_compute; reflexivity. Qed.

(** A fix for [L] of [example_code] with two helpers, [A] and [A_1]; the
    file has a lemma [A] already. *)
Definition chained_fix : str :=
  lit "import Mathlib" ++ nl ++ nl
  ++ lit "lemma A : f 0 = 0 := by" ++ nl ++ lit "  rfl" ++ nl ++ nl
  ++ lit "lemma A_1 : f 5 = 5 := by" ++ nl ++ lit "  rfl" ++ nl ++ nl
  ++ lit "theorem L : f 2 = 2 := by" ++ nl ++ lit "  have := A; exact A_1".

(** C5 fails on [chained_fix].  The helper [A] collides with the lemma [A]
    and gets the name [A_1]; the helper [A_1] then collides with that new
    name and gets [A_1_1].  The renamings are applied one after the other,
    so the second one rewrites the first helper as well: the history
    records [A] to [A_1], but the inserted text never mentions [A_1]; both
    helpers are declared as [A_1_1] and the fixed lemma refers to [A_1_1]
    twice. *)
Lemma fix_lemma_chained_helpers_collapse :
  let st := verify_all_lemmas (__init__ example_code (Some example_compiler)) in
  (λ st', (renamings <$> fix_history st' !! lit "L",
           search_word (lit "A_1") (code st'),
           slice_lines 9 17 (lines st'),
           keys (declarations st')))
  <$> returned (fix_lemma st (lit "L") chained_fix)
  = Some (Some (Some [(lit "A", lit "A_1"); (lit "A_1", lit "A_1_1")]),
          false,
          [lit "lemma A_1_1 : f 0 = 0 := by"; lit "  rfl"; [];
           lit "lemma A_1_1 : f 5 = 5 := by"; lit "  rfl"; [];
           lit "lemma L : f 2 = 2 := by";
           lit "  have := A_1_1; exact A_1_1"],
          [lit "f"; lit "f_zero"; lit "A"; lit "A_1_1"; lit "L"; lit "T"]).
Proof. vm_compute. reflexivity. Qed.

(** C10 fails on an analysis that has not been verified: [L] is declared,
    the replacement code declares another name, and the call does not
    return; it raises [TypeError] where the cached subproblem is unpacked.
    The analysis is left as it was. *)
Lemma fix_lemma_raises_without_cache :
  let st := __init__ example_code None in
  let replacement := lit "theorem M : True := by" ++ nl ++ lit "  trivial" in
  dict_mem (declarations st) (lit "L") = true
  ∧ dict_mem (parse_fixed replacement) (lit "L") = false
  ∧ fix_lemma st (lit "L") replacement
    = Raised (TypeError (lit "cannot unpack non-iterable NoneType object")) st.
Proof. split_and!; vm_compute; reflexivity. Qed.

End FixLemmaExamples.

(** ** Compilation pool: splitting the imports from the body *)

Section SplitImports.
Import Py CompilerPool.

(** The inverse of the split: the import block, a line break, the body. *)
Definition recombine (import_block lean_body : str) : str :=
  import_block ++ nl ++ lean_body.

(** A line of the import block that the split leaves as it is. *)
Definition import_line (l : str) : Prop :=
  startswith (lit "import") l = true ∧ strip l = l.

(** The text has no line boundary other than the line feed. *)
Definition lf_only (s : str) : bool :=
  forallb (λ c, implb (islinebreak c) (Ascii.eqb c LF)) s.

Lemma splitlines_nil (s : str) : splitlines s = [] → s = [].
Proof.
  destruct s as [|a s]; [done|]. simpl.
  destruct (islinebreak a); [done|]. by destruct (splitlines s).
Qed.

Lemma join_cons (sep x : str) (l : list str) :
  l ≠ [] → join sep (x :: l) = x ++ sep ++ join sep l.
Proof. by destruct l. Qed.

Lemma join_app (sep : str) (l1 l2 : list str) :
  l1 ≠ [] → l2 ≠ [] →
  join sep (l1 ++ l2) = join sep l1 ++ sep ++ join sep l2.
Proof.
  intros H1 H2. induction l1 as [|x l1 IH]; [done|].
  destruct l1 as [|y l1].
  - change ([x] ++ l2) with (x :: l2). by rewrite join_cons.
  - rewrite <- app_comm_cons. rewrite join_cons; [|done].
    rewrite IH; [|done]. rewrite (join_cons sep x (y :: l1)); [|done].
    rewrite <- !app_assoc. done.
Qed.

(** Joining the lines of a text gives the text back, but for one final
    line feed. *)
Lemma join_splitlines (s : str) :
  lf_only s = true →
  ∃ t, (t = [] ∨ t = nl) ∧ s = join nl (splitlines s) ++ t.
Proof.
  induction s as [|a s IH]; intros Hs.
  - exists []. by split; [left|].
  - apply andb_true_iff in Hs as [Ha Hs]. destruct (IH Hs) as (t & Ht & Heq).
    simpl. destruct (islinebreak a) eqn:Hb.
    + apply Ascii.eqb_eq in Ha as ->. change (Ascii.eqb LF CR) with false. cbv iota.
      destruct (splitlines s) as [|l ls] eqn:Hl.
      * apply splitlines_nil in Hl as ->. exists nl. by split; [right|].
      * exists t. split; [done|]. rewrite join_cons; [|done].
        simpl. by rewrite Heq at 1.
    + destruct (splitlines s) as [|l ls] eqn:Hl.
      * apply splitlines_nil in Hl as ->. exists []. by split; [left|].
      * exists t. split; [done|].
        rewrite Heq at 1. by destruct ls.
Qed.

Lemma dropwhile_app_all {A} (f : A → bool) (l1 l2 : list A) :
  Forall (λ x, f x = true) l1 → dropwhile f (l1 ++ l2) = dropwhile f l2.
Proof. induction 1 as [|x l Hx _ IH]; [done|]. simpl. by rewrite Hx. Qed.

Lemma length_dropwhile {A} (f : A → bool) (l : list A) :
  length (dropwhile f l) ≤ length l.
Proof. induction l as [|x l IH]; simpl; [lia|]. destruct (f x); simpl; lia. Qed.

Lemma rstrip_app_space (s t : str) :
  Forall (λ c, isspace c = true) t → rstrip (s ++ t) = rstrip s.
Proof.
  intros Ht. unfold rstrip. rewrite rev_app_distr.
  rewrite dropwhile_app_all; [done|]. by apply Forall_rev.
Qed.

Lemma rstrip_snoc (s : str) (c : ascii) :
  isspace c = false → rstrip (s ++ [c]) = s ++ [c].
Proof.
  intros Hc. unfold rstrip. rewrite rev_app_distr. simpl. rewrite Hc.
  simpl. by rewrite rev_involutive.
Qed.

Lemma rstrip_fixed (s : str) :
  rstrip s = s → s = [] ∨ ∃ s' c, s = s' ++ [c] ∧ isspace c = false.
Proof.
  destruct s as [|c s2 _] using rev_ind; [by left|]. right.
  exists s2, c. split; [done|].
  destruct (isspace c) eqn:Hc; [|done].
  rewrite (rstrip_app_space s2 [c]) in H by (by constructor).
  assert (length (rstrip s2) ≤ length s2) as Hlen.
  { unfold rstrip. rewrite length_rev, <- (length_rev s2).
    apply length_dropwhile. }
  rewrite H in Hlen. rewrite length_app in Hlen. simpl in Hlen. lia.
Qed.

Lemma import_line_inv (l : str) :
  import_line l →
  (∃ l', l = "i"%char :: l') ∧ (∃ s c, l = s ++ [c] ∧ isspace c = false).
Proof.
  intros [Hstart Hstrip].
  assert (∃ l', l = "i"%char :: l') as [l' ->].
  { destruct l as [|a l']; [done|]. exists l'.
    change (lit "import") with ("i"%char :: lit "mport") in Hstart.
    cbn [startswith] in Hstart.
    apply andb_true_iff in Hstart as [Ha _].
    apply Ascii.eqb_eq in Ha. by rewrite Ha. }
  split; [by eexists|].
  change (strip ("i"%char :: l')) with (rstrip ("i"%char :: l')) in Hstrip.
  by destruct (rstrip_fixed _ Hstrip) as [?|?].
Qed.

(** Over a block of import lines the loop only extends [import_lines]. *)
Lemma split_loop_imports (imports rest : list str) (saw_import : bool)
    (import_lines body_lines : list str) :
  Forall import_line imports →
  split_loop (imports ++ rest) saw_import
    (Z.of_nat (length import_lines) - 1) import_lines body_lines
  = split_loop rest
      (match imports with [] => saw_import | _ => true end)
      (Z.of_nat (length (import_lines ++ imports)) - 1)
      (import_lines ++ imports) body_lines.
Proof.
  intros Himports. revert saw_import import_lines.
  induction Himports as [|l imports [Hstart Hstrip] _ IH];
    intros saw_import import_lines.
  - by rewrite app_nil_r.
  - rewrite <- app_comm_cons. cbn [split_loop]. rewrite Hstrip, Hstart.
    rewrite IH. rewrite <- app_assoc. by destruct imports.
Qed.

(** At the first line after the imports the loop stops, and the body is
    what is left of the text. *)
Lemma split_loop_body (rest : list str) (last_import_idx : Z)
    (import_lines : list str) :
  (∀ l, head rest = Some l → startswith (lit "import") (strip l) = false) →
  split_loop rest true last_import_idx import_lines []
  = (true, last_import_idx, import_lines, rest).
Proof.
  intros Hrest. destruct rest as [|l rest]; [done|].
  cbn [split_loop]. by rewrite (Hrest l eq_refl).
Qed.

Lemma default_import_lines_eq :
  List.filter (startswith (lit "import"))
    (strip <$> splitlines (strip DEFAULT_IMPORTS))
  = [lit "import Mathlib"; lit "import Aesop"].
Proof. vm_compute. reflexivity. Qed.

Lemma strip_DEFAULT_IMPORTS :
  strip DEFAULT_IMPORTS = join nl [lit "import Mathlib"; lit "import Aesop"].
Proof. vm_compute. reflexivity. Qed.

(** A block of import lines, joined, has no white space to strip. *)
Lemma strip_join_imports (imports : list str) :
  Forall import_line imports → strip (join nl imports) = join nl imports.
Proof.
  intros Himports. destruct imports as [|l imports]; [done|].
  assert (∃ j, join nl (l :: imports) = "i"%char :: j) as [j Hj].
  { apply Forall_cons in Himports as [Hl _].
    apply import_line_inv in Hl as [[l' ->] _].
    destruct imports; by eexists. }
  assert (∃ s c, join nl (l :: imports) = s ++ [c] ∧ isspace c = false)
    as (s & c & Hs & Hc).
  { clear Hj. revert l Himports.
    induction imports as [|l2 imports IH]; intros l Himports.
    - apply Forall_cons in Himports as [Hl _].
      by apply import_line_inv in Hl as [_ ?].
    - apply Forall_cons in Himports as [_ Himports].
      destruct (IH l2 Himports) as (s & c & Hs & Hc).
      exists (l ++ nl ++ s), c. split; [|done].
      rewrite join_cons; [|done]. rewrite Hs. by rewrite <- !app_assoc. }
  unfold strip. rewrite Hj. change (lstrip ("i"%char :: j)) with ("i"%char :: j).
  rewrite <- Hj, Hs. by apply rstrip_snoc.
Qed.

(** C9, amended.  Let the lines of [code] be a non-empty block [imports]
    of import lines without surrounding white space, followed by [rest],
    which is empty or begins with a line that is no import; let the line
    feed be the only line boundary of [code]; and let the imports be the
    default ones or include one that is not a default.  Then the import
    block and the body that [split_import_and_body] returns, recombined,
    are [code] up to trailing white space. *)
Theorem split_import_and_body_roundtrip (code : str)
    (imports rest : list str) :
  lf_only code = true →
  splitlines code = imports ++ rest →
  imports ≠ [] →
  Forall import_line imports →
  (∀ l, head rest = Some l → startswith (lit "import") (strip l) = false) →
  (issubset imports [lit "import Mathlib"; lit "import Aesop"] = true →
   imports = [lit "import Mathlib"; lit "import Aesop"]) →
  let '(import_block, lean_body) :=
    split_import_and_body code DEFAULT_IMPORTS in
  import_block = join nl imports
  ∧ lean_body = join nl rest
  ∧ rstrip (recombine import_block lean_body) = rstrip code.
Proof.
  intros Hlf Hlines Hne Himports Hrest Hdefault.
  assert (rstrip (recombine (join nl imports) (join nl rest)) = rstrip code)
    as Hround.
  { destruct (join_splitlines code Hlf) as (t & Ht & Hcode).
    assert (Forall (λ c, isspace c = true) t) as Hspace.
    { destruct Ht as [-> | ->]; [constructor|]. by repeat constructor. }
    rewrite Hcode at 1. rewrite rstrip_app_space; [|done].
    rewrite Hlines. unfold recombine.
    destruct rest as [|r rest].
    - rewrite !app_nil_r. apply rstrip_app_space. by repeat constructor.
    - by rewrite join_app. }
  unfold split_import_and_body. rewrite Hlines.
  change (-1)%Z with (Z.of_nat (length (@nil str)) - 1)%Z.
  rewrite split_loop_imports; [|done].
  rewrite app_nil_l.
  replace (match imports with [] => false | _ => true end) with true
    by (by destruct imports).
  rewrite split_loop_body; [|done].
  cbv beta iota zeta.
  replace (Z.of_nat (length imports) - 1 + 1 <? Z.of_nat (length imports))%Z
    with false by (symmetry; apply Z.ltb_ge; lia).
  cbv beta iota zeta. rewrite andb_false_r. cbv beta iota zeta.
  rewrite default_import_lines_eq.
  destruct (issubset imports _) eqn:Hsub.
  - rewrite strip_DEFAULT_IMPORTS. rewrite <- (Hdefault eq_refl). done.
  - rewrite strip_join_imports; done.
Qed.

End SplitImports.

(** ** Compilation pool: splitting the imports, on examples *)

Section SplitImportsExamples.
Import Py CompilerPool.

(** [split_import_and_body_roundtrip] on a file with two imports, one of
    them not a default. *)
Lemma split_import_and_body_roundtrip_witness :
  let code :=
    lit "import Foo" ++ nl ++ lit "import Mathlib" ++ nl ++ nl
    ++ lit "theorem t : True := trivial" ++ nl in
  let '(import_block, lean_body) :=
    split_import_and_body code DEFAULT_IMPORTS in
  import_block = join nl [lit "import Foo"; lit "import Mathlib"]
  ∧ lean_body = join nl [[]; lit "theorem t : True := trivial"]
  ∧ rstrip (recombine import_block lean_body) = rstrip code.
Proof.
  intros code.
  apply (split_import_and_body_roundtrip code
           [lit "import Foo"; lit "import Mathlib"]
           [[]; lit "theorem t : True := trivial"]).
  - vm_compute. reflexivity.
  - vm_compute. reflexivity.
  - discriminate.
  - repeat constructor.
  - intros l [= <-]. vm_compute. reflexivity.
  - intros Hsub. vm_compute in Hsub. discriminate.
Defined.

(** C9, as the claim states it, fails.  A source without imports has an
    empty header, and the split gives it the default imports as import
    block, which the source does not contain; a source that imports
    [Mathlib] only gets [Aesop] added; a comment before the imports is in
    neither piece; an indented import comes back without its indentation;
    and a line boundary other than the line feed comes back as a line
    feed. *)
Lemma split_import_and_body_normalises_imports :
  let statement := lit "theorem t : True := trivial" in
  let defaults := lit "import Mathlib" ++ nl ++ lit "import Aesop" in
  let with_mathlib := lit "import Mathlib" ++ nl ++ statement in
  let with_comment :=
    lit "-- a file" ++ nl ++ lit "import Foo" ++ nl ++ statement in
  let indented := lit "  import Foo" ++ nl ++ statement in
  let with_crlf := lit "import Foo" ++ [CR; LF] ++ statement in
  Analysis._extract_header (split_lines statement) = []
  ∧ split_import_and_body statement DEFAULT_IMPORTS = (defaults, statement)
  ∧ eqb (rstrip (recombine defaults statement)) (rstrip statement) = false
  ∧ split_import_and_body with_mathlib DEFAULT_IMPORTS = (defaults, statement)
  ∧ eqb (rstrip (recombine defaults statement)) (rstrip with_mathlib) = false
  ∧ split_import_and_body with_comment DEFAULT_IMPORTS
    = (lit "import Foo", statement)
  ∧ eqb (rstrip (recombine (lit "import Foo") statement))
        (rstrip with_comment) = false
  ∧ split_import_and_body indented DEFAULT_IMPORTS
    = (lit "import Foo", statement)
  ∧ eqb (rstrip (recombine (lit "import Foo") statement))
        (rstrip indented) = false
  ∧ split_import_and_body with_crlf DEFAULT_IMPORTS
    = (lit "import Foo", statement)
  ∧ eqb (rstrip (recombine (lit "import Foo") statement))
        (rstrip with_crlf) = false.
Proof. vm_compute. done. Qed.

End SplitImportsExamples.

(** ** Proof analysis: when [fix_lemma] returns, and when it has no effect *)

Section FixLemmaOutcome.
Import Py Analysis.

(** Every lemma and theorem carries a cached subproblem. *)
Definition populated (st : ProofAnalysis) : Prop :=
  ∀ n d, dict_get (declarations st) n = Some d →
         is_lemma_or_theorem (type d) = true →
         is_Some (original_subproblem d).

(** The same, for the names that [seen] holds. *)
Definition populated_on (seen : str → Prop) (st : ProofAnalysis) : Prop :=
  ∀ n d, seen n → dict_get (declarations st) n = Some d →
         is_lemma_or_theorem (type d) = true →
         is_Some (original_subproblem d).

Lemma cache_loop_populated names st (seen : str → Prop) :
  populated_on seen st →
  populated_on (λ n, seen n ∨ n ∈ names) (cache_loop names st).
Proof.
  revert st seen. induction names as [|m names IH]; intros st seen Hseen.
  - intros n d [Hn|Hn] Hd Ht; [by eapply Hseen|]. by apply elem_of_nil in Hn.
  - cbn [cache_loop].
    set (st' := match dict_get (declarations st) m with
                | Some _ => _ | None => st end).
    assert (populated_on (λ n, seen n ∨ n = m) st') as Hstep.
    { subst st'. intros n d Hn Hd Ht.
      destruct (dict_get (declarations st) m) as [info|] eqn:Hm.
      - destruct (is_lemma_or_theorem (type info)) eqn:Hinfo.
        + rewrite (_construct_subproblem_internal_spec st m info Hm Hinfo) in Hd.
          cbn [declarations set_declarations] in Hd.
          rewrite dict_get_update in Hd.
          destruct (decide (m = n)) as [->|Hne].
          * rewrite Hm in Hd. injection Hd as <-. by eexists.
          * destruct Hn as [Hn|Hn]; [by eapply Hseen|congruence].
        + destruct Hn as [Hn| ->]; [by eapply Hseen|]. congruence.
      - destruct Hn as [Hn| ->]; [by eapply Hseen|]. congruence. }
    intros n d Hn. apply (IH st' _ Hstep).
    destruct Hn as [Hn|Hn]; [by left; left|].
    apply elem_of_cons in Hn as [->|Hn]; [by left; right|by right].
Qed.

Lemma populated_cache st : populated (_cache_subproblems st).
Proof.
  intros n d Hd Ht. unfold _cache_subproblems in *.
  eapply (cache_loop_populated (keys (declarations st)) st (λ _, False));
    [by intros ? ? [] | | done | done].
  right. destruct (cache_loop_frame (keys (declarations st)) st) as [_ Hsame].
  rewrite (same_core_keys _ _ Hsame).
  destruct (decide (n ∈ keys (declarations (cache_loop (keys (declarations st)) st))))
    as [|Hn]; [done|].
  apply dict_get_None in Hn. congruence.
Qed.

(** Once verification has run, every reachable analysis has a subproblem
    cached for each of its lemmas and theorems. *)
Lemma reachable_populated st :
  reachable st → _verification_done st = true → populated st.
Proof.
  induction 1 as [code scheduler|st Hr IH|st l fixed Hr IH].
  - done.
  - unfold verify_all_lemmas.
    destruct (_verification_done st) eqn:Hdone; [intros _; by apply IH|].
    destruct (compilation_scheduler st) as [compile|]; [|by rewrite Hdone].
    destruct (gather compile st (lemmas_to_verify (declarations st)) st)
      as [st1 results].
    intros _. apply populated_cache.
  - unfold fix_lemma.
    destruct (dict_get (declarations st) l) as [info|] eqn:Hl; [|done].
    destruct (original_subproblem info) as [[cached facts]|] eqn:Ho; [|done].
    destruct (if is_empty cached then _ else Ok cached) as [orig|e]; [|done].
    destruct (dict_get (parse_fixed fixed) l) as [target|]; [|done].
    cbn [final_state]. intros _. unfold splice.
    destruct (new_lemma_loop l (parse_fixed fixed) [] []
                (list_to_set (keys (declarations st))))
      as [[new_lemmas name_mappings] existing].
    cbv zeta. unfold record_fix. cbv zeta. apply populated_cache.
Qed.

(** A call of [fix_lemma] for a name that the analysis does not declare,
    or with code that does not declare the name, leaves the analysis as it
    was, whether the call returns or raises. *)
Theorem fix_lemma_without_target_keeps_state
    (st : ProofAnalysis) (L fixed_code : str) :
  dict_mem (declarations st) L = false
  ∨ dict_mem (parse_fixed fixed_code) L = false →
  final_state (fix_lemma st L fixed_code) = st.
Proof.
  intros Hno. unfold fix_lemma, dict_mem in *.
  destruct (dict_get (declarations st) L) as [info|]; [|done].
  destruct (original_subproblem info) as [[cached facts]|]; [|done].
  destruct (if is_empty cached then _ else Ok cached) as [orig|e]; [|done].
  destruct (dict_get (parse_fixed fixed_code) L) as [target|]; [|done].
  by destruct Hno.
Qed.

(** On a reachable analysis that has been verified, [fix_lemma] returns for
    every declared lemma or theorem; when the code given does not declare
    the lemma, it returns the analysis unchanged. *)
Theorem fix_lemma_returns_when_verified
    (st : ProofAnalysis) (L fixed_code : str) (d : Declaration) :
  reachable st →
  _verification_done st = true →
  dict_get (declarations st) L = Some d →
  is_lemma_or_theorem (type d) = true →
  ∃ st', fix_lemma st L fixed_code = Returned st'
         ∧ (dict_mem (parse_fixed fixed_code) L = false → st' = st).
Proof.
  intros Hr Hdone Hd Ht.
  destruct (reachable_populated st Hr Hdone L d Hd Ht) as [[cached facts] Hc].
  unfold fix_lemma, dict_mem. rewrite Hd, Hc.
  rewrite (_construct_subproblem_internal_spec st L d Hd Ht).
  destruct (is_empty cached);
    (destruct (dict_get (parse_fixed fixed_code) L) as [target|];
     [eexists; split; [reflexivity|done] | by exists st]).
Qed.

(** On a reachable analysis, [fix_lemma] raises [TypeError] for a declared
    name that has no cached subproblem: every declared name before
    verification, and every definition and axiom at any time.  The
    analysis is left as it was. *)
Theorem fix_lemma_raises_without_cached_subproblem
    (st : ProofAnalysis) (L fixed_code : str) (d : Declaration) :
  reachable st →
  dict_get (declarations st) L = Some d →
  _verification_done st = false ∨ is_lemma_or_theorem (type d) = false →
  fix_lemma st L fixed_code
  = Raised (TypeError (lit "cannot unpack non-iterable NoneType object")) st.
Proof.
  intros Hr Hd Hcase. destruct (reachable_cache_ok st Hr) as [Hok Hno].
  assert (original_subproblem d = None) as Hnone.
  { destruct Hcase as [Hdone|Ht].
    - by eapply no_cache_get; [apply Hno|].
    - destruct (original_subproblem d) as [c|] eqn:Hc; [|done].
      specialize (Hok L d c Hd Hc).
      unfold _construct_subproblem_internal in Hok. rewrite Hd, Ht in Hok.
      done. }
  unfold fix_lemma. by rewrite Hd, Hnone.
Qed.

End FixLemmaOutcome.

(** ** Proof analysis: the outcome of [fix_lemma], on examples *)

Section FixLemmaOutcomeExamples.
Import Py Analysis.

(** [fix_lemma_without_target_keeps_state] on the verified [example_code],
    for a name that the file does not declare. *)
Lemma fix_lemma_without_target_keeps_state_witness :
  let st := verify_all_lemmas (__init__ example_code (Some example_compiler)) in
  final_state (fix_lemma st (lit "M") example_fix) = st.
Proof.
  intros st.
  apply (fix_lemma_without_target_keeps_state st (lit "M") example_fix).
  left. vm_compute. reflexivity.
Defined.

(** [fix_lemma_returns_when_verified] on the verified [example_code] and
    its lemma [L]. *)
Lemma fix_lemma_returns_when_verified_witness :
  let st := verify_all_lemmas (__init__ example_code (Some example_compiler)) in
  ∃ st', fix_lemma st (lit "L") example_fix = Returned st'
         ∧ (dict_mem (parse_fixed example_fix) (lit "L") = false → st' = st).
Proof.
  intros st.
  assert (∃ d, dict_get (declarations st) (lit "L") = Some d
               ∧ is_lemma_or_theorem (type d) = true) as (d & Hd & Ht).
  { eexists. split; vm_compute; reflexivity. }
  assert (_verification_done st = true) as Hdone.
  { vm_compute. reflexivity. }
  exact (fix_lemma_returns_when_verified st (lit "L") example_fix d
           (reach_verify _ (reach_init _ _)) Hdone Hd Ht).
Defined.

(** [fix_lemma_raises_without_cached_subproblem] on the verified
    [example_code] and its definition [f]. *)
Lemma fix_lemma_raises_without_cached_subproblem_witness :
  let st := verify_all_lemmas (__init__ example_code (Some example_compiler)) in
  fix_lemma st (lit "f") example_fix
  = Raised (TypeError (lit "cannot unpack non-iterable NoneType object")) st.
Proof.
  intros st.
  assert (∃ d, dict_get (declarations st) (lit "f") = Some d
               ∧ is_lemma_or_theorem (type d) = false) as (d & Hd & Ht).
  { eexists. split; vm_compute; reflexivity. }
  exact (fix_lemma_raises_without_cached_subproblem st (lit "f") example_fix d
           (reach_verify _ (reach_init _ _)) Hd (or_intror Ht)).
Defined.

End FixLemmaOutcomeExamples.

(** ** Proof analysis: fresh names *)

Section UniqueNames.
Import Py Analysis.

(** The candidate [f"{base_name}_{counter}"]. *)
Definition suffixed (base_name : str) (counter : nat) : str :=
  base_name ++ lit "_" ++ of_nat counter.

Lemma lit_inj (s t : string) : lit s = lit t → s = t.
Proof.
  intros H. apply (f_equal string_of_list_ascii) in H.
  unfold lit in H. by rewrite !string_of_list_ascii_of_string in H.
Qed.

#[local] Instance suffixed_inj (base_name : str) : Inj (=) (=) (suffixed base_name).
Proof.
  intros n m H. unfold suffixed in H.
  apply app_inv_head in H. apply app_inv_head in H.
  apply lit_inj in H. by apply (inj pretty) in H.
Qed.

Lemma suffixed_ne_base (base_name : str) (counter : nat) :
  suffixed base_name counter ≠ base_name.
Proof.
  intros H. apply (f_equal length) in H. unfold suffixed in H.
  rewrite !length_app in H. simpl in H. lia.
Qed.

(** The names taken by the loop are all different, so there are no more
    of them than names in the set. *)
Lemma suffixed_taken (base_name : str) (existing_names : gset str) (c : nat) :
  base_name ∈ existing_names →
  (∀ j, 1 ≤ j < S c → suffixed base_name j ∈ existing_names) →
  S c ≤ size existing_names.
Proof.
  intros Hbase Htaken.
  set (l := base_name :: (suffixed base_name <$> seq 1 c)).
  assert (NoDup l) as Hnd.
  { subst l. apply NoDup_cons. split.
    - intros Hin. apply list_elem_of_fmap in Hin as (j & Hj & _).
      symmetry in Hj. by apply suffixed_ne_base in Hj.
    - apply (NoDup_fmap_2 _), NoDup_seq. }
  assert (list_to_set (C := gset str) l ⊆ existing_names) as Hsub.
  { intros x Hx. apply elem_of_list_to_set in Hx. subst l.
    apply elem_of_cons in Hx as [->|Hx]; [done|].
    apply list_elem_of_fmap in Hx as (j & -> & Hj).
    apply elem_of_seq in Hj. apply Htaken. lia. }
  apply subseteq_size in Hsub. rewrite size_list_to_set in Hsub by done.
  subst l. simpl in Hsub. rewrite length_fmap, length_seq in Hsub. lia.
Qed.

Lemma unique_from_spec (fuel counter : nat) (base_name : str)
    (existing_names : gset str) :
  base_name ∈ existing_names →
  1 ≤ counter →
  (∀ j, 1 ≤ j < counter → suffixed base_name j ∈ existing_names) →
  size existing_names < fuel + counter →
  ∃ k, counter ≤ k
       ∧ unique_from fuel counter base_name existing_names = suffixed base_name k
       ∧ (suffixed base_name k ∉ existing_names)
       ∧ (∀ j, 1 ≤ j < k → suffixed base_name j ∈ existing_names).
Proof.
  intros Hbase. revert counter.
  induction fuel as [|fuel IH]; intros counter Hpos Htaken Hsize.
  - exfalso. destruct counter as [|c]; [lia|].
    pose proof (suffixed_taken base_name existing_names c Hbase Htaken). lia.
  - cbn [unique_from]. fold (suffixed base_name counter). case_bool_decide as Hin.
    + destruct (IH (S counter)) as (k & Hk & Heq & Hfresh & Hall); [lia| |lia|].
      { intros j Hj. destruct (decide (j = counter)) as [->|]; [done|].
        apply Htaken. lia. }
      exists k. split_and!; [lia|done|done|done].
    + exists counter. by split_and!.
Qed.

(** [_generate_unique_name] returns a name that is not in [existing_names]:
    the base name itself when it is free, and otherwise [base_k] for the
    least [k >= 1] for which that name is free. *)
Theorem generate_unique_name_fresh (base_name : str)
    (existing_names : gset str) :
  (_generate_unique_name base_name existing_names ∉ existing_names)
  ∧ (((base_name ∉ existing_names)
      ∧ _generate_unique_name base_name existing_names = base_name)
     ∨ (base_name ∈ existing_names
        ∧ ∃ k, 1 ≤ k
               ∧ _generate_unique_name base_name existing_names
                 = base_name ++ lit "_" ++ of_nat k
               ∧ (∀ j, 1 ≤ j < k →
                       base_name ++ lit "_" ++ of_nat j ∈ existing_names))).
Proof.
  unfold _generate_unique_name. case_bool_decide as Hbase.
  - destruct (unique_from_spec (size existing_names) 1 base_name existing_names)
      as (k & Hk & Heq & Hfresh & Hall); [done|lia| intros; lia |lia|].
    rewrite Heq. split; [done|]. right. split; [done|]. by exists k.
  - split; [done|]. by left.
Qed.

End UniqueNames.

(** ** Proof analysis: the header *)

Section Header.
Import Py Analysis.

Lemma takewhile_dropwhile {A} (f : A → bool) (l : list A) :
  takewhile f l ++ dropwhile f l = l.
Proof. induction l as [|x l IH]; [done|]. simpl. destruct (f x); simpl; congruence. Qed.

Lemma join_prefix (sep : str) (l1 l2 : list str) :
  l1 `prefix_of` l2 → join sep l1 `prefix_of` join sep l2.
Proof.
  intros [k ->]. destruct l1 as [|x l1]; [apply prefix_nil|].
  destruct k as [|y k]; [by rewrite app_nil_r|].
  rewrite join_app by done. by apply prefix_app_r.
Qed.

Lemma rstrip_prefix (s : str) : rstrip s `prefix_of` s.
Proof.
  unfold rstrip. exists (rev (takewhile isspace (rev s))).
  rewrite <- rev_app_distr, takewhile_dropwhile. by rewrite rev_involutive.
Qed.

Lemma lstrip_app (s t : str) :
  lstrip s ≠ [] → lstrip (s ++ t) = lstrip s ++ t.
Proof.
  unfold lstrip. induction s as [|c s IH]; [done|]. simpl.
  by destruct (isspace c).
Qed.

(** The header is a prefix of the source, leading white space apart. *)
Theorem extract_header_prefix (lines : list str) :
  _extract_header lines `prefix_of` lstrip (join nl lines).
Proof.
  unfold _extract_header, strip.
  assert (join nl (takewhile is_header_line lines) `prefix_of` join nl lines)
    as [t Ht].
  { apply join_prefix. exists (dropwhile is_header_line lines).
    by rewrite takewhile_dropwhile. }
  rewrite Ht.
  destruct (lstrip (join nl (takewhile is_header_line lines))) as [|c s] eqn:Hl.
  - apply prefix_nil.
  - rewrite lstrip_app by (by rewrite Hl). rewrite Hl.
    apply prefix_app_r, rstrip_prefix.
Qed.

End Header.

(** ** Proof analysis: verification, further properties *)

Section VerificationMore.
Import Py Analysis.

Lemma verify_all_lemmas_done st :
  verify_all_lemmas st = st ∨ _verification_done (verify_all_lemmas st) = true.
Proof.
  unfold verify_all_lemmas.
  destruct (_verification_done st) eqn:Hdone; [by left|].
  destruct (compilation_scheduler st) as [compile|]; [|by left].
  destruct (gather compile st (lemmas_to_verify (declarations st)) st)
    as [st1 results].
  right. unfold _cache_subproblems. by rewrite cache_loop_done.
Qed.

(** [verify_all_lemmas] compiles at most once: a second call returns the
    analysis that the first one left. *)
Theorem verify_all_lemmas_idempotent (st : ProofAnalysis) :
  verify_all_lemmas (verify_all_lemmas st) = verify_all_lemmas st.
Proof.
  destruct (verify_all_lemmas_done st) as [Hsame|Hdone].
  - by rewrite !Hsame.
  - generalize dependent (verify_all_lemmas st). intros st' Hdone.
    unfold verify_all_lemmas. by rewrite Hdone.
Qed.

(** *** The verification code, stated with a filter *)

(** What a declaration contributes to the verification code of
    [lemma_name]: a definition its text, an axiom that the proof uses its
    text, a correct lemma or theorem that the proof uses its axiom form. *)
Definition verification_part (st : ProofAnalysis) (lemma_name : str)
    (proof_deps : gset str) (info : Declaration) : option str :=
  if is_context_def lemma_name info then Some (full_text info)
  else if is_fact st lemma_name proof_deps info then Some (fact_text info)
  else None.

Lemma verification_context_spec st lemma_name proof_deps sorted_decls context_parts :
  verification_context st lemma_name proof_deps sorted_decls context_parts
  = context_parts
    ++ omap (verification_part st lemma_name proof_deps) sorted_decls.
Proof.
  revert context_parts.
  induction sorted_decls as [|info rest IH]; intros context_parts.
  - simpl. by rewrite app_nil_r.
  - cbn [verification_context omap list_omap]. rewrite IH.
    unfold verification_part at 2, is_context_def, is_fact, fact_text.
    destruct (bool_decide (name info = lemma_name)); cbn [negb andb]; [done|].
    destruct (type info) eqn:Et;
      cbn [is_def is_axiom is_lemma_or_theorem orb andb];
      destruct (bool_decide (name info ∈ proof_deps)); cbn [andb];
      try destruct (should_include st (name info)); cbn [andb];
      by rewrite <- ?app_assoc.
Qed.

(** [_construct_verification_code] returns, for a declared lemma or
    theorem, the header, a blank line, the context and, after another
    blank line, the target with its proof.  The context holds, in source
    order and separated by blank lines, every other definition verbatim,
    every axiom whose name occurs in the proof of the target verbatim, and
    every correct lemma or theorem whose name occurs there in axiom form.
    For any other name it raises [ValueError]. *)
Theorem construct_verification_code_spec (st : ProofAnalysis) (L : str) :
  _construct_verification_code st L
  = match dict_get (declarations st) L with
    | Some d =>
        if is_lemma_or_theorem (type d)
        then Ok (header st ++ nl ++ nl
                 ++ join (nl ++ nl)
                      (omap (verification_part st L (_get_proof_dependencies st L))
                         (sorted_by start_line (values (declarations st))))
                 ++ nl ++ nl ++ full_text d)
        else Raise (ValueError (lit "'" ++ L
                      ++ lit "' is not a valid lemma or theorem to verify."))
    | None => Raise (ValueError (lit "'" ++ L
                       ++ lit "' is not a valid lemma or theorem to verify."))
    end.
Proof.
  unfold _construct_verification_code.
  destruct (dict_get (declarations st) L) as [d|]; [|done].
  destruct (is_lemma_or_theorem (type d)); [|done].
  cbv zeta. by rewrite verification_context_spec.
Qed.

(** On a reachable analysis, [construct_subproblem] returns a subproblem
    exactly for the declared lemmas and theorems, and raises [ValueError]
    for every other name. *)
Theorem construct_subproblem_returns_iff (st : ProofAnalysis) (L : str) :
  reachable st →
  (is_target st L = true → ∃ c, construct_subproblem st L = Ok c)
  ∧ (is_target st L = false →
     construct_subproblem st L
     = Raise (ValueError
                (lit "'" ++ L
                 ++ lit "' is not a valid lemma or theorem to construct a subproblem for."))).
Proof.
  intros Hr. destruct (reachable_cache_ok st Hr) as [Hok _].
  unfold is_target, construct_subproblem.
  destruct (dict_get (declarations st) L) as [d|] eqn:Hd.
  - destruct (original_subproblem d) as [c|] eqn:Hc.
    + specialize (Hok L d c Hd Hc).
      unfold _construct_subproblem_internal in Hok. rewrite Hd in Hok.
      destruct (is_lemma_or_theorem (type d)); [|done].
      split; [by exists c|done].
    + split.
      * intros Ht. rewrite (_construct_subproblem_internal_spec st L d Hd Ht).
        by eexists.
      * intros Ht. unfold _construct_subproblem_internal. by rewrite Hd, Ht.
  - split; [done|]. intros _. unfold _construct_subproblem_internal.
    by rewrite Hd.
Qed.

End VerificationMore.

(** ** Proof analysis: verification, on examples *)

Section VerificationMoreExamples.
Import Py Analysis.

(** [construct_subproblem_returns_iff] on the verified [example_code]: a
    subproblem for the lemma [L], [ValueError] for the definition [f]. *)
Lemma construct_subproblem_returns_iff_witness :
  let st := verify_all_lemmas (__init__ example_code (Some example_compiler)) in
  (∃ c, construct_subproblem st (lit "L") = Ok c)
  ∧ construct_subproblem st (lit "f")
    = Raise (ValueError
               (lit "'" ++ lit "f"
                ++ lit "' is not a valid lemma or theorem to construct a subproblem for.")).
Proof.
  intros st. split.
  - apply (construct_subproblem_returns_iff st (lit "L")
             (reach_verify _ (reach_init _ _))).
    vm_compute. reflexivity.
  - apply (construct_subproblem_returns_iff st (lit "f")
             (reach_verify _ (reach_init _ _))).
    vm_compute. reflexivity.
Defined.

End VerificationMoreExamples.

(** ** Proof analysis: the shape of the declaration table *)

Section ExtractionShape.
Import Py Analysis.

Lemma elem_of_dict_set {V} (d : dict V) k v x :
  x ∈ dict_set d k v → x ∈ d ∨ x = (k, v).
Proof.
  induction d as [|[k0 v0] d IH]; simpl.
  - intros Hx. apply list_elem_of_singleton in Hx. by right.
  - destruct (decide (k0 = k)) as [->|Hne].
    + intros Hx. apply elem_of_cons in Hx as [->|Hx]; [by right|].
      left. apply elem_of_cons. by right.
    + intros Hx. apply elem_of_cons in Hx as [->|Hx].
      * left. apply elem_of_cons. by left.
      * destruct (IH Hx) as [H|H]; [|by right].
        left. apply elem_of_cons. by right.
Qed.

Lemma Forall_dict_set {V} (P : str * V → Prop) (d : dict V) k v :
  Forall P d → P (k, v) → Forall P (dict_set d k v).
Proof.
  intros Hd Hv. apply Forall_forall. intros x Hx.
  apply elem_of_dict_set in Hx as [Hx| ->]; [|done].
  rewrite Forall_forall in Hd. by apply Hd.
Qed.

Lemma insert_by_Permutation {A} (key : A → nat) x l :
  insert_by key x l ≡ₚ x :: l.
Proof.
  induction l as [|y l IH]; simpl; [done|].
  destruct (key y <=? key x); [|done].
  rewrite IH. apply Permutation_swap.
Qed.

Lemma sorted_by_Permutation {A} (key : A → nat) (l : list A) :
  sorted_by key l ≡ₚ l.
Proof.
  unfold sorted_by.
  assert (H : ∀ acc, foldl (λ acc x, insert_by key x acc) acc l ≡ₚ acc ++ l).
  { induction l as [|x l IH]; intros acc; simpl; [by rewrite app_nil_r|].
    rewrite IH, insert_by_Permutation. simpl. apply Permutation_middle. }
  by rewrite H.
Qed.

Lemma insert_by_sorted {A} (key : A → nat) x l :
  StronglySorted (λ a b, key a < key b) l →
  Forall (λ y, key y ≠ key x) l →
  StronglySorted (λ a b, key a < key b) (insert_by key x l).
Proof.
  induction 1 as [|y l Hl IH Hy]; intros Hne; simpl.
  - by repeat constructor.
  - apply Forall_cons in Hne as [Hyx Hne].
    destruct (key y <=? key x) eqn:Hle.
    + apply Nat.leb_le in Hle. constructor; [by apply IH|].
      rewrite insert_by_Permutation. constructor; [lia|done].
    + apply Nat.leb_gt in Hle. constructor; [by constructor|].
      constructor; [done|]. eapply Forall_impl; [exact Hy|].
      simpl. intros z Hz. lia.
Qed.

Lemma sorted_by_sorted {A} (key : A → nat) (l : list A) :
  NoDup (key <$> l) →
  StronglySorted (λ a b, key a < key b) (sorted_by key l).
Proof.
  unfold sorted_by.
  assert (H : ∀ acc, StronglySorted (λ a b, key a < key b) acc →
                     NoDup (key <$> (acc ++ l)) →
                     StronglySorted (λ a b, key a < key b)
                       (foldl (λ acc x, insert_by key x acc) acc l)).
  { induction l as [|x l IH]; intros acc Hacc Hnd; simpl; [done|].
    apply IH.
    - apply insert_by_sorted; [done|].
      rewrite fmap_app, fmap_cons in Hnd.
      apply NoDup_app in Hnd as (_ & Hdisj & _).
      apply Forall_forall. intros y Hy Heq.
      apply (Hdisj (key y)); [by apply list_elem_of_fmap_2|].
      rewrite Heq. apply elem_of_cons. by left.
    - assert (insert_by key x acc ++ l ≡ₚ acc ++ x :: l) as ->; [|done].
      rewrite insert_by_Permutation. simpl. apply Permutation_middle. }
  intros Hnd. apply H; [constructor|done].
Qed.

(** A record points at a line of the file that declares its name with its
    keyword; no dependency has been entered yet. *)
Definition located (lines : list str) (d : Declaration) : Prop :=
  1 ≤ start_line d
  ∧ (∃ line, lines !! (start_line d - 1) = Some line
             ∧ match_declaration line = Some (type d, name d))
  ∧ dependencies d = ∅.

(** The text of a record is the text of its lines, and [has_proof] tells
    whether a lemma or theorem holds [:=]. *)
Definition spanned (lines : list str) (d : Declaration) : Prop :=
  start_line d ≤ end_line d ∧ end_line d ≤ length lines
  ∧ full_text d
    = strip (join nl (slice_lines (start_line d - 1) (end_line d) lines))
  ∧ has_proof d
    = is_lemma_or_theorem (type d) && contains (lit ":=") (full_text d).

Definition starts (d : dict Declaration) : list nat :=
  (λ x, start_line x.2) <$> d.

Lemma NoDup_starts_dict_set (d : dict Declaration) k v i :
  Forall (λ x, start_line x.2 ≤ i) d →
  start_line v = i + 1 →
  NoDup (starts d) → NoDup (starts (dict_set d k v)).
Proof.
  intros Hle Hv. unfold starts.
  induction d as [|[k0 v0] d IH]; csimpl.
  - intros _. apply NoDup_singleton.
  - apply Forall_cons in Hle as [H0 Hle]. simpl in H0.
    rewrite NoDup_cons. intros [Hnin Hnd].
    destruct (decide (k0 = k)) as [->|Hne]; csimpl.
    + apply NoDup_cons. split; [|done].
      intros Hin. apply list_elem_of_fmap in Hin as (x & Hx & Hin).
      rewrite Forall_forall in Hle. specialize (Hle x Hin). simpl in *. lia.
    + apply NoDup_cons. split; [|by apply IH].
      intros Hin. apply list_elem_of_fmap in Hin as (x & Hx & Hin).
      apply elem_of_dict_set in Hin as [Hin| ->].
      * apply Hnin. apply list_elem_of_fmap. by exists x.
      * simpl in Hx. lia.
Qed.

Lemma first_pass_located (pre rest : list str) (acc : dict Declaration) :
  Forall (λ x, name x.2 = x.1 ∧ located (pre ++ rest) x.2
               ∧ start_line x.2 ≤ length pre) acc →
  NoDup (starts acc) →
  Forall (λ x, name x.2 = x.1 ∧ located (pre ++ rest) x.2
               ∧ start_line x.2 ≤ length (pre ++ rest))
    (first_pass (length pre) rest acc)
  ∧ NoDup (starts (first_pass (length pre) rest acc)).
Proof.
  revert pre acc. induction rest as [|line rest IH]; intros pre acc Hacc Hnd.
  - simpl. rewrite app_nil_r in *. done.
  - cbn [first_pass].
    replace (pre ++ line :: rest) with ((pre ++ [line]) ++ rest)
      by (by rewrite <- app_assoc).
    replace (S (length pre)) with (length (pre ++ [line]))
      by (rewrite length_app; simpl; lia).
    apply IH.
    + rewrite <- app_assoc. simpl.
      assert (Forall (λ x, name x.2 = x.1 ∧ located (pre ++ line :: rest) x.2
                           ∧ start_line x.2 ≤ length (pre ++ [line])) acc)
        as Hacc'.
      { eapply Forall_impl; [exact Hacc|]. intros x (? & ? & ?).
        split_and!; [done|done|]. rewrite length_app. simpl. lia. }
      destruct (match_declaration line) as [[t n]|] eqn:Hm; [|done].
      apply Forall_dict_set; [done|]. simpl.
      split_and!; [done| |rewrite length_app; simpl; lia].
      split_and!; simpl; [lia| |done].
      exists line. split; [|done].
      replace (length pre + 1 - 1) with (length pre) by lia.
      by rewrite list_lookup_middle.
    + destruct (match_declaration line) as [[t n]|]; [|done].
      eapply (NoDup_starts_dict_set _ _ _ (length pre)); [|done|done].
      eapply Forall_impl; [exact Hacc|]. by intros x (? & ? & ?).
Qed.

Lemma second_pass_names lines l :
  name <$> second_pass lines l = name <$> l.
Proof. induction l as [|x l IH]; csimpl; [done|]. by rewrite IH. Qed.

Lemma second_pass_spanned lines l :
  StronglySorted (λ a b, start_line a < start_line b) l →
  Forall (λ x, located lines x ∧ start_line x ≤ length lines) l →
  Forall (λ y, located lines y ∧ spanned lines y) (second_pass lines l).
Proof.
  induction 1 as [|x l Hl IH Hx]; intros Hall; cbn [second_pass]; [done|].
  apply Forall_cons in Hall as [[Hloc Hlen] Hall].
  constructor; [|by apply IH].
  split; [done|]. unfold spanned. simpl.
  split_and!; [| |done|done].
  - destruct l as [|next l]; [done|].
    apply Forall_cons in Hx as [Hlt _]. lia.
  - destruct l as [|next l]; [done|].
    apply Forall_cons in Hall as [[_ Hnext] _]. lia.
Qed.

Lemma find_app {A} (f : A → bool) (l1 l2 : list A) :
  List.find f (l1 ++ l2)
  = match List.find f l1 with Some x => Some x | None => List.find f l2 end.
Proof. induction l1 as [|x l1 IH]; simpl; [done|]. by destruct (f x). Qed.

Lemma dict_get_write_back (d : dict Declaration) infos k :
  dict_get (write_back d infos) k
  = match List.find (λ i, bool_decide (name i = k)) (rev infos) with
    | Some i => Some i
    | None => dict_get d k
    end.
Proof.
  unfold write_back. revert d.
  induction infos as [|i infos IH]; intros d; simpl; [done|].
  rewrite IH, find_app.
  destruct (List.find _ (rev infos)); [done|]. simpl.
  rewrite dict_get_set. case_bool_decide; by case_decide.
Qed.

Lemma dict_get_third_pass (d : dict Declaration) k :
  dict_get (third_pass d) k
  = with_found_dependencies (keys d) k <$> dict_get d k.
Proof.
  unfold third_pass. generalize (keys d) as names. intros names.
  induction d as [|[n info] d IH]; csimpl; [done|].
  destruct (decide (n = k)) as [->|]; [done|]. apply IH.
Qed.

Lemma find_name_elem_of (infos : list Declaration) k i :
  List.find (λ i, bool_decide (name i = k)) infos = Some i →
  i ∈ infos ∧ name i = k.
Proof.
  intros H. apply find_some in H as [Hin Hk].
  apply list_elem_of_In in Hin. by apply bool_decide_eq_true in Hk.
Qed.

Lemma find_name_None (infos : list Declaration) k :
  List.find (λ i, bool_decide (name i = k)) infos = None →
  k ∉ name <$> infos.
Proof.
  intros H Hin. apply list_elem_of_fmap in Hin as (i & -> & Hin).
  apply list_elem_of_In in Hin.
  pose proof (find_none _ _ H i Hin) as Hk. simpl in Hk.
  by apply bool_decide_eq_false in Hk.
Qed.

(** Every entry of the table that [_extract_declarations] builds is
    filed under its own name; it points at a line of the file that
    declares that name with the entry's keyword; its lines, from that
    line to [end_line], lie within the file and give its text; [has_proof]
    tells whether a lemma or theorem holds [:=]; and its dependencies are
    the other names of the table that occur as whole words in its text,
    none for an axiom. *)
Theorem extract_declarations_shape (lines : list str) (k : str)
    (d : Declaration) :
  dict_get (_extract_declarations lines) k = Some d →
  name d = k
  ∧ 1 ≤ start_line d ∧ start_line d ≤ end_line d ∧ end_line d ≤ length lines
  ∧ (∃ line, lines !! (start_line d - 1) = Some line
             ∧ match_declaration line = Some (type d, k))
  ∧ full_text d
    = strip (join nl (slice_lines (start_line d - 1) (end_line d) lines))
  ∧ has_proof d
    = is_lemma_or_theorem (type d) && contains (lit ":=") (full_text d)
  ∧ (∀ x, x ∈ dependencies d ↔
          is_axiom (type d) = false ∧ x ≠ k
          ∧ x ∈ keys (_extract_declarations lines)
          ∧ search_word x (full_text d) = true).
Proof.
  unfold _extract_declarations. rewrite keys_third_pass.
  set (d1 := first_pass 0 lines []).
  set (infos := second_pass lines (sorted_by start_line (values d1))).
  set (d2 := write_back d1 infos).
  destruct (first_pass_located [] lines []) as [Hd1 Hnd]; [done|constructor|].
  simpl in Hd1, Hnd. fold d1 in Hd1, Hnd.
  assert (Forall (λ x, located lines x ∧ start_line x ≤ length lines)
            (values d1)) as Hvalues.
  { unfold values. apply Forall_fmap. eapply Forall_impl; [exact Hd1|].
    by intros x (? & ? & ?). }
  assert (name <$> values d1 = keys d1) as Hnames.
  { unfold values, keys. rewrite <- list_fmap_compose.
    apply Forall_fmap_ext. eapply Forall_impl; [exact Hd1|].
    by intros x (? & ? & ?). }
  assert (Forall (λ y, located lines y ∧ spanned lines y) infos) as Hinfos.
  { apply second_pass_spanned.
    - apply sorted_by_sorted. unfold values. rewrite <- list_fmap_compose.
      exact Hnd.
    - by apply sorted_by_Forall. }
  rewrite dict_get_third_pass. intros Hget.
  apply fmap_Some in Hget as (y & Hy & ->).
  assert (y ∈ infos ∧ name y = k) as [Hin Hname].
  { subst d2. rewrite dict_get_write_back in Hy.
    destruct (List.find _ (rev infos)) as [i|] eqn:Hfind.
    - injection Hy as ->. apply find_name_elem_of in Hfind as [Hin Hk].
      split; [|done]. apply list_elem_of_In. apply in_rev.
      by apply list_elem_of_In.
    - exfalso. apply find_name_None in Hfind. apply Hfind.
      rewrite <- (Permutation_rev infos). subst infos.
      rewrite second_pass_names, sorted_by_Permutation, Hnames.
      destruct (decide (k ∈ keys d1)) as [|Hn]; [done|].
      apply dict_get_None in Hn. congruence. }
  rewrite Forall_forall in Hinfos.
  destruct (Hinfos y Hin) as [(Hpos & (line & Hline & Hmatch) & Hdeps)
                               (Hle & Hlen & Htext & Hproof)].
  assert (name (with_found_dependencies (keys d2) k y) = name y
          ∧ type (with_found_dependencies (keys d2) k y) = type y
          ∧ start_line (with_found_dependencies (keys d2) k y) = start_line y
          ∧ end_line (with_found_dependencies (keys d2) k y) = end_line y
          ∧ full_text (with_found_dependencies (keys d2) k y) = full_text y
          ∧ has_proof (with_found_dependencies (keys d2) k y) = has_proof y)
    as (-> & -> & -> & -> & -> & ->).
  { unfold with_found_dependencies. by destruct (_ || _). }
  rewrite Hname in Hmatch.
  split_and!; [done|done|done|done|by exists line|done|done|].
  intros x. unfold with_found_dependencies.
  destruct (type y) eqn:Ht; cbn [is_lemma_or_theorem is_def is_axiom orb].
  - rewrite Hdeps. split; [intros H; by apply elem_of_empty in H|by intros [? _]].
  - cbn [dependencies with_dependencies]. rewrite Hdeps, (left_id_L ∅ (∪)).
    rewrite elem_of_list_to_set, list_elem_of_In, filter_In,
      <- list_elem_of_In, andb_true_iff, negb_true_iff, bool_decide_eq_false.
    intuition.
  - cbn [dependencies with_dependencies]. rewrite Hdeps, (left_id_L ∅ (∪)).
    rewrite elem_of_list_to_set, list_elem_of_In, filter_In,
      <- list_elem_of_In, andb_true_iff, negb_true_iff, bool_decide_eq_false.
    intuition.
  - cbn [dependencies with_dependencies]. rewrite Hdeps, (left_id_L ∅ (∪)).
    rewrite elem_of_list_to_set, list_elem_of_In, filter_In,
      <- list_elem_of_In, andb_true_iff, negb_true_iff, bool_decide_eq_false.
    intuition.
Qed.

End ExtractionShape.

(** ** Proof analysis: the declaration table, on an example *)

Section ExtractionShapeExample.
Import Py Analysis.

(** [extract_declarations_shape] on the lemma [L] of [example_code]. *)
Lemma extract_declarations_shape_witness :
  let lines := split_lines example_code in
  ∃ d, dict_get (_extract_declarations lines) (lit "L") = Some d
       ∧ name d = lit "L"
       ∧ 1 ≤ start_line d ∧ start_line d ≤ end_line d
       ∧ end_line d ≤ length lines
       ∧ (∃ line, lines !! (start_line d - 1) = Some line
                  ∧ match_declaration line = Some (type d, lit "L"))
       ∧ full_text d
         = strip (join nl (slice_lines (start_line d - 1) (end_line d) lines))
       ∧ has_proof d
         = is_lemma_or_theorem (type d) && contains (lit ":=") (full_text d)
       ∧ (∀ x, x ∈ dependencies d ↔
               is_axiom (type d) = false ∧ x ≠ lit "L"
               ∧ x ∈ keys (_extract_declarations lines)
               ∧ search_word x (full_text d) = true).
Proof.
  intros lines.
  assert (∃ d, dict_get (_extract_declarations lines) (lit "L") = Some d)
    as [d Hd].
  { eexists. vm_compute. reflexivity. }
  exists d. split; [exact Hd|].
  exact (extract_declarations_shape lines (lit "L") d Hd).
Defined.

End ExtractionShapeExample.

(** ** Output normalisation: comments, splitting, acceptance *)

Section Normalisation.
Import Py Lightweight.

Lemma contains_cons_false (sub : str) (c : ascii) (s : str) :
  contains sub (c :: s) = false →
  startswith sub (c :: s) = false ∧ contains sub s = false.
Proof.
  unfold contains. cbn [find].
  destruct (startswith sub (c :: s)); [done|].
  destruct (find sub s); [done|]. done.
Qed.

Lemma is2_startswith (c c2 : ascii) (a b : ascii) (s : str) :
  eqb [c; c2] [a; b] = startswith [a; b] (c :: c2 :: s).
Proof.
  simpl. rewrite (Ascii.eqb_sym c a), (Ascii.eqb_sym c2 b).
  by rewrite !andb_true_r.
Qed.

(** [remove_lean_comments] returns a text that opens no comment as it
    is. *)
Theorem remove_lean_comments_without_comments (lean_code : str) :
  contains (lit "--") lean_code = false →
  contains (lit "/-") lean_code = false →
  remove_lean_comments lean_code = lean_code.
Proof.
  unfold remove_lean_comments.
  induction lean_code as [|c s IH]; intros Hline Hblock; [done|].
  apply contains_cons_false in Hline as [Hl1 Hl2].
  apply contains_cons_false in Hblock as [Hb1 Hb2].
  cbn [remove_lean_comments_from].
  destruct s as [|c2 s''].
  - done.
  - unfold is2.
    change (lit "/-") with ["/"%char; "-"%char] in *.
    change (lit "--") with ["-"%char; "-"%char] in *.
    rewrite (is2_startswith c c2 _ _ s''), Hb1.
    rewrite (is2_startswith c c2 _ _ s''), Hl1.
    f_equal. by apply IH.
Qed.

(** The three keywords at which a proof is split. *)
Definition statement_at (prev : option ascii) (s : str) : bool :=
  word_at (lit "axiom") prev s || word_at (lit "lemma") prev s
  || word_at (lit "theorem") prev s.

Lemma search_statement_from_Some (prev : option ascii) (s : str) (idx : nat) :
  search_statement_from prev s = Some idx →
  startswith (lit "axiom") (drop idx s) = true
  ∨ startswith (lit "lemma") (drop idx s) = true
  ∨ startswith (lit "theorem") (drop idx s) = true.
Proof.
  revert prev idx. induction s as [|c s IH]; intros prev idx.
  - cbn [search_statement_from].
    destruct (word_at (lit "axiom") prev [] || word_at (lit "lemma") prev []
              || word_at (lit "theorem") prev []) eqn:Hw; [|done].
    intros [= <-]. unfold word_at in Hw. simpl in Hw. done.
  - cbn [search_statement_from].
    destruct (word_at (lit "axiom") prev (c :: s)
              || word_at (lit "lemma") prev (c :: s)
              || word_at (lit "theorem") prev (c :: s)) eqn:Hw.
    + intros [= <-]. rewrite drop_0.
      rewrite !orb_true_iff in Hw. unfold word_at in Hw.
      rewrite !andb_true_iff in Hw. tauto.
    + destruct (search_statement_from (Some c) s) as [j|] eqn:Hj; [|done].
      intros [= <-]. simpl. by eapply IH.
Qed.

(** One of the three keywords stands, as a whole word, at position [i] of
    a text that follows the character [prev]. *)
Definition keyword_from (prev : option ascii) (s : str) (i : nat) : bool :=
  statement_at (match last (take i s) with Some c => Some c | None => prev end)
    (drop i s).

(** One of the three keywords stands, as a whole word, at position [i] of
    the text. *)
Definition keyword_at (s : str) (i : nat) : bool := keyword_from None s i.

Lemma statement_at_nil (prev : option ascii) : statement_at prev [] = false.
Proof. done. Qed.

Lemma keyword_from_cons (prev : option ascii) (c : ascii) (s : str) (i : nat) :
  keyword_from prev (c :: s) (S i) = keyword_from (Some c) s i.
Proof.
  unfold keyword_from. cbn [take drop]. rewrite last_cons.
  by destruct (last (take i s)).
Qed.

(** The position that [re.search] finds is the first at which a keyword
    stands as a whole word. *)
Lemma search_statement_from_first (prev : option ascii) (s : str) :
  match search_statement_from prev s with
  | Some idx =>
      idx ≤ length s ∧ keyword_from prev s idx = true
      ∧ ∀ i, i < idx → keyword_from prev s i = false
  | None => ∀ i, keyword_from prev s i = false
  end.
Proof.
  revert prev. induction s as [|c s IH]; intros prev.
  - cbn [search_statement_from]. fold (statement_at prev []).
    rewrite statement_at_nil. intros i. unfold keyword_from.
    rewrite drop_nil. apply statement_at_nil.
  - cbn [search_statement_from]. fold (statement_at prev (c :: s)).
    destruct (statement_at prev (c :: s)) eqn:Hw.
    + split_and!; [simpl; lia|done|intros i Hi; lia].
    + specialize (IH (Some c)).
      destruct (search_statement_from (Some c) s) as [j|]; simpl.
      * destruct IH as (Hj & Hat & Hfirst). split_and!; [lia| |].
        -- by rewrite keyword_from_cons.
        -- intros [|i] Hi; [done|]. rewrite keyword_from_cons.
           apply Hfirst. lia.
      * intros [|i]; [done|]. by rewrite keyword_from_cons.
Qed.

(** [split_proof_at_first_statement] cuts the text in two at the first
    position at which [axiom], [lemma] or [theorem] stands as a whole word:
    the parts put together again are the text, no keyword stands at a
    position of the first part, and the second part begins with the
    keyword.  When no keyword stands anywhere in the text, the first part
    is the text and the second is empty. *)
Theorem split_proof_at_first_statement_parts (proof : str) :
  let '(before, after) := split_proof_at_first_statement proof in
  before ++ after = proof
  ∧ (∀ i, i < length before → keyword_at proof i = false)
  ∧ (((∀ i, keyword_at proof i = false) ∧ before = proof ∧ after = [])
     ∨ (keyword_at proof (length before) = true
        ∧ after = drop (length before) proof
        ∧ (startswith (lit "axiom") after = true
           ∨ startswith (lit "lemma") after = true
           ∨ startswith (lit "theorem") after = true))).
Proof.
  unfold split_proof_at_first_statement, keyword_at.
  pose proof (search_statement_from_first None proof) as Hfirst.
  destruct (search_statement_from None proof) as [idx|] eqn:Hs.
  - destruct Hfirst as (Hidx & Hat & Hbefore).
    assert (length (take idx proof) = idx) as Hlen
      by (rewrite length_take; lia).
    rewrite Hlen. split_and!; [apply take_drop|done|]. right.
    split_and!; [done|done|]. by apply (search_statement_from_Some None).
  - split_and!; [apply app_nil_r|intros i _; apply Hfirst|]. by left.
Qed.

Lemma startswith_prefix (p s : str) :
  startswith p s = true → s = p ++ drop (length p) s.
Proof.
  revert s. induction p as [|a p IH]; intros s; [done|].
  destruct s as [|b s]; [done|]. simpl.
  intros H. apply andb_true_iff in H as [Hab Hp].
  apply Ascii.eqb_eq in Hab as ->. f_equal. by apply IH.
Qed.

Lemma find_Some (sub s : str) (i : nat) :
  find sub s = Some i → drop i s = sub ++ drop (i + length sub) s.
Proof.
  revert i. induction s as [|c s IH]; intros i; cbn [find].
  - destruct (startswith sub []) eqn:Hs; [|done].
    intros [= <-]. by apply startswith_prefix in Hs.
  - destruct (startswith sub (c :: s)) eqn:Hs.
    + intros [= <-]. by apply startswith_prefix in Hs.
    + destruct (find sub s) as [j|] eqn:Hj; [|done].
      intros [= <-]. simpl. by apply IH.
Qed.

Lemma split_fuel_nonempty (fuel : nat) (sep s : str) :
  split_fuel fuel sep s ≠ [].
Proof. destruct fuel; simpl; [done|]. by destruct (find sep s). Qed.

(** Joining what [split] gives with the separator gives the text back. *)
Lemma join_split_fuel (fuel : nat) (sep s : str) :
  join sep (split_fuel fuel sep s) = s.
Proof.
  revert s. induction fuel as [|fuel IH]; intros s; [done|].
  cbn [split_fuel]. destruct (find sep s) as [i|] eqn:Hf; [|done].
  rewrite join_cons by apply split_fuel_nonempty.
  rewrite IH, <- (find_Some _ _ _ Hf). apply take_drop.
Qed.

Lemma drop_split (sep s : str) (i : nat) :
  find sep s = Some i →
  sep ++ join sep (drop 1 (split sep s)) = drop i s.
Proof.
  intros Hf. unfold split. cbn [split_fuel]. rewrite Hf. simpl.
  rewrite drop_0, join_split_fuel. symmetry. by apply find_Some.
Qed.

Lemma split_absent (sep s : str) :
  find sep s = None → drop 1 (split sep s) = [].
Proof. intros Hf. unfold split. cbn [split_fuel]. by rewrite Hf. Qed.

(** [remove_comments_and_axioms_from_proof] keeps the text, comments
    removed and stripped, from its first [lemma] on; without any [lemma],
    from its first [theorem] on; and when the text holds neither, what it
    returns is the bare word [theorem]. *)
Theorem remove_comments_and_axioms_keeps_from_first_keyword (proof : str) :
  let cleaned := strip (remove_lean_comments proof) in
  remove_comments_and_axioms_from_proof proof
  = match find (lit "lemma") cleaned with
    | Some i => strip (drop i cleaned)
    | None =>
        match find (lit "theorem") cleaned with
        | Some i => strip (drop i cleaned)
        | None => lit "theorem"
        end
    end.
Proof.
  intros cleaned. unfold remove_comments_and_axioms_from_proof.
  fold cleaned. unfold contains.
  destruct (find (lit "lemma") cleaned) as [i|] eqn:Hl.
  - by rewrite (drop_split _ _ _ Hl).
  - destruct (find (lit "theorem") cleaned) as [i|] eqn:Ht.
    + by rewrite (drop_split _ _ _ Ht).
    + by rewrite (split_absent _ _ Ht).
Qed.

Lemma startswith_app_l (p s : str) : startswith p (p ++ s) = true.
Proof.
  induction p as [|a p IH]; [done|]. simpl.
  by rewrite Ascii.eqb_refl, IH.
Qed.

(** The header that [process_import_part] builds begins with the default
    imports and the heartbeat option, whatever it is given. *)
Lemma process_import_part_default (header : str) :
  startswith DEFAULT_HEADER_NO_OPEN (process_import_part header) = true.
Proof.
  unfold process_import_part.
  destruct (extract_open_line header) as [[|c line]|];
    [by vm_compute|apply startswith_app_l|by vm_compute].
Qed.

(** Whether the output holds a fenced block, [lean4] or [lean]. *)
Definition fenced (output : str) : bool :=
  match last (findall (lit "```lean4") output),
        last (findall (lit "```lean") output) with
  | None, None => false
  | _, _ => true
  end.

(** A candidate that is not rejected is returned behind a header that
    begins with the default imports and the heartbeat option.  The facts,
    when there are any, stand between the header and the candidate,
    provided that the candidate came from a fenced block: for an output
    without a fenced block the facts are left out. *)
Theorem accepted_candidate_behind_header
    (output statement : str) (facts : option (list str)) :
  rejected (candidate output statement) = false →
  let header :=
    process_import_part (fst (split_proof_at_first_statement statement)) in
  let facts_block :=
    match facts with
    | Some (f :: fs) =>
        if fenced output
        then nl ++ nl ++ join (nl ++ nl) (f :: fs) ++ nl ++ nl
        else []
    | _ => []
    end in
  startswith DEFAULT_HEADER_NO_OPEN header = true
  ∧ InferenceHandler.process_output output statement facts
    = header ++ facts_block ++ candidate output statement
  ∧ RevisionHandler.process_output output statement facts
    = header ++ facts_block ++ candidate output statement.
Proof.
  intros Hacc header facts_block.
  split; [apply process_import_part_default|].
  unfold InferenceHandler.process_output, RevisionHandler.process_output.
  assert (process_output_body output statement facts
          = header ++ facts_block ++ candidate output statement) as ->; [|done].
  subst header facts_block.
  unfold process_output_body, candidate, fenced in *.
  destruct (last (findall (lit "```lean4") output)) as [m|].
  - rewrite Hacc. destruct facts as [[|f fs]|]; [done| |done].
    by rewrite <- !app_assoc.
  - destruct (last (findall (lit "```lean") output)) as [m|]; simpl in Hacc;
      rewrite Hacc.
    + destruct facts as [[|f fs]|]; [done| |done]. by rewrite <- !app_assoc.
    + by destruct facts as [[|f fs]|].
Qed.

End Normalisation.

(** ** Output normalisation, on examples *)

Section NormalisationExamples.
Import Py Lightweight.

(** [remove_lean_comments_without_comments] on a one-line proof. *)
Lemma remove_lean_comments_without_comments_witness :
  remove_lean_comments (lit "theorem t : 1 - 1 = 0 := by simp")
  = lit "theorem t : 1 - 1 = 0 := by simp".
Proof.
  apply remove_lean_comments_without_comments; vm_compute; reflexivity.
Defined.

(** [accepted_candidate_behind_header] on an output without a fenced
    block: the fact given is not part of what is returned. *)
Lemma accepted_candidate_behind_header_witness :
  let output := lit "theorem t : 1 + 1 = 2 := by" ++ nl ++ lit "  norm_num" in
  let statement :=
    lit "import Mathlib" ++ nl ++ nl ++ lit "theorem t : 1 + 1 = 2 := by sorry" in
  let facts := Some [lit "lemma h : True"] in
  let header :=
    process_import_part (fst (split_proof_at_first_statement statement)) in
  startswith DEFAULT_HEADER_NO_OPEN header = true
  ∧ InferenceHandler.process_output output statement facts
    = header ++ [] ++ candidate output statement
  ∧ RevisionHandler.process_output output statement facts
    = header ++ [] ++ candidate output statement.
Proof.
  intros output statement facts.
  apply (accepted_candidate_behind_header output statement facts).
  vm_compute. reflexivity.
Defined.

End NormalisationExamples.

(** ** Proof analysis: renaming leaves other text alone *)

Section Renaming.
Import Py Analysis.

Lemma isspace_not_word (c : ascii) : isspace c = true → isword c = false.
Proof.
  destruct c as [[] [] [] [] [] [] [] []]; vm_compute; intros H;
    first [reflexivity | discriminate H].
Qed.

Lemma takewhile_drop {A} (f : A → bool) (l : list A) :
  l = takewhile f l ++ drop (length (takewhile f l)) l.
Proof.
  induction l as [|x l IH]; [done|]. simpl.
  destruct (f x); simpl; [by f_equal|done].
Qed.

Lemma takewhile_Forall {A} (f : A → bool) (l : list A) :
  Forall (λ x, f x = true) (takewhile f l).
Proof.
  induction l as [|x l IH]; simpl; [done|].
  destruct (f x) eqn:Hx; by constructor.
Qed.

Lemma parse_keyword_app (s rest : str) (t : DeclType) :
  parse_keyword s = Some (t, rest) → s = keyword t ++ rest.
Proof.
  unfold parse_keyword.
  destruct (startswith (lit "axiom") s) eqn:H1;
    [intros [= <- <-]; by apply (startswith_prefix (lit "axiom"))|].
  destruct (startswith (lit "lemma") s) eqn:H2;
    [intros [= <- <-]; by apply (startswith_prefix (lit "lemma"))|].
  destruct (startswith (lit "theorem") s) eqn:H3;
    [intros [= <- <-]; by apply (startswith_prefix (lit "theorem"))|].
  destruct (startswith (lit "def") s) eqn:H4;
    [intros [= <- <-]; by apply (startswith_prefix (lit "def"))|done].
Qed.

(** A word found behind a prefix is found by the search from the start. *)
Lemma search_word_from_app (name pre t : str) (prev : option ascii) :
  word_at name (match last pre with Some c => Some c | None => prev end) t = true →
  search_word_from name prev (pre ++ t) = true.
Proof.
  revert prev. induction pre as [|c pre IH]; intros prev Hw.
  - simpl in *. destruct t; simpl; by rewrite Hw.
  - cbn [app search_word_from]. apply orb_true_iff. right. apply IH.
    destruct pre as [|c2 pre]; [done|].
    change (last (c :: c2 :: pre)) with (last (c2 :: pre)) in Hw.
    destruct (last (c2 :: pre)) as [c'|] eqn:Hl; [done|].
    by apply last_None in Hl.
Qed.

Lemma takewhile_last_space (rest : str) :
  negb (is_empty (takewhile isspace rest)) = true →
  ∃ l w, takewhile isspace rest = l ++ [w] ∧ isspace w = true.
Proof.
  pose proof (takewhile_Forall isspace rest) as Hall. revert Hall.
  generalize (takewhile isspace rest). intros ws.
  induction ws as [|w l _] using rev_ind; intros Hall Hne.
  { simpl in Hne. discriminate Hne. }
  exists l, w. split; [done|].
  apply Forall_app in Hall as [_ Hall]. by inversion Hall.
Qed.

Lemma declaration_at_word (old_name s : str) (x : str * nat)
    (prev : option ascii) :
  declaration_at old_name s = Some x →
  isword_opt (head old_name) = true →
  search_word_from old_name prev s = true.
Proof.
  unfold declaration_at. intros Hd Hhead.
  pose proof (takewhile_drop isspace s) as Es. revert Hd Es.
  generalize (takewhile isspace s). intros ws.
  generalize (drop (length ws) s). intros s1 Hd Es.
  destruct (parse_keyword s1) as [[t rest]|] eqn:Hk; [|done].
  apply parse_keyword_app in Hk.
  destruct (negb (is_empty (takewhile isspace rest))) eqn:Hws; [|done].
  destruct (takewhile_last_space rest Hws) as (l & w & Hl & Hw).
  pose proof (takewhile_drop isspace rest) as Er. revert Hd Er.
  rewrite Hl. generalize (drop (length (l ++ [w])) rest). intros rest2 Hd Er.
  cbn [andb] in Hd.
  destruct (startswith old_name rest2) eqn:Hstart; [|done].
  destruct (boundary (last old_name) (head (drop (length old_name) rest2)))
    eqn:Hb; [|done].
  assert (s = ((ws ++ keyword t ++ l) ++ [w]) ++ rest2) as ->.
  { rewrite Es, Hk, Er. by rewrite <- !app_assoc. }
  apply search_word_from_app. rewrite last_snoc.
  destruct old_name as [|a old_name]; [done|].
  unfold word_at. rewrite Hstart. cbn [andb].
  pose proof (startswith_prefix _ _ Hstart) as Hrest2.
  apply andb_true_iff. split.
  - rewrite Hrest2. simpl. unfold boundary. simpl.
    rewrite (isspace_not_word w Hw). simpl in Hhead. by rewrite Hhead.
  - destruct (last (a :: old_name)) as [c|] eqn:Hlast; [done|].
    by apply last_None in Hlast.
Qed.

Lemma sub_word_from_absent (old_name new_name s : str) (prev : option ascii) :
  search_word_from old_name prev s = false →
  sub_word_from old_name new_name 0 prev s = s.
Proof.
  revert prev. induction s as [|c s IH]; intros prev Hs; [done|].
  cbn [search_word_from] in Hs. apply orb_false_iff in Hs as [Hw Hs].
  cbn [sub_word_from]. rewrite Hw. f_equal. by apply IH.
Qed.

Lemma sub_declaration_from_absent (old_name new_name s : str)
    (prev : option ascii) :
  isword_opt (head old_name) = true →
  search_word_from old_name prev s = false →
  sub_declaration_from old_name new_name 0 prev s = s.
Proof.
  intros Hhead. revert prev. induction s as [|c s IH]; intros prev Hs; [done|].
  cbn [sub_declaration_from].
  assert (declaration_at old_name (c :: s) = None) as Hnone.
  { destruct (declaration_at old_name (c :: s)) as [x|] eqn:Hd; [|done].
    rewrite (declaration_at_word _ _ x prev Hd Hhead) in Hs. done. }
  rewrite Hnone. destruct (at_line_start prev); f_equal; apply IH;
    cbn [search_word_from] in Hs; by apply orb_false_iff in Hs as [_ Hs].
Qed.

(** [_rename_declaration_in_text] changes nothing in a text in which the
    old name does not occur as a whole word (for a name that begins with
    a word character). *)
Theorem rename_declaration_absent_name (text old_name new_name : str) :
  isword_opt (head old_name) = true →
  search_word old_name text = false →
  _rename_declaration_in_text text old_name new_name = text.
Proof.
  intros Hhead Hs. unfold _rename_declaration_in_text, sub_word.
  rewrite sub_declaration_from_absent by done.
  by apply sub_word_from_absent.
Qed.

End Renaming.

Section RenamingExample.
Import Py Analysis.

(** [rename_declaration_absent_name] on a text that holds [A_1] but not
    the word [A]. *)
Lemma rename_declaration_absent_name_witness :
  _rename_declaration_in_text (lit "lemma A_1 : f 5 = 5 := by rfl")
    (lit "A") (lit "B")
  = lit "lemma A_1 : f 5 = 5 := by rfl".
Proof.
  apply rename_declaration_absent_name; vm_compute; reflexivity.
Defined.

End RenamingExample.

(** ** Compilation pool: the import block is a block of imports *)

Section ImportBlock.
Import Py CompilerPool.

Lemma dropwhile_idemp {A} (f : A → bool) (l : list A) :
  dropwhile f (dropwhile f l) = dropwhile f l.
Proof.
  induction l as [|x l IH]; [done|]. simpl.
  destruct (f x) eqn:Hx; [done|]. simpl. by rewrite Hx.
Qed.

Lemma rstrip_idemp (s : str) : rstrip (rstrip s) = rstrip s.
Proof. unfold rstrip. by rewrite rev_involutive, dropwhile_idemp. Qed.

Lemma stripped_import_line (line : str) :
  startswith (lit "import") (strip line) = true → import_line (strip line).
Proof.
  intros Hstart. split; [done|].
  destruct (strip line) as [|a t] eqn:Ht; [done|].
  change (lit "import") with ("i"%char :: lit "mport") in Hstart.
  cbn [startswith] in Hstart. apply andb_true_iff in Hstart as [Ha _].
  apply Ascii.eqb_eq in Ha as <-.
  change (strip ("i"%char :: t)) with (rstrip ("i"%char :: t)).
  rewrite <- Ht. unfold strip. apply rstrip_idemp.
Qed.

Lemma split_loop_import_lines rest saw idx import_lines body_lines :
  Forall import_line import_lines →
  Forall import_line (split_loop rest saw idx import_lines body_lines).1.2.
Proof.
  revert saw idx import_lines body_lines.
  induction rest as [|line rest IH]; intros saw idx import_lines body_lines Hall;
    [done|].
  cbn [split_loop].
  destruct (startswith (lit "import") (strip line)) eqn:Hstart.
  - apply IH. apply Forall_app. split; [done|].
    apply Forall_singleton. by apply stripped_import_line.
  - destruct saw; [done|]. by apply IH.
Qed.

Lemma split_loop_import_origin (all rest : list str) saw idx
    import_lines body_lines :
  (∀ l, l ∈ rest → l ∈ all) →
  Forall (λ l, l ∈ strip <$> all) import_lines →
  Forall (λ l, l ∈ strip <$> all)
    (split_loop rest saw idx import_lines body_lines).1.2.
Proof.
  revert saw idx import_lines body_lines.
  induction rest as [|line rest IH];
    intros saw idx import_lines body_lines Hsub Hall; [done|].
  assert (∀ l, l ∈ rest → l ∈ all) as Hrest.
  { intros l Hl. apply Hsub. apply elem_of_cons. by right. }
  cbn [split_loop].
  destruct (startswith (lit "import") (strip line)) eqn:Hstart.
  - apply IH; [done|]. apply Forall_app. split; [done|].
    apply Forall_singleton. apply list_elem_of_fmap_2. apply Hsub.
    apply elem_of_cons. by left.
  - destruct saw; [done|]. by apply IH.
Qed.

(** Whatever the source, the import block that [split_import_and_body]
    returns is a non-empty block of lines joined by line feeds, each of
    which begins with the characters [import] (that is the test of the
    code: a line such as [important_def] passes it) and has no white space
    around it; the lines are the two default imports, or they are lines of
    the source, stripped. *)
Theorem import_block_is_imports (code : str) :
  ∃ import_lines,
    import_lines ≠ []
    ∧ Forall import_line import_lines
    ∧ (split_import_and_body code DEFAULT_IMPORTS).1 = join nl import_lines
    ∧ (import_lines = [lit "import Mathlib"; lit "import Aesop"]
       ∨ Forall (λ l, l ∈ strip <$> splitlines code) import_lines).
Proof.
  unfold split_import_and_body.
  pose proof (split_loop_import_lines (splitlines code) false (-1) [] []
                (Forall_nil_2 _)) as Hall.
  pose proof (split_loop_import_origin (splitlines code) (splitlines code)
                false (-1) [] [] (λ _ Hl, Hl) (Forall_nil_2 _)) as Horigin.
  destruct (split_loop (splitlines code) false (-1) [] [])
    as [[[saw idx] import_lines] body_lines].
  simpl in Hall, Horigin.
  set (moved := if saw && (idx + 1 <? Z.of_nat (length import_lines))%Z
                then _ else (import_lines, body_lines)).
  assert (Forall import_line moved.1
          ∧ Forall (λ l, l ∈ strip <$> splitlines code) moved.1)
    as [Hmoved Hfrom].
  { subst moved. destruct (saw && _); [|done]. simpl.
    split; by apply Forall_take. }
  destruct moved as [import_lines' body_lines']. simpl in Hmoved, Hfrom.
  rewrite default_import_lines_eq.
  destruct (issubset import_lines' _) eqn:Hsub; simpl.
  - exists [lit "import Mathlib"; lit "import Aesop"].
    split_and!; [done| |apply strip_DEFAULT_IMPORTS|by left].
    repeat constructor.
  - exists import_lines'.
    split_and!; [|done|by apply strip_join_imports|by right].
    intros ->. done.
Qed.

End ImportBlock.

(** ** The inference scheduler: tasks and futures *)

Section SchedulerTasks.
Import Py Scheduler.

Lemma counts_remove_count (e : Entry) (q : list Entry) :
  e ∈ q →
  count <$> q ≡ₚ count e :: (count <$> remove_count (count e) q).
Proof.
  induction q as [|x q IH]; intros Hin; [by apply elem_of_nil in Hin|].
  cbn [remove_count]. destruct (count x =? count e) eqn:Hc.
  - apply Nat.eqb_eq in Hc. csimpl. by rewrite Hc.
  - apply elem_of_cons in Hin as [->|Hin];
      [by rewrite Nat.eqb_refl in Hc|].
    csimpl. rewrite (IH Hin). apply Permutation_swap.
Qed.

Lemma accounted_act (s : InferenceSchedulerService) (a : Action) :
  dispatched s ++ (count <$> _queue s) ≡ₚ seq 0 (_task_counter s) →
  dispatched (act s a) ++ (count <$> _queue (act s a))
  ≡ₚ seq 0 (_task_counter (act s a)).
Proof.
  intros Hs. destruct a as [p m prio extra|n| |n http].
  - cbn [act inference _queue dispatched _task_counter]. unfold queue_put.
    rewrite fmap_app, app_assoc, Hs, seq_S. done.
  - done.
  - cbn [act]. unfold worker_get.
    destruct (queue_get (_queue s)) as [[e q']|] eqn:Hq; [|done].
    cbn [_queue dispatched _task_counter].
    apply queue_get_spec in Hq as (Hin & -> & _).
    rewrite <- Hs, <- app_assoc. apply Permutation_app_head.
    symmetry. by apply counts_remove_count.
  - cbn [act]. unfold worker_finish. by destruct (List.find _ _).
Qed.

(** No task is lost and none is taken twice: at any time the tasks that
    workers have taken and the tasks that wait in the queue are, together,
    the tasks submitted so far, each once. *)
Theorem every_task_waits_or_is_dispatched (l : list Action) :
  dispatched (run init l) ++ (count <$> _queue (run init l))
  ≡ₚ seq 0 (_task_counter (run init l)).
Proof.
  unfold run.
  assert (H : ∀ s, dispatched s ++ (count <$> _queue s) ≡ₚ seq 0 (_task_counter s) →
                   dispatched (foldl act s l) ++ (count <$> _queue (foldl act s l))
                   ≡ₚ seq 0 (_task_counter (foldl act s l))).
  { induction l as [|a l IH]; intros s Hs; simpl; [done|].
    by apply IH, accounted_act. }
  by apply H.
Qed.

(** The futures that exist, and the tasks that workers hold, belong to
    submitted tasks. *)
Definition known (s : InferenceSchedulerService) : Prop :=
  (∀ n f, futures s !! n = Some f → n < _task_counter s)
  ∧ Forall (λ e, count e < _task_counter s) (running s)
  ∧ Forall (λ e, count e < _task_counter s) (_queue s).

Lemma remove_count_Forall (P : Entry → Prop) n q :
  Forall P q → Forall P (remove_count n q).
Proof.
  induction 1 as [|x q Hx Hq IH]; simpl; [done|].
  destruct (count x =? n); [done|]. by constructor.
Qed.

Lemma known_act s a : known s → known (act s a).
Proof.
  intros (Hf & Hr & Hq). destruct a as [p m prio extra|k| |k http].
  - simpl. split_and!; simpl.
    + intros n f. destruct (decide (n = _task_counter s)) as [->|Hn]; [lia|].
      rewrite lookup_insert_ne by done. intros H. specialize (Hf n f H). lia.
    + eapply Forall_impl; [exact Hr|]. simpl. lia.
    + unfold queue_put. apply Forall_app. split.
      * eapply Forall_impl; [exact Hq|]. simpl. lia.
      * apply Forall_singleton. simpl. lia.
  - simpl. split_and!; simpl;
      [|done|done].
    intros n f. destruct (futures s !! k) as [[]|] eqn:Hk; try apply Hf.
    destruct (decide (n = k)) as [->|Hn]; [intros _; by eapply Hf|].
    rewrite lookup_insert_ne by done. apply Hf.
  - simpl. unfold worker_get.
    destruct (queue_get (_queue s)) as [[e q']|] eqn:Hget; [|done].
    apply queue_get_spec in Hget as (Hin & -> & _).
    split_and!; simpl; [done| |].
    + apply Forall_app. split; [done|]. apply Forall_singleton.
      rewrite Forall_forall in Hq. by apply Hq.
    + by apply remove_count_Forall.
  - simpl. unfold worker_finish.
    destruct (List.find _ _) as [e|] eqn:He; [|done].
    apply find_some in He as [Hin Hc]. apply Nat.eqb_eq in Hc.
    apply list_elem_of_In in Hin.
    split_and!; simpl; [| |done].
    + intros n f. destruct (decide (n = k)) as [->|Hn].
      * intros _. rewrite Forall_forall in Hr. specialize (Hr e Hin). lia.
      * rewrite lookup_insert_ne by done. apply Hf.
    + by apply remove_count_Forall.
Qed.

Lemma known_run s l : known s → known (run s l).
Proof.
  revert s. induction l as [|a l IH]; intros s Hs; simpl; [done|].
  by apply IH, known_act.
Qed.

Lemma settled_act s a n f :
  known s → futures s !! n = Some f → done f = true →
  futures (act s a) !! n = Some f.
Proof.
  intros (Hf & _ & _) Hn Hdone. destruct a as [p m prio extra|k| |k http].
  - simpl. rewrite lookup_insert_ne; [done|].
    specialize (Hf n f Hn). lia.
  - simpl.
    destruct (futures s !! k) as [[]|] eqn:Hk; try done.
    destruct (decide (n = k)) as [->|Hne].
    + rewrite Hk in Hn. injection Hn as <-. done.
    + by rewrite lookup_insert_ne.
  - simpl. unfold worker_get. by destruct (queue_get _) as [[??]|].
  - simpl. unfold worker_finish.
    destruct (List.find _ _) as [e|]; [|done]. simpl.
    destruct (decide (n = k)) as [->|Hne].
    + rewrite lookup_insert_eq, Hn. simpl. f_equal.
      unfold settle. destruct (fst _); by rewrite Hdone.
    + by rewrite lookup_insert_ne.
Qed.

(** A future that is done stays as it is: a result, an exception or a
    cancellation is never replaced, whatever the scheduler does next.  In
    particular the result of a task whose caller has given up is
    discarded. *)
Theorem settled_future_is_kept (l1 l2 : list Action) (n : nat) (f : Future) :
  futures (run init l1) !! n = Some f →
  done f = true →
  futures (run (run init l1) l2) !! n = Some f.
Proof.
  assert (known (run init l1)) as Hk.
  { apply known_run. split_and!; [|constructor|constructor].
    intros k g Hg. simpl in Hg. by apply lookup_empty_Some in Hg. }
  revert Hk. generalize (run init l1). intros s. revert s.
  induction l2 as [|a l2 IH]; intros s Hk Hn Hdone; simpl; [done|].
  apply IH; [by apply known_act|by apply settled_act|done].
Qed.

End SchedulerTasks.

Section SchedulerTasksExample.
Import Py Scheduler.

(** [settled_future_is_kept]: a task is submitted and cancelled by its
    caller; a worker then takes it and gets a reply, and the future is
    still cancelled. *)
Lemma settled_future_is_kept_witness :
  let reply := λ _ : nat,
    Response 200
      (Some (JObject
               [(lit "choices",
                 JArray [JObject
                           [(lit "message",
                             JObject [(lit "content", JString (lit "ok"))])]])])) in
  let l1 := [Submit (PromptStr (lit "prove it")) (lit "prover") 2%Z []; Cancel 0] in
  let l2 := [Take; Finish 0 reply] in
  futures (run (run init l1) l2) !! 0 = Some Cancelled.
Proof.
  intros reply l1 l2.
  apply (settled_future_is_kept l1 l2 0 Cancelled); reflexivity.
Defined.

End SchedulerTasksExample.

(** ** Proof analysis: the table describes the code *)

Section Coherence.
Import Py Analysis.

(** Two analyses with the same code, lines and header, whose tables agree
    on names, order and cores. *)
Definition kept (st st' : ProofAnalysis) : Prop :=
  code st = code st' ∧ lines st = lines st'
  ∧ _original_code st = _original_code st' ∧ header st = header st'
  ∧ same_core (declarations st) (declarations st').

Lemma kept_refl st : kept st st.
Proof. split_and!; try done. apply same_core_refl. Qed.

Lemma kept_trans st1 st2 st3 : kept st1 st2 → kept st2 st3 → kept st1 st3.
Proof.
  intros (? & ? & ? & ? & Hs1) (? & ? & ? & ? & Hs2).
  split_and!; try congruence. by eapply same_core_trans.
Qed.

Lemma kept_frame st st' :
  frame st st' → same_core (declarations st) (declarations st') → kept st st'.
Proof. intros (? & ? & ? & ? & ? & ? & _) Hc. by split_and!. Qed.

Lemma kept_update st n f :
  (∀ v, core (f v) = core v) →
  kept st (set_declarations (dict_update (declarations st) n f) st).
Proof. intros Hf. split_and!; try done. simpl. by apply same_core_update. Qed.

Lemma kept_set_results st r : kept st (set_results r st).
Proof. split_and!; try done. apply same_core_refl. Qed.

Lemma kept_set_errors st e : kept st (set_errors e st).
Proof. split_and!; try done. apply same_core_refl. Qed.

Lemma record_results_kept named st : kept st (record_results named st).
Proof.
  revert st. induction named as [|[n [e|r]] named IH]; intros st;
    cbn [record_results]; [apply kept_refl| |].
  - eapply kept_trans; [|apply IH].
    eapply kept_trans; [apply (kept_set_errors st)|].
    by apply (kept_update (set_errors _ st)).
  - eapply kept_trans; [|apply IH].
    destruct (negb r).
    + eapply kept_trans; [by apply (kept_update st n (with_is_verified r))|].
      apply kept_set_errors.
    + by apply kept_update.
Qed.

Lemma gather_kept compile view names st :
  kept st (gather compile view names st).1.
Proof.
  revert st. induction names as [|n names IH]; intros st; cbn [gather];
    [apply kept_refl|].
  destruct (_verify_lemma_async compile view st n) as [st1 r] eqn:Hv.
  assert (kept st st1) as H1.
  { unfold _verify_lemma_async in Hv.
    destruct (negb (dict_mem (declarations view) n));
      [injection Hv as <- _; apply kept_refl|].
    destruct (_construct_verification_code view n) as [c|[m|m]];
      try (injection Hv as <- _; apply kept_set_results).
    destruct (compile _ c); injection Hv as <- _; apply kept_set_results. }
  specialize (IH st1).
  destruct (gather compile view names st1) as [st2 rs]. simpl in *.
  by eapply kept_trans.
Qed.

Lemma restore_loop_kept names old st : kept st (restore_loop names old st).
Proof.
  revert st. induction names as [|n names IH]; intros st; cbn [restore_loop];
    [apply kept_refl|].
  eapply kept_trans; [|apply IH].
  destruct (dict_mem (declarations st) n); [|apply kept_refl].
  cbv zeta.
  set (st1 := set_declarations (dict_update (declarations st) n (with_was_fixed true)) st).
  assert (kept st st1) as H1 by (by apply kept_update).
  set (st2 := match fix_history st1 !! n with Some _ => _ | None => st1 end).
  assert (kept st1 st2) as H2.
  { subst st2. destruct (fix_history st1 !! n); [|apply kept_refl].
    by apply kept_update. }
  eapply kept_trans; [exact H1|]. eapply kept_trans; [exact H2|].
  destruct (old !! n) as [r|]; [|apply kept_refl].
  eapply kept_trans; [apply (kept_set_results st2)|].
  by apply (kept_update (set_results _ st2)).
Qed.

Lemma mark_verified_loop_kept names st : kept st (mark_verified_loop names st).
Proof.
  revert st. induction names as [|n names IH]; intros st;
    cbn [mark_verified_loop]; [apply kept_refl|].
  eapply kept_trans; [|apply IH].
  destruct (dict_mem (declarations st) n); [|apply kept_refl].
  eapply kept_trans; [by apply (kept_update st n (with_was_fixed true))|].
  eapply kept_trans.
  { by apply (kept_update (set_declarations _ st) n (with_is_verified true)). }
  split_and!; try done. apply same_core_refl.
Qed.

Lemma helper_metadata_loop_kept l infos st :
  kept st (helper_metadata_loop l infos st).
Proof.
  revert st. induction infos as [|x infos IH]; intros st;
    cbn [helper_metadata_loop]; [apply kept_refl|].
  eapply kept_trans; [|apply IH]. cbv zeta.
  destruct (dict_mem (declarations st) (f_name x)); [|apply kept_refl].
  eapply kept_trans; [by apply (kept_update st (f_name x) (with_added_for (Some l)))|].
  destruct (f_original_name x); [|apply kept_refl].
  by apply kept_update.
Qed.

Lemma cache_loop_kept names st : kept st (cache_loop names st).
Proof. destruct (cache_loop_frame names st). by apply kept_frame. Qed.

Lemma record_fix_kept st1 l new_lemmas history prev old :
  kept st1 (record_fix st1 l new_lemmas history prev old).
Proof.
  unfold record_fix. cbv zeta. unfold _cache_subproblems.
  eapply kept_trans; [|apply cache_loop_kept].
  eapply kept_trans; [|apply helper_metadata_loop_kept].
  eapply kept_trans; [apply (restore_loop_kept prev old)|].
  eapply kept_trans; [apply mark_verified_loop_kept|].
  destruct (dict_mem _ l); [|apply kept_refl]. by apply kept_update.
Qed.

(** The analysis is coherent: its lines are the lines of its code, its
    table agrees with the table extracted from those lines, and its
    header is the header of the code it was created with. *)
Definition coherent (st : ProofAnalysis) : Prop :=
  lines st = split_lines (code st)
  ∧ same_core (_extract_declarations (lines st)) (declarations st)
  ∧ header st = _extract_header (split_lines (_original_code st)).

Lemma coherent_kept st st' : kept st st' → coherent st → coherent st'.
Proof.
  intros (Hc & Hl & Ho & Hh & Hs) (H1 & H2 & H3).
  split_and!; [congruence| |congruence].
  rewrite <- Hl. by eapply same_core_trans.
Qed.

Lemma reachable_coherent (st : ProofAnalysis) : reachable st → coherent st.
Proof.
  induction 1 as [code scheduler|st Hr IH|st l fixed Hr IH].
  - split_and!; [done|apply same_core_refl|done].
  - unfold verify_all_lemmas.
    destruct (_verification_done st); [done|].
    destruct (compilation_scheduler st) as [compile|]; [|done].
    pose proof (gather_kept compile st (lemmas_to_verify (declarations st)) st)
      as Hg.
    destruct (gather compile st (lemmas_to_verify (declarations st)) st)
      as [st1 results]. simpl in Hg.
    unfold _cache_subproblems.
    eapply coherent_kept; [|exact IH].
    eapply kept_trans; [exact Hg|].
    eapply kept_trans; [apply record_results_kept|].
    eapply kept_trans; [|apply cache_loop_kept].
    split_and!; try done. apply same_core_refl.
  - unfold fix_lemma.
    destruct (dict_get (declarations st) l) as [info|]; [|done].
    destruct (original_subproblem info) as [[cached facts]|]; [|done].
    destruct (if is_empty cached then _ else Ok cached) as [orig|e]; [|done].
    destruct (dict_get (parse_fixed fixed) l) as [target|]; [|done].
    cbn [final_state]. unfold splice.
    destruct (new_lemma_loop l (parse_fixed fixed) [] []
                (list_to_set (keys (declarations st))))
      as [[new_lemmas name_mappings] existing].
    cbv zeta.
    eapply coherent_kept; [apply record_fix_kept|].
    destruct IH as (_ & _ & H3).
    split_and!; [done|apply same_core_refl|done].
Qed.

Lemma reachable_NoDup_keys (st : ProofAnalysis) :
  reachable st → NoDup (keys (declarations st)).
Proof.
  intros Hr. destruct (reachable_coherent st Hr) as (_ & Hs & _).
  rewrite <- (same_core_keys _ _ Hs). apply NoDup_keys_extract.
Qed.

(** In every analysis reached from the constructor by verification and
    fixes, the lines are those of the current code and the table is the
    one a fresh extraction from the current code gives, as far as names,
    their order, keywords, line ranges, [has_proof] and texts go.  The
    header stays the header of the original code: a fix does not
    recompute it. *)
Theorem reachable_table_describes_code (st : ProofAnalysis) :
  reachable st →
  lines st = split_lines (code st)
  ∧ same_core (_extract_declarations (split_lines (code st))) (declarations st)
  ∧ header st = _extract_header (split_lines (_original_code st)).
Proof.
  intros Hr. destruct (reachable_coherent st Hr) as (H1 & H2 & H3).
  by rewrite <- H1.
Qed.

End Coherence.

Section CoherenceExample.
Import Py Analysis.

(** [reachable_table_describes_code] on [example_code] after verification
    and the fix [example_fix] of its lemma [L]. *)
Lemma reachable_table_describes_code_witness :
  let st :=
    final_state
      (fix_lemma (verify_all_lemmas (__init__ example_code (Some example_compiler)))
         (lit "L") example_fix) in
  lines st = split_lines (code st)
  ∧ same_core (_extract_declarations (split_lines (code st))) (declarations st)
  ∧ header st = _extract_header (split_lines (_original_code st)).
Proof.
  intros st.
  apply (reachable_table_describes_code st).
  apply reach_fix, reach_verify, reach_init.
Defined.

End CoherenceExample.

(** ** Proof analysis: the list of lemmas to fix *)

Section ErrorLemmas.
Import Py Analysis.

Lemma str_le_total : Total str_le.
Proof.
  intros s. unfold str_le. induction s as [|a s IH]; intros t; [by left|].
  destruct t as [|b t]; [by right|]. simpl.
  destruct (N.lt_trichotomy (Py.code a) (Py.code b)) as [Hlt|[Heq|Hgt]].
  - left. apply orb_true_iff. left. by apply N.ltb_lt.
  - rewrite Heq, N.eqb_refl, N.ltb_irrefl. simpl. apply IH.
  - right. apply orb_true_iff. left. by apply N.ltb_lt.
Qed.

Lemma NoDup_fmap_filter {A B} (f : A → B) (P : A → bool) (l : list A) :
  NoDup (f <$> l) → NoDup (f <$> List.filter P l).
Proof.
  induction l as [|x l IH]; csimpl; [done|].
  rewrite NoDup_cons. intros [Hx Hl].
  destruct (P x); csimpl; [|by apply IH].
  apply NoDup_cons. split; [|by apply IH].
  intros Hin. apply Hx. apply list_elem_of_fmap in Hin as (y & -> & Hy).
  apply list_elem_of_fmap_2. apply list_elem_of_In in Hy.
  apply filter_In in Hy as [Hy _]. by apply list_elem_of_In.
Qed.

Lemma get_error_lemmas_sorted_elem_of (st : ProofAnalysis) :
  reachable st →
  Sorted str_le (get_error_lemmas_sorted st)
  ∧ NoDup (get_error_lemmas_sorted st)
  ∧ (∀ n, n ∈ get_error_lemmas_sorted st ↔
          _verification_done st = true ∧ is_target st n = true
          ∧ n ∈ error_declarations st).
Proof.
  intros Hr. pose proof (reachable_NoDup_keys st Hr) as Hnd.
  unfold get_error_lemmas_sorted.
  destruct (_verification_done st); cbn [negb]; cycle 1.
  { split_and!; [constructor|constructor|].
    intros n. split; [intros H; by apply elem_of_nil in H|by intros [? _]]. }
  cbv zeta.
  set (key := λ x : str * Declaration,
                match dict_get (declarations st) x.1 with
                | Some d => start_line d
                | None => 0
                end).
  set (lemmas := List.filter (λ '(_, info), is_lemma_or_theorem (type info))
                   (declarations st)).
  set (errs := List.filter (λ '(n, _), bool_decide (n ∈ error_declarations st))
                 (sorted_by key lemmas)).
  split_and!.
  - unfold sorted. apply Sorted_merge_sort. apply str_le_total.
  - unfold sorted. rewrite merge_sort_Permutation. subst errs.
    apply NoDup_fmap_filter. rewrite sorted_by_Permutation. subst lemmas.
    by apply NoDup_fmap_filter.
  - intros n. unfold sorted. rewrite merge_sort_Permutation.
    rewrite list_elem_of_fmap. unfold is_target. split.
    + intros ([n' info] & -> & Hin). simpl. subst errs.
      apply list_elem_of_In, filter_In in Hin as [Hin Herr].
      apply list_elem_of_In in Hin. rewrite sorted_by_Permutation in Hin.
      subst lemmas. apply list_elem_of_In, filter_In in Hin as [Hin Hty].
      apply list_elem_of_In in Hin.
      rewrite (elem_of_dict_get _ _ _ Hnd Hin).
      split_and!; [done|done|]. by apply bool_decide_eq_true in Herr.
    + intros (_ & Hty & Herr).
      destruct (dict_get (declarations st) n) as [info|] eqn:Hget; [|done].
      exists (n, info). split; [done|]. subst errs.
      apply list_elem_of_In, filter_In. split.
      * apply list_elem_of_In. rewrite sorted_by_Permutation. subst lemmas.
        apply list_elem_of_In, filter_In. split; [|done].
        apply list_elem_of_In. by apply dict_get_elem_of.
      * by apply bool_decide_eq_true.
Qed.

(** Before verification [get_error_lemmas_sorted] returns nothing.  After
    it, on every reachable analysis, it returns the names that are in
    [error_declarations] and are declared as lemmas or theorems, each
    once, in ascending order; when [is_proof_correct] holds it returns
    nothing. *)
Theorem get_error_lemmas_sorted_spec (st : ProofAnalysis) :
  reachable st →
  Sorted str_le (get_error_lemmas_sorted st)
  ∧ NoDup (get_error_lemmas_sorted st)
  ∧ (∀ n, n ∈ get_error_lemmas_sorted st ↔
          _verification_done st = true ∧ is_target st n = true
          ∧ n ∈ error_declarations st)
  ∧ (is_proof_correct st = true → get_error_lemmas_sorted st = []).
Proof.
  intros Hr.
  destruct (get_error_lemmas_sorted_elem_of st Hr) as (Hs & Hnd & Hin).
  split_and!; [done|done|done|].
  unfold is_proof_correct. intros Hok. apply bool_decide_eq_true in Hok.
  destruct (get_error_lemmas_sorted st) as [|n l]; [done|]. exfalso.
  destruct (Hin n) as [H _].
  destruct H as (_ & _ & Herr); [apply elem_of_cons; by left|].
  rewrite Hok in Herr. by apply elem_of_empty in Herr.
Qed.

End ErrorLemmas.

Section ErrorLemmasExample.
Import Py Analysis.

(** [get_error_lemmas_sorted_spec] on the verified [example_code]. *)
Lemma get_error_lemmas_sorted_spec_witness :
  let st := verify_all_lemmas (__init__ example_code (Some example_compiler)) in
  Sorted str_le (get_error_lemmas_sorted st)
  ∧ NoDup (get_error_lemmas_sorted st)
  ∧ (∀ n, n ∈ get_error_lemmas_sorted st ↔
          _verification_done st = true ∧ is_target st n = true
          ∧ n ∈ error_declarations st)
  ∧ (is_proof_correct st = true → get_error_lemmas_sorted st = []).
Proof.
  intros st. apply (get_error_lemmas_sorted_spec st).
  apply reach_verify, reach_init.
Defined.

End ErrorLemmasExample.

(** ** Token usage *)

Section TokenUsage.
Import Py Lightweight.

Lemma accumulate_usage_get (total_usage new_usage : gmap str nat) :
  usage_get (accumulate_usage total_usage new_usage) "prompt_tokens"
  = usage_get total_usage "prompt_tokens" + usage_get new_usage "prompt_tokens"
  ∧ usage_get (accumulate_usage total_usage new_usage) "completion_tokens"
    = usage_get total_usage "completion_tokens"
      + usage_get new_usage "completion_tokens"
  ∧ usage_get (accumulate_usage total_usage new_usage) "total_tokens"
    = usage_get total_usage "total_tokens" + usage_get new_usage "total_tokens".
Proof.
  unfold accumulate_usage, usage_get. cbv zeta.
  assert (lit "prompt_tokens" ≠ lit "completion_tokens") as H1 by done.
  assert (lit "prompt_tokens" ≠ lit "total_tokens") as H2 by done.
  assert (lit "completion_tokens" ≠ lit "total_tokens") as H3 by done.
  split_and!.
  - rewrite lookup_insert_ne, lookup_insert_ne, lookup_insert_eq by done. done.
  - rewrite lookup_insert_ne, lookup_insert_eq by done.
    rewrite lookup_insert_ne by done. done.
  - rewrite lookup_insert_eq.
    rewrite lookup_insert_ne, lookup_insert_ne by done. done.
Qed.

Lemma accumulate_usage_other (total_usage new_usage : gmap str nat) (k : str) :
  k ≠ lit "prompt_tokens" → k ≠ lit "completion_tokens" →
  k ≠ lit "total_tokens" →
  accumulate_usage total_usage new_usage !! k = total_usage !! k.
Proof.
  intros. unfold accumulate_usage. cbv zeta.
  by rewrite !lookup_insert_ne.
Qed.

(** Accumulating the usages of a run of calls, one after the other, gives
    for each of the three counters the counter of the start plus the sum
    over the calls (a counter that a dict lacks counting as 0); any other
    key of the total is left as it was. *)
Theorem accumulate_usage_sums (total_usage : gmap str nat)
    (usages : list (gmap str nat)) :
  let final := foldl accumulate_usage total_usage usages in
  usage_get final "prompt_tokens"
  = usage_get total_usage "prompt_tokens"
    + sum_list ((λ u, usage_get u "prompt_tokens") <$> usages)
  ∧ usage_get final "completion_tokens"
    = usage_get total_usage "completion_tokens"
      + sum_list ((λ u, usage_get u "completion_tokens") <$> usages)
  ∧ usage_get final "total_tokens"
    = usage_get total_usage "total_tokens"
      + sum_list ((λ u, usage_get u "total_tokens") <$> usages)
  ∧ (∀ k, k ∉ [lit "prompt_tokens"; lit "completion_tokens"; lit "total_tokens"] →
          final !! k = total_usage !! k).
Proof.
  revert total_usage. induction usages as [|u usages IH]; intros total_usage.
  - simpl. split_and!; try lia. done.
  - cbn [foldl]. destruct (IH (accumulate_usage total_usage u)) as (H1 & H2 & H3 & H4).
    destruct (accumulate_usage_get total_usage u) as (G1 & G2 & G3).
    cbv zeta. csimpl. split_and!; [lia|lia|lia|].
    intros k Hk. rewrite H4 by done.
    apply accumulate_usage_other; intros ->; apply Hk;
      repeat (first [apply list_elem_of_here | apply list_elem_of_further]).
Qed.

End TokenUsage.

(** ** Proof analysis: what a fix replaces *)

Section Splice.
Import Py Analysis.

Lemma split_char_nonempty (c : ascii) (s : str) : split_char c s ≠ [].
Proof.
  destruct s as [|a s]; simpl; [done|].
  destruct (Ascii.eqb a c); [done|]. by destruct (split_char c s).
Qed.

Lemma split_char_free (c : ascii) (s : str) :
  Forall (λ l, c ∉ l) (split_char c s).
Proof.
  induction s as [|a s IH]; simpl.
  - constructor; [apply not_elem_of_nil|constructor].
  - destruct (Ascii.eqb a c) eqn:Hac.
    + constructor; [apply not_elem_of_nil|done].
    + apply Ascii.eqb_neq in Hac.
      destruct (split_char c s) as [|l ls].
      * constructor; [|constructor]. rewrite not_elem_of_cons.
        split; [done|apply not_elem_of_nil].
      * apply Forall_cons in IH as [Hl Hls]. constructor; [|done].
        rewrite not_elem_of_cons. split; [done|exact Hl].
Qed.

Lemma split_char_app (c : ascii) (x rest : str) :
  c ∉ x → split_char c (x ++ c :: rest) = x :: split_char c rest.
Proof.
  induction x as [|a x IH]; intros Hx; simpl.
  - by rewrite Ascii.eqb_refl.
  - apply not_elem_of_cons in Hx as [Hac Hx].
    assert (Ascii.eqb a c = false) as -> by (apply Ascii.eqb_neq; congruence).
    by rewrite IH.
Qed.

Lemma split_char_absent (c : ascii) (x : str) :
  c ∉ x → split_char c x = [x].
Proof.
  induction x as [|a x IH]; intros Hx; simpl; [done|].
  apply not_elem_of_cons in Hx as [Hac Hx].
  assert (Ascii.eqb a c = false) as -> by (apply Ascii.eqb_neq; congruence).
  by rewrite IH.
Qed.

(** Splitting at line feeds what was joined with line feeds gives the
    lines back. *)
Lemma split_lines_join (ls : list str) :
  ls ≠ [] → Forall (λ l, LF ∉ l) ls → split_lines (join nl ls) = ls.
Proof.
  unfold split_lines. induction ls as [|x ls IH]; intros Hne Hall; [done|].
  apply Forall_cons in Hall as [Hx Hall].
  destruct ls as [|y ls].
  - simpl. by apply split_char_absent.
  - rewrite join_cons by done. change (nl ++ ?t) with (LF :: t).
    rewrite split_char_app by done. f_equal. by apply IH.
Qed.

(** A fix replaces the lines of its target, from [start_line] to
    [end_line], by the lines of the replacement text, and keeps every
    other line of the code; the code after the fix is those lines joined. *)
Theorem fix_lemma_replaces_target_lines
    (st st' : ProofAnalysis) (L fixed_code : str) (d : Declaration) :
  reachable st →
  dict_get (declarations st) L = Some d →
  dict_mem (parse_fixed fixed_code) L = true →
  fix_lemma st L fixed_code = Returned st' →
  ∃ replacement : list str,
    replacement ≠ []
    ∧ lines st'
      = take (start_line d - 1) (lines st) ++ replacement
        ++ drop (end_line d) (lines st)
    ∧ code st' = join nl (lines st').
Proof.
  intros Hr Hd Hmem Hfix.
  destruct (reachable_coherent st Hr) as (Hlines & _ & _).
  assert (Forall (λ l, LF ∉ l) (lines st)) as Hfree.
  { rewrite Hlines. apply split_char_free. }
  unfold fix_lemma, dict_mem in *. rewrite Hd in Hfix.
  destruct (original_subproblem d) as [[cached facts]|]; [|done].
  destruct (if is_empty cached then _ else Ok cached) as [orig|e]; [|done].
  destruct (dict_get (parse_fixed fixed_code) L) as [target|]; [|done].
  injection Hfix as <-. unfold splice.
  destruct (new_lemma_loop L (parse_fixed fixed_code) [] []
              (list_to_set (keys (declarations st))))
    as [[new_lemmas name_mappings] existing].
  cbv zeta.
  match goal with
  | |- context [record_fix ?s ?a ?b ?c ?e ?f] =>
      destruct (record_fix_kept s a b c e f) as (Hc & Hl & _)
  end.
  rewrite <- Hc, <- Hl. cbn [code lines].
  match goal with
  | |- context [split_lines (join nl (?pre ++ split_lines ?text ++ ?post))] =>
      exists (split_lines text);
      assert (split_lines (join nl (pre ++ split_lines text ++ post))
              = pre ++ split_lines text ++ post) as Hsplit
  end.
  { apply split_lines_join.
    - intros Hnil. apply app_eq_nil in Hnil as [_ Hnil].
      apply app_eq_nil in Hnil as [Hnil _].
      by apply split_char_nonempty in Hnil.
    - rewrite !Forall_app. split_and!.
      + by apply Forall_take.
      + apply split_char_free.
      + by apply Forall_drop. }
  split_and!; [apply split_char_nonempty|exact Hsplit|by rewrite Hsplit].
Qed.

End Splice.

Section SpliceExample.
Import Py Analysis.

(** [fix_lemma_replaces_target_lines] on the verified [example_code] and
    the fix [example_fix] of its lemma [L]. *)
Lemma fix_lemma_replaces_target_lines_witness :
  let st := verify_all_lemmas (__init__ example_code (Some example_compiler)) in
  ∃ d st' replacement,
    dict_get (declarations st) (lit "L") = Some d
    ∧ fix_lemma st (lit "L") example_fix = Returned st'
    ∧ replacement ≠ []
    ∧ lines st'
      = take (start_line d - 1) (lines st) ++ replacement
        ++ drop (end_line d) (lines st)
    ∧ code st' = join nl (lines st').
Proof.
  intros st.
  assert (∃ d, dict_get (declarations st) (lit "L") = Some d) as [d Hd].
  { eexists. vm_compute. reflexivity. }
  assert (∃ st', fix_lemma st (lit "L") example_fix = Returned st') as [st' Hfix].
  { eexists. vm_compute. reflexivity. }
  assert (dict_mem (parse_fixed example_fix) (lit "L") = true) as Hmem.
  { vm_compute. reflexivity. }
  destruct (fix_lemma_replaces_target_lines st st' (lit "L") example_fix d
              (reach_verify _ (reach_init _ _)) Hd Hmem Hfix)
    as (replacement & H1 & H2 & H3).
  exists d, st', replacement.
  exact (conj Hd (conj Hfix (conj H1 (conj H2 H3)))).
Defined.

End SpliceExample.

(** ** Proof analysis: full correctness *)

Section FullCorrectness.
Import Py Analysis.

Variable order : gset str → list str.
Hypothesis order_elem_of : ∀ (s : gset str) (x : str), x ∈ order s ↔ x ∈ s.

(** [m] is a lemma or theorem that the text of [n] names. *)
Definition edge (st : ProofAnalysis) (n m : str) : Prop :=
  ∃ d, dict_get (declarations st) n = Some d ∧ m ∈ dependencies d
       ∧ is_target st m = true.

(** [x] is named by [n] or by a lemma or theorem that [n] depends on,
    directly or through other lemmas and theorems. *)
Definition depends_on (st : ProofAnalysis) (n x : str) : Prop :=
  ∃ m d, rtc (edge st) n m ∧ dict_get (declarations st) m = Some d
         ∧ x ∈ dependencies d.

(** [result.get('complete', False)] of the result recorded for [n], and
    false when there is none. *)
Definition completeb (st : ProofAnalysis) (n : str) : bool :=
  match lemma_compilation_results st !! n with
  | Some r => get_complete r
  | None => false
  end.

Lemma depends_on_edge st n m x :
  edge st n m → depends_on st m x → depends_on st n x.
Proof.
  intros He (m' & d & Hr & Hd & Hx). exists m', d.
  split_and!; [by eapply rtc_l|done|done].
Qed.

Lemma depends_on_target st n x y :
  depends_on st n x → is_target st x = true → depends_on st x y →
  depends_on st n y.
Proof.
  intros (m & d & Hr & Hd & Hx) Ht (m' & d' & Hr' & Hd' & Hy).
  exists m', d'. split_and!; [|done|done].
  eapply rtc_trans; [exact Hr|]. eapply rtc_l; [|exact Hr'].
  by exists d.
Qed.

(** What the loop of [_get_all_dependencies] adds depends on the name. *)
Lemma all_dependencies_from_sound st fuel n visited x :
  x ∈ (all_dependencies_from order fuel (declarations st) n visited).1 →
  depends_on st n x.
Proof.
  revert n visited x. induction fuel as [|fuel IH]; intros n visited x;
    cbn [all_dependencies_from]; [intros Hxe; by apply elem_of_empty in Hxe|].
  destruct (dict_get (declarations st) n) as [d|] eqn:Hd;
    [|intros Hxe; by apply elem_of_empty in Hxe].
  case_bool_decide; [intros Hxe; by apply elem_of_empty in Hxe|].
  assert (∀ l acc vis,
            (∀ dep, dep ∈ l → dep ∈ dependencies d) →
            (∀ y, y ∈ acc → depends_on st n y) →
            ∀ y, y ∈ (foldl
                        (λ '(all_deps, visited) dep,
                           match dict_get (declarations st) dep with
                           | Some dep_info =>
                               if is_lemma_or_theorem (type dep_info)
                               then
                                 let '(indirect_deps, visited') :=
                                   all_dependencies_from order fuel
                                     (declarations st) dep visited in
                                 (all_deps ∪ indirect_deps, visited')
                               else (all_deps, visited)
                           | None => (all_deps, visited)
                           end) (acc, vis) l).1 →
                 depends_on st n y) as Hloop.
  { induction l as [|dep l IHl]; intros acc vis Hl Hacc y; [apply Hacc|].
    cbn [foldl].
    destruct (dict_get (declarations st) dep) as [dep_info|] eqn:Hdep;
      [|apply IHl; [intros; apply Hl; by apply elem_of_cons; right|done]].
    destruct (is_lemma_or_theorem (type dep_info)) eqn:Ht;
      [|apply IHl; [intros; apply Hl; by apply elem_of_cons; right|done]].
    pose proof (IH dep vis) as Hdep_sound.
    destruct (all_dependencies_from order fuel (declarations st) dep vis)
      as [indirect vis'].
    apply IHl; [intros; apply Hl; by apply elem_of_cons; right|].
    intros z Hz. apply elem_of_union in Hz as [Hz|Hz]; [by apply Hacc|].
    apply (depends_on_edge st n dep); [|by apply Hdep_sound].
    exists d. split_and!; [done| |unfold is_target; by rewrite Hdep].
    apply Hl. apply elem_of_cons. by left. }
  apply Hloop.
  - intros dep. apply order_elem_of.
  - intros y Hy. exists n, d. by split_and!.
Qed.

Lemma all_dependencies_from_direct st fuel n d :
  dict_get (declarations st) n = Some d →
  dependencies d ⊆ (all_dependencies_from order (S fuel) (declarations st) n ∅).1.
Proof.
  intros Hd. cbn [all_dependencies_from]. rewrite Hd.
  rewrite bool_decide_eq_false_2 by apply not_elem_of_empty.
  generalize (order (dependencies d)). intros l.
  generalize ({[n]} ∪ (∅ : gset str)). intros vis.
  assert (∀ acc vis x, x ∈ acc →
            x ∈ (foldl
                   (λ '(all_deps, visited) dep,
                      match dict_get (declarations st) dep with
                      | Some dep_info =>
                          if is_lemma_or_theorem (type dep_info)
                          then
                            let '(indirect_deps, visited') :=
                              all_dependencies_from order fuel
                                (declarations st) dep visited in
                            (all_deps ∪ indirect_deps, visited')
                          else (all_deps, visited)
                      | None => (all_deps, visited)
                      end) (acc, vis) l).1) as Hloop.
  { induction l as [|dep l IHl]; intros acc vis0 x Hx; [done|].
    cbn [foldl].
    destruct (dict_get (declarations st) dep) as [dep_info|]; [|by apply IHl].
    destruct (is_lemma_or_theorem (type dep_info)); [|by apply IHl].
    destruct (all_dependencies_from order fuel (declarations st) dep vis0)
      as [indirect vis'].
    apply IHl. apply elem_of_union. by left. }
  intros x Hx. by apply Hloop.
Qed.

Lemma get_all_dependencies_sound st n x :
  x ∈ _get_all_dependencies order st n → depends_on st n x.
Proof. apply all_dependencies_from_sound. Qed.

Lemma check_all_not_false (is_t : str → bool) (check : str → option bool) l :
  (∀ x, x ∈ l → is_t x = true → check x ≠ Some false) →
  check_all is_t check l ≠ Some false.
Proof.
  induction l as [|x l IH]; intros Hl; cbn [check_all]; [done|].
  assert (check_all is_t check l ≠ Some false) as Hrest.
  { apply IH. intros y Hy. apply Hl. apply elem_of_cons. by right. }
  destruct (is_t x) eqn:Hx; [|done].
  pose proof (Hl x (list_elem_of_here _ _) Hx) as Hc.
  by destruct (check x) as [[]|].
Qed.

Lemma check_all_None (is_t : str → bool) (check : str → option bool) l x :
  x ∈ l → is_t x = true → check x = None →
  (∀ y, y ∈ l → is_t y = true → check y ≠ Some false) →
  check_all is_t check l = None.
Proof.
  induction l as [|y l IH]; intros Hin Hx Hnone Hl;
    [by apply elem_of_nil in Hin|].
  cbn [check_all].
  assert (∀ z, z ∈ l → is_t z = true → check z ≠ Some false) as Hl'.
  { intros z Hz. apply Hl. apply elem_of_cons. by right. }
  apply elem_of_cons in Hin as [<-|Hin].
  - by rewrite Hx, Hnone.
  - destruct (is_t y) eqn:Hy; [|by apply IH].
    pose proof (Hl y (list_elem_of_here _ _) Hy) as Hc.
    destruct (check y) as [[]|]; [by apply IH|done|done].
Qed.

Lemma check_all_Some (is_t : str → bool) (check : str → option bool) l :
  (∀ x, x ∈ l → is_t x = true → ∃ b, check x = Some b) →
  ∃ b, check_all is_t check l = Some b
       ∧ (b = true ↔ ∀ x, x ∈ l → is_t x = true → check x = Some true).
Proof.
  induction l as [|x l IH]; intros Hl; cbn [check_all].
  - exists true. split; [done|]. split; [|done].
    intros _ x Hx. by apply elem_of_nil in Hx.
  - destruct IH as (b & Hb & Hiff).
    { intros y Hy. apply Hl. apply elem_of_cons. by right. }
    destruct (is_t x) eqn:Hx.
    + destruct (Hl x (list_elem_of_here _ _) Hx) as [[] Hc]; rewrite Hc.
      * exists b. split; [done|]. rewrite Hiff. split.
        -- intros H y Hy. apply elem_of_cons in Hy as [->|Hy]; [done|by apply H].
        -- intros H y Hy. apply H. apply elem_of_cons. by right.
      * exists false. split; [done|]. split; [done|].
        intros H. specialize (H x (list_elem_of_here _ _) Hx). congruence.
    + exists b. split; [done|]. rewrite Hiff. split.
      * intros H y Hy. apply elem_of_cons in Hy as [->|Hy]; [congruence|by apply H].
      * intros H y Hy. apply H. apply elem_of_cons. by right.
Qed.

(** A lemma or theorem with a complete result whose dependencies that are
    lemmas or theorems have complete results too. *)
Definition all_complete (st : ProofAnalysis) (n : str) : Prop :=
  completeb st n = true
  ∧ ∀ x, depends_on st n x → is_target st x = true → completeb st x = true.

Lemma all_complete_dep st n x :
  all_complete st n → depends_on st n x → is_target st x = true →
  all_complete st x.
Proof.
  intros [_ Hall] Hx Ht. split; [by apply Hall|].
  intros y Hy. apply Hall. by eapply depends_on_target.
Qed.

Lemma is_target_mem st n : is_target st n = true → dict_mem (declarations st) n = true.
Proof. unfold is_target, dict_mem. by destruct (dict_get _ n). Qed.

Lemma completeb_result st n :
  completeb st n = true →
  ∃ r, lemma_compilation_results st !! n = Some r ∧ get_complete r = true.
Proof.
  unfold completeb. destruct (lemma_compilation_results st !! n) as [r|]; [|done].
  intros H. by exists r.
Qed.

Lemma is_lemma_fully_correct_not_false st fuel n :
  _verification_done st = true → is_target st n = true → all_complete st n →
  is_lemma_fully_correct order fuel st n ≠ Some false.
Proof.
  intros Hdone. revert n. induction fuel as [|fuel IH]; intros n Ht Hn; [done|].
  cbn [is_lemma_fully_correct]. rewrite (is_target_mem _ _ Ht), Hdone.
  cbn [negb]. destruct (completeb_result st n) as (r & -> & ->); [by destruct Hn|].
  cbn [negb]. apply check_all_not_false.
  intros x Hx Hxt. apply order_elem_of, get_all_dependencies_sound in Hx.
  apply IH; [done|]. by eapply all_complete_dep.
Qed.

(** A lemma that is among its own dependencies, directly or through other
    lemmas, makes [is_lemma_fully_correct] call itself without end, once
    its result and those of the lemmas and theorems it depends on are
    complete: no depth of recursion is enough for the call to return. *)
Theorem is_lemma_fully_correct_cycle_never_returns
    (st : ProofAnalysis) (L : str) :
  _verification_done st = true →
  is_target st L = true →
  L ∈ _get_all_dependencies order st L →
  completeb st L = true →
  (∀ x, depends_on st L x → is_target st x = true → completeb st x = true) →
  ∀ fuel, is_lemma_fully_correct order fuel st L = None.
Proof.
  intros Hdone Ht Hself Hc Hall fuel.
  assert (all_complete st L) as HL by done.
  induction fuel as [|fuel IH]; [done|].
  cbn [is_lemma_fully_correct]. rewrite (is_target_mem _ _ Ht), Hdone.
  cbn [negb]. destruct (completeb_result st L Hc) as (r & -> & ->).
  cbn [negb]. apply (check_all_None _ _ _ L); [by apply order_elem_of|done|done|].
  intros y Hy Hyt. apply order_elem_of, get_all_dependencies_sound in Hy.
  apply is_lemma_fully_correct_not_false; [done|done|].
  by eapply all_complete_dep.
Qed.

(** Every dependency that is a lemma or theorem starts on an earlier
    line. *)
Definition backward (st : ProofAnalysis) : Prop :=
  ∀ n d m d', dict_get (declarations st) n = Some d →
              m ∈ dependencies d →
              dict_get (declarations st) m = Some d' →
              is_lemma_or_theorem (type d') = true →
              start_line d' < start_line d.

Lemma edge_start st n m d :
  backward st → rtc (edge st) n m → dict_get (declarations st) n = Some d →
  ∃ dm, dict_get (declarations st) m = Some dm ∧ start_line dm ≤ start_line d.
Proof.
  intros Hb Hr. revert d. induction Hr as [n|n y m He Hr IH]; intros d Hd.
  - by exists d.
  - destruct He as (d0 & Hd0 & Hy & Hty). rewrite Hd in Hd0. injection Hd0 as <-.
    unfold is_target in Hty.
    destruct (dict_get (declarations st) y) as [dy|] eqn:Hdy; [|done].
    destruct (IH dy eq_refl) as (dm & Hdm & Hle). exists dm. split; [done|].
    pose proof (Hb n d y dy Hd Hy Hdy Hty). lia.
Qed.

Lemma is_lemma_fully_correct_backward st fuel L d :
  backward st → _verification_done st = true →
  dict_get (declarations st) L = Some d → start_line d < fuel →
  ∃ b, is_lemma_fully_correct order fuel st L = Some b
       ∧ (b = true ↔ all_complete st L).
Proof.
  intros Hb Hdone. revert L d.
  induction fuel as [|fuel IH]; intros L d Hd Hfuel; [lia|].
  cbn [is_lemma_fully_correct]. unfold dict_mem. rewrite Hd, Hdone. cbn [negb].
  unfold all_complete, completeb.
  destruct (lemma_compilation_results st !! L) as [r|] eqn:Hr;
    [|exists false; split; [done|]; split; [done|by intros [? _]]].
  destruct (get_complete r) eqn:Hc; cbn [negb];
    [|exists false; split; [done|]; split; [done|by intros [? _]]].
  assert (∀ x, x ∈ order (_get_all_dependencies order st L) →
               is_target st x = true →
               ∃ dx, dict_get (declarations st) x = Some dx
                     ∧ start_line dx < fuel) as Hsmall.
  { intros x Hx Hxt. apply order_elem_of, get_all_dependencies_sound in Hx.
    destruct Hx as (m & dm & Hreach & Hdm & Hxm).
    destruct (edge_start st L m d Hb Hreach Hd) as (dm' & Hdm' & Hle).
    rewrite Hdm in Hdm'. injection Hdm' as <-.
    unfold is_target in Hxt.
    destruct (dict_get (declarations st) x) as [dx|] eqn:Hdx; [|done].
    exists dx. split; [done|].
    pose proof (Hb m dm x dx Hdm Hxm Hdx Hxt). lia. }
  destruct (check_all_Some (is_target st) (is_lemma_fully_correct order fuel st)
              (order (_get_all_dependencies order st L))) as (b & Hcheck & Hiff).
  { intros x Hx Hxt. destruct (Hsmall x Hx Hxt) as (dx & Hdx & Hlt).
    destruct (IH x dx Hdx Hlt) as (bx & Hbx & _). by exists bx. }
  exists b. split; [done|]. rewrite Hiff. split.
  - intros Hall. split; [done|]. intros x (m & dm & Hreach & Hdm & Hxm) Hxt.
    apply rtc_inv in Hreach as [<-|(y & He & Hreach)].
    + rewrite Hd in Hdm. injection Hdm as <-.
      assert (x ∈ order (_get_all_dependencies order st L)) as Hx.
      { apply order_elem_of. by apply (all_dependencies_from_direct st _ L d). }
      destruct (Hsmall x Hx Hxt) as (dx & Hdx & Hlt).
      destruct (IH x dx Hdx Hlt) as (bx & Hbx & Hbx_iff).
      rewrite (Hall x Hx Hxt) in Hbx. injection Hbx as <-.
      destruct Hbx_iff as [Hbx _]. by destruct (Hbx eq_refl) as [Hcx _].
    + pose proof He as (d0 & Hd0 & Hy & Hyt).
      rewrite Hd in Hd0. injection Hd0 as <-.
      assert (y ∈ order (_get_all_dependencies order st L)) as Hyin.
      { apply order_elem_of. by apply (all_dependencies_from_direct st _ L d). }
      destruct (Hsmall y Hyin Hyt) as (dy & Hdy & Hlt).
      destruct (IH y dy Hdy Hlt) as (by' & Hby & Hby_iff).
      rewrite (Hall y Hyin Hyt) in Hby. injection Hby as <-.
      destruct Hby_iff as [Hby _]. destruct (Hby eq_refl) as [_ Hally].
      apply Hally; [|done]. by exists m, dm.
  - intros [_ Hall] x Hx Hxt.
    destruct (Hsmall x Hx Hxt) as (dx & Hdx & Hlt).
    destruct (IH x dx Hdx Hlt) as (bx & Hbx & Hbx_iff).
    rewrite Hbx. f_equal. apply Hbx_iff.
    apply order_elem_of, get_all_dependencies_sound in Hx.
    apply (all_complete_dep st L); [|done|done].
    split; [|done]. unfold completeb. by rewrite Hr.
Qed.

(** When every dependency that is a lemma or theorem starts on an earlier
    line, [is_lemma_fully_correct] returns for every declared name, within
    a depth of recursion bounded by the line of the declaration; after
    verification it returns true exactly when the result recorded for the
    name is complete and so are the results of the lemmas and theorems on
    which the name depends, directly or through other lemmas and
    theorems. *)
Theorem is_lemma_fully_correct_spec
    (st : ProofAnalysis) (fuel : nat) (L : str) (d : Declaration) :
  backward st →
  _verification_done st = true →
  dict_get (declarations st) L = Some d →
  start_line d < fuel →
  ∃ b, is_lemma_fully_correct order fuel st L = Some b
       ∧ (b = true ↔
          completeb st L = true
          ∧ ∀ x, depends_on st L x → is_target st x = true →
                 completeb st x = true).
Proof. apply is_lemma_fully_correct_backward. Qed.

Lemma fully_correct_loop_spec st fuel items :
  backward st → _verification_done st = true →
  (∀ n info, (n, info) ∈ items →
             dict_get (declarations st) n = Some info ∧ start_line info < fuel) →
  ∃ l, fully_correct_loop order fuel st items = Some l
       ∧ c_name <$> l `sublist_of` items.*1
       ∧ ∀ n, n ∈ c_name <$> l ↔
              ∃ info, (n, info) ∈ items
                      ∧ is_lemma_or_theorem (type info) && has_proof info = true
                      ∧ all_complete st n.
Proof.
  intros Hb Hdone. induction items as [|[n info] items IH]; intros Hitems.
  - exists []. split_and!; [done|done|]. intros n. split.
    + intros H. by apply elem_of_nil in H.
    + intros (info & H & _). by apply elem_of_nil in H.
  - destruct IH as (l & Hl & Hsub & Hiff).
    { intros n' info' Hin. apply Hitems. apply elem_of_cons. by right. }
    destruct (Hitems n info (list_elem_of_here _ _)) as [Hget Hlt].
    cbn [fully_correct_loop].
    destruct (is_lemma_or_theorem (type info) && has_proof info) eqn:Hty.
    + destruct (is_lemma_fully_correct_backward st fuel n info Hb Hdone Hget Hlt)
        as ([] & -> & Hb_iff).
      * rewrite Hl. eexists. split; [reflexivity|]. csimpl.
        split; [by apply sublist_skip|]. intros n'. rewrite elem_of_cons. split.
        -- intros [->|Hin].
           ++ exists info. split_and!; [apply list_elem_of_here|done|by apply Hb_iff].
           ++ apply Hiff in Hin as (info' & Hin & ? & ?).
              exists info'. split_and!; [by apply list_elem_of_further|done|done].
        -- intros (info' & Hin & Hty' & Hall).
           apply elem_of_cons in Hin as [[= -> ->]|Hin]; [by left|].
           right. apply Hiff. by exists info'.
      * exists l. split; [done|]. csimpl. split; [by apply sublist_cons|].
        intros n'. rewrite Hiff. split.
        -- intros (info' & Hin & ? & ?).
           exists info'. split_and!; [by apply list_elem_of_further|done|done].
        -- intros (info' & Hin & Hty' & Hall).
           apply elem_of_cons in Hin as [[= -> ->]|Hin]; [|by exists info'].
           apply Hb_iff in Hall. done.
    + exists l. split; [done|]. csimpl. split; [by apply sublist_cons|].
      intros n'. rewrite Hiff. split.
      * intros (info' & Hin & ? & ?).
        exists info'. split_and!; [by apply list_elem_of_further|done|done].
      * intros (info' & Hin & Hty' & Hall).
        apply elem_of_cons in Hin as [[= -> ->]|Hin]; [|by exists info'].
        congruence.
Qed.

(** Before verification [get_fully_correct_lemmas] returns nothing.
    After it, on a reachable analysis whose dependencies point to earlier
    lines, it returns: its entries are, in the order of the table, the
    lemmas and theorems with a proof whose result is complete and whose
    lemmas and theorems depended on, directly or through others, have
    complete results. *)
Theorem get_fully_correct_lemmas_spec (st : ProofAnalysis) (fuel : nat) :
  reachable st →
  backward st →
  Forall (λ x, start_line x.2 < fuel) (declarations st) →
  ∃ l, get_fully_correct_lemmas order fuel st = Some l
       ∧ (_verification_done st = false → l = [])
       ∧ c_name <$> l `sublist_of` keys (declarations st)
       ∧ ∀ n, n ∈ c_name <$> l ↔
              ∃ info, dict_get (declarations st) n = Some info
                      ∧ is_lemma_or_theorem (type info) = true
                      ∧ has_proof info = true
                      ∧ _verification_done st = true
                      ∧ completeb st n = true
                      ∧ ∀ x, depends_on st n x → is_target st x = true →
                             completeb st x = true.
Proof.
  intros Hr Hb Hfuel. pose proof (reachable_NoDup_keys st Hr) as Hnd.
  unfold get_fully_correct_lemmas.
  destruct (_verification_done st) eqn:Hdone; cbn [negb].
  - destruct (fully_correct_loop_spec st fuel (declarations st) Hb Hdone)
      as (l & Hl & Hsub & Hiff).
    { intros n info Hin. split; [by apply elem_of_dict_get|].
      rewrite Forall_forall in Hfuel. by apply (Hfuel (n, info)). }
    exists l. split_and!; [done|done|done|].
    intros n. rewrite Hiff. split.
    + intros (info & Hin & Hty & Hc & Hall).
      apply andb_true_iff in Hty as [? ?].
      exists info. split_and!; try done. by apply elem_of_dict_get.
    + intros (info & Hget & ? & ? & _ & ? & ?).
      exists info. split_and!; [by apply dict_get_elem_of| |done].
      by apply andb_true_iff.
  - exists []. split_and!; [done|done|apply sublist_nil_l|].
    intros n. split; [intros H; by apply elem_of_nil in H|].
    by intros (? & ? & ? & ? & ? & _).
Qed.

(** How to check on a given analysis that the dependencies point to
    earlier lines, and that the lemmas and theorems have complete
    results. *)
Definition backwardb (st : ProofAnalysis) : bool :=
  forallb
    (λ '(_, d),
       forallb
         (λ m, match dict_get (declarations st) m with
               | Some d' =>
                   negb (is_lemma_or_theorem (type d'))
                   || (start_line d' <? start_line d)
               | None => true
               end)
         (elements (dependencies d)))
    (declarations st).

Lemma backwardb_backward st : backwardb st = true → backward st.
Proof.
  unfold backwardb. rewrite forallb_forall. intros Hall n d m d' Hd Hm Hd' Ht.
  apply dict_get_elem_of, list_elem_of_In in Hd.
  specialize (Hall (n, d) Hd). simpl in Hall. rewrite forallb_forall in Hall.
  apply elem_of_elements, list_elem_of_In in Hm.
  specialize (Hall m Hm). rewrite Hd', Ht in Hall. simpl in Hall.
  by apply Nat.ltb_lt.
Qed.

Definition targets_completeb (st : ProofAnalysis) : bool :=
  forallb
    (λ '(n, d), negb (is_lemma_or_theorem (type d)) || completeb st n)
    (declarations st).

Lemma targets_completeb_complete st x :
  targets_completeb st = true → is_target st x = true → completeb st x = true.
Proof.
  unfold targets_completeb, is_target. rewrite forallb_forall. intros Hall.
  destruct (dict_get (declarations st) x) as [d|] eqn:Hd; [|done].
  intros Ht. apply dict_get_elem_of, list_elem_of_In in Hd.
  specialize (Hall (x, d) Hd). simpl in Hall. by rewrite Ht in Hall.
Qed.

Definition lines_belowb (fuel : nat) (st : ProofAnalysis) : bool :=
  forallb (λ x, start_line x.2 <? fuel) (declarations st).

Lemma lines_belowb_Forall fuel st :
  lines_belowb fuel st = true →
  Forall (λ x, start_line x.2 < fuel) (declarations st).
Proof.
  unfold lines_belowb. rewrite forallb_forall. intros Hall.
  apply Forall_forall. intros x Hx. apply Nat.ltb_lt, Hall.
  apply list_elem_of_In, Hx.
Qed.

End FullCorrectness.

(** ** Proof analysis: full correctness, on examples *)

Section FullCorrectnessExamples.
Import Py Analysis.

(** A file in which the doc comment of [b] stands in the lines of [a]: the
    text of [a] names [b], and the proof of [b] names [a]. *)
Definition cyclic_code : str :=
  lit "import Mathlib" ++ nl ++ nl
  ++ lit "lemma a : 1 = 1 := by" ++ nl ++ lit "  rfl" ++ nl ++ nl
  ++ lit "/-- b follows from a -/" ++ nl
  ++ lit "lemma b : 1 = 1 := by" ++ nl ++ lit "  exact a".

(** [is_lemma_fully_correct_cycle_never_returns] on [cyclic_code], both
    lemmas of which compile, at depth 1000 (Python's default limit). *)
Lemma is_lemma_fully_correct_cycle_never_returns_witness :
  let st := verify_all_lemmas (__init__ cyclic_code (Some example_compiler)) in
  is_lemma_fully_correct elements 1000 st (lit "a") = None.
Proof.
  intros st.
  assert (targets_completeb st = true) as Hall by (vm_compute; reflexivity).
  assert (_verification_done st = true) as Hdone by (vm_compute; reflexivity).
  assert (is_target st (lit "a") = true) as Ht by (vm_compute; reflexivity).
  assert (completeb st (lit "a") = true) as Hc by (vm_compute; reflexivity).
  assert (lit "a" ∈ _get_all_dependencies elements st (lit "a")) as Hself.
  { apply (bool_decide_eq_true_1
             (lit "a" ∈ _get_all_dependencies elements st (lit "a"))).
    vm_compute. reflexivity. }
  exact (is_lemma_fully_correct_cycle_never_returns elements
           (λ s x, elem_of_elements s x) st (lit "a") Hdone Ht Hself Hc
           (λ x _, targets_completeb_complete st x Hall) 1000).
Defined.

(** [is_lemma_fully_correct_spec] on the theorem [T] of the verified
    [example_code]. *)
Lemma is_lemma_fully_correct_spec_witness :
  let st := verify_all_lemmas (__init__ example_code (Some example_compiler)) in
  ∃ b, is_lemma_fully_correct elements 20 st (lit "T") = Some b
       ∧ (b = true ↔
          completeb st (lit "T") = true
          ∧ ∀ x, depends_on st (lit "T") x → is_target st x = true →
                 completeb st x = true).
Proof.
  intros st.
  assert (∃ d, dict_get (declarations st) (lit "T") = Some d
               ∧ (start_line d <? 20) = true) as (d & Hd & Hlt).
  { eexists. split; vm_compute; reflexivity. }
  assert (backwardb st = true) as Hb by (vm_compute; reflexivity).
  assert (_verification_done st = true) as Hdone by (vm_compute; reflexivity).
  apply Nat.ltb_lt in Hlt.
  exact (is_lemma_fully_correct_spec elements (λ s x, elem_of_elements s x)
           st 20 (lit "T") d (backwardb_backward st Hb) Hdone Hd Hlt).
Defined.

(** [get_fully_correct_lemmas_spec] on the verified [example_code]. *)
Lemma get_fully_correct_lemmas_spec_witness :
  let st := verify_all_lemmas (__init__ example_code (Some example_compiler)) in
  ∃ l, get_fully_correct_lemmas elements 20 st = Some l
       ∧ (_verification_done st = false → l = [])
       ∧ c_name <$> l `sublist_of` keys (declarations st)
       ∧ ∀ n, n ∈ c_name <$> l ↔
              ∃ info, dict_get (declarations st) n = Some info
                      ∧ is_lemma_or_theorem (type info) = true
                      ∧ has_proof info = true
                      ∧ _verification_done st = true
                      ∧ completeb st n = true
                      ∧ ∀ x, depends_on st n x → is_target st x = true →
                             completeb st x = true.
Proof.
  intros st.
  assert (backwardb st = true) as Hb by (vm_compute; reflexivity).
  assert (lines_belowb 20 st = true) as Hlt by (vm_compute; reflexivity).
  exact (get_fully_correct_lemmas_spec elements (λ s x, elem_of_elements s x)
           st 20 (reach_verify _ (reach_init _ _)) (backwardb_backward st Hb)
           (lines_belowb_Forall 20 st Hlt)).
Defined.

End FullCorrectnessExamples.

(** ** Proof analysis: the closure of the dependencies *)

Section Unvisited.
Import Py Analysis.

(** The number of declared names that a call of [_get_all_dependencies]
    has not yet in [visited]. *)
Definition unvisited (decls : dict Declaration) (visited : gset str) : nat :=
  size ((list_to_set (keys decls) : gset str) ∖ visited).

Lemma unvisited_mono (decls : dict Declaration) (v1 v2 : gset str) :
  v1 ⊆ v2 → unvisited decls v2 ≤ unvisited decls v1.
Proof.
  intros Hsub. apply subseteq_size. intros x Hx.
  apply elem_of_difference in Hx as [Hk Hx]. apply elem_of_difference.
  split; [done|]. intros Hv. apply Hx. by apply Hsub.
Qed.

Lemma unvisited_add (decls : dict Declaration) (n : str) (d : Declaration) (v : gset str) :
  dict_get decls n = Some d → n ∉ v →
  unvisited decls ({[n]} ∪ v) < unvisited decls v.
Proof.
  intros Hd Hn. apply subset_size.
  assert (n ∈ keys decls) as Hk.
  { apply dict_mem_keys. unfold dict_mem. by rewrite Hd. }
  split.
  - intros x Hx. apply elem_of_difference in Hx as [Hxk Hx].
    apply elem_of_difference. split; [done|]. intros Hv. apply Hx.
    apply elem_of_union. by right.
  - intros Hsub.
    assert (n ∈ (list_to_set (keys decls) : gset str) ∖ ({[n]} ∪ v)) as Hin.
    { apply Hsub. apply elem_of_difference. split; [|done].
      by apply elem_of_list_to_set. }
    apply elem_of_difference in Hin as [_ Hin]. apply Hin.
    apply elem_of_union. left. by apply elem_of_singleton.
Qed.

Lemma size_list_to_set_length (l : list str) :
  size (list_to_set l : gset str) ≤ length l.
Proof.
  induction l as [|x l IH]; [done|]. cbn [list_to_set length].
  rewrite size_union_alt, size_singleton.
  pose proof (subseteq_size (list_to_set l ∖ {[x]}) (list_to_set l : gset str)
                (subseteq_difference_l _ _ _ (reflexivity _))).
  lia.
Qed.

Lemma unvisited_empty (decls : dict Declaration) : unvisited decls ∅ ≤ length decls.
Proof.
  unfold unvisited. etrans; [apply subseteq_size|].
  { apply (subseteq_difference_l (C := gset str)). reflexivity. }
  etrans; [apply size_list_to_set_length|]. unfold keys. by rewrite length_fmap.
Qed.

Lemma foldl_prefix_ind {A B} (P : list B → A → Prop) (f : A → B → A)
    (l : list B) (a : A) :
  P [] a →
  (∀ pre b a, P pre a → b ∈ l → P (pre ++ [b]) (f a b)) →
  P l (foldl f a l).
Proof.
  intros H0 Hstep.
  assert (∀ l' pre a', P pre a' → (∀ b, b ∈ l' → b ∈ l) →
                       P (pre ++ l') (foldl f a' l')) as Hgen.
  { induction l' as [|b l' IH]; intros pre a' Hp Hsub.
    - by rewrite app_nil_r.
    - cbn [foldl]. rewrite (cons_middle b pre l'), app_assoc.
      apply IH.
      + apply Hstep; [done|]. apply Hsub. apply elem_of_cons. by left.
      + intros b' Hb'. apply Hsub. apply elem_of_cons. by right. }
  apply (Hgen l [] a H0). done.
Qed.

End Unvisited.

Section DependencyClosure.
Import Py Analysis.

Variable order : gset str → list str.
Hypothesis order_elem_of : ∀ (s : gset str) (x : str), x ∈ order s ↔ x ∈ s.

(** What a call of [_get_all_dependencies] with enough depth left does to
    [visited], and what it returns for the names it adds. *)
Definition explored (st : ProofAnalysis) (n : str) (V : gset str)
    (res : gset str * gset str) : Prop :=
  V ⊆ res.2
  ∧ (dict_mem (declarations st) n = true → n ∈ res.2)
  ∧ ∀ m dm, m ∈ res.2 → m ∉ V → dict_get (declarations st) m = Some dm →
            dependencies dm ⊆ res.1
            ∧ ∀ y, y ∈ dependencies dm → is_target st y = true → y ∈ res.2.

Lemma all_dependencies_from_explored st fuel n V :
  unvisited (declarations st) V < fuel →
  explored st n V (all_dependencies_from order fuel (declarations st) n V).
Proof.
  revert n V. induction fuel as [|fuel IH]; intros n V Hfuel; [lia|].
  cbn [all_dependencies_from].
  destruct (dict_get (declarations st) n) as [d|] eqn:Hd.
  2:{ unfold explored, dict_mem. rewrite Hd. simpl. split_and!; done. }
  case_bool_decide as Hn.
  { unfold explored. simpl. split_and!; done. }
  pose proof (unvisited_add _ n d V Hd Hn) as Hless.
  match goal with
  | |- explored _ _ _ (foldl ?F ?a ?l) =>
      pose proof (foldl_prefix_ind
        (λ pre (s : gset str * gset str),
           {[n]} ∪ V ⊆ s.2
           ∧ dependencies d ⊆ s.1
           ∧ (∀ y, y ∈ pre → is_target st y = true → y ∈ s.2)
           ∧ ∀ m dm, m ∈ s.2 → m ∉ {[n]} ∪ V →
                     dict_get (declarations st) m = Some dm →
                     dependencies dm ⊆ s.1
                     ∧ ∀ y, y ∈ dependencies dm → is_target st y = true →
                            y ∈ s.2) F l a) as Hloop
  end.
  destruct Hloop as (J1 & J2 & J3 & J4).
  - simpl. split_and!; [done|done| |].
    + intros y Hy. by apply elem_of_nil in Hy.
    + intros m dm Hm Hm'. done.
  - intros pre dep [acc vis] (J1 & J2 & J3 & J4) Hdep. simpl in J1, J2, J3, J4.
    assert (∀ y, y ∈ pre ++ [dep] → is_target st y = true →
                 is_target st dep = false → y ∈ vis) as Hskip.
    { intros y Hy Hty Hno. apply elem_of_app in Hy as [Hy|Hy]; [by apply J3|].
      apply list_elem_of_singleton in Hy as ->. congruence. }
    destruct (dict_get (declarations st) dep) as [dep_info|] eqn:Hdi.
    2:{ simpl. split_and!; [done|done| |done].
        intros y Hy Hty. apply Hskip; [done|done|].
        unfold is_target. by rewrite Hdi. }
    destruct (is_lemma_or_theorem (type dep_info)) eqn:Hti.
    2:{ simpl. split_and!; [done|done| |done].
        intros y Hy Hty. apply Hskip; [done|done|].
        unfold is_target. by rewrite Hdi. }
    assert (unvisited (declarations st) vis < fuel) as Hvis.
    { pose proof (unvisited_mono (declarations st) _ _ J1). lia. }
    pose proof (IH dep vis Hvis) as (C1 & C2 & C3).
    destruct (all_dependencies_from order fuel (declarations st) dep vis)
      as [indirect vis'].
    simpl in C1, C2, C3. simpl. split_and!.
    + by etrans.
    + by apply union_subseteq_l'.
    + intros y Hy Hty. apply elem_of_app in Hy as [Hy|Hy].
      * apply C1. by apply J3.
      * apply list_elem_of_singleton in Hy as ->. apply C2.
        unfold dict_mem. by rewrite Hdi.
    + intros m dm Hm Hm' Hdm.
      destruct (decide (m ∈ vis)) as [Hin|Hout].
      * destruct (J4 m dm Hin Hm' Hdm) as [Hsub Hsucc].
        split; [by apply union_subseteq_l'|].
        intros y Hy Hty. apply C1. by apply Hsucc.
      * destruct (C3 m dm Hm Hout Hdm) as [Hsub Hsucc].
        split; [by apply union_subseteq_r'|done].
  - simpl in J1, J2, J3, J4. unfold explored. split_and!.
    + intros x Hx. apply J1. apply elem_of_union. by right.
    + intros _. apply J1. apply elem_of_union. left. by apply elem_of_singleton.
    + intros m dm Hm HmV Hdm.
      destruct (decide (m = n)) as [->|Hne].
      * rewrite Hd in Hdm. injection Hdm as <-. split; [done|].
        intros y Hy Hty. apply J3; [|done]. by apply order_elem_of.
      * apply (J4 m dm Hm); [|done]. intros Hin.
        apply elem_of_union in Hin as [Hin|Hin]; [|done].
        by apply elem_of_singleton in Hin.
Qed.

Lemma all_dependencies_from_complete st fuel n x :
  length (declarations st) < fuel →
  depends_on st n x →
  x ∈ (all_dependencies_from order fuel (declarations st) n ∅).1.
Proof.
  intros Hfuel (m & d & Hr & Hd & Hx).
  assert (unvisited (declarations st) ∅ < fuel) as Hf.
  { pose proof (unvisited_empty (declarations st)). lia. }
  pose proof (all_dependencies_from_explored st fuel n ∅ Hf) as (C1 & C2 & C3).
  assert (dict_mem (declarations st) n = true) as Hn.
  { apply rtc_inv in Hr as [->|(y & (dn & Hdn & _) & _)];
      unfold dict_mem; [by rewrite Hd|by rewrite Hdn]. }
  assert (m ∈ (all_dependencies_from order fuel (declarations st) n ∅).2) as Hm.
  { clear Hd Hx. revert m Hr.
    apply (rtc_ind_r
             (λ m, m ∈ (all_dependencies_from order fuel (declarations st) n ∅).2)).
    - by apply C2.
    - intros y m _ (dy & Hdy & Hmy & Hty) IHr.
      by apply (C3 y dy IHr (not_elem_of_empty y) Hdy). }
  by apply (C3 m d Hm (not_elem_of_empty m) Hd).
Qed.

(** [_get_all_dependencies] returns, whatever the order in which the sets
    are gone through and also when the dependencies form a cycle, the names
    that the text of the declaration holds together with those that the
    texts of the lemmas and theorems reached from it hold; for a name that
    is not declared it returns the empty set.  Its recursion is never
    deeper than the number of declarations plus one: a larger allowance
    gives the same set. *)
Theorem get_all_dependencies_closure (st : ProofAnalysis) (n : str) :
  (∀ x, x ∈ _get_all_dependencies order st n ↔ depends_on st n x)
  ∧ (dict_mem (declarations st) n = false →
     _get_all_dependencies order st n = ∅)
  ∧ (∀ fuel, length (declarations st) < fuel →
             (all_dependencies_from order fuel (declarations st) n ∅).1
             = _get_all_dependencies order st n).
Proof.
  assert (∀ fuel x, length (declarations st) < fuel →
            x ∈ (all_dependencies_from order fuel (declarations st) n ∅).1
            ↔ depends_on st n x) as Hiff.
  { intros fuel x Hfuel. split.
    - apply all_dependencies_from_sound, order_elem_of.
    - by apply all_dependencies_from_complete. }
  split_and!.
  - intros x. apply Hiff. lia.
  - unfold _get_all_dependencies, dict_mem. cbn [all_dependencies_from].
    by destruct (dict_get (declarations st) n).
  - intros fuel Hfuel. apply set_eq. intros x.
    unfold _get_all_dependencies. rewrite !Hiff by lia. done.
Qed.

End DependencyClosure.

Section DependencyClosureExample.
Import Py Analysis.

(** [get_all_dependencies_closure] on the two lemmas of [cyclic_code],
    each of which depends on the other. *)
Lemma get_all_dependencies_closure_witness :
  let st := __init__ cyclic_code None in
  (∀ x, x ∈ _get_all_dependencies elements st (lit "a") ↔
        depends_on st (lit "a") x)
  ∧ (dict_mem (declarations st) (lit "a") = false →
     _get_all_dependencies elements st (lit "a") = ∅)
  ∧ (∀ fuel, length (declarations st) < fuel →
             (all_dependencies_from elements fuel (declarations st) (lit "a") ∅).1
             = _get_all_dependencies elements st (lit "a")).
Proof.
  intros st.
  exact (get_all_dependencies_closure elements (λ s x, elem_of_elements s x)
           st (lit "a")).
Defined.

End DependencyClosureExample.

(** ** Output normalisation: an output without a statement *)

Section CandidateWithoutStatement.
Import Py Lightweight.

(** From an output that has no fenced block and, comments removed, holds
    neither [lemma] nor [theorem], [process_output] does not take the text
    of the output: the candidate is the bare word [theorem], a blank line
    and the statement. *)
Theorem candidate_without_statement (output statement : str) :
  fenced output = false →
  contains (lit "lemma") (strip (remove_lean_comments (strip output))) = false →
  contains (lit "theorem") (strip (remove_lean_comments (strip output))) = false →
  candidate output statement
  = strip (lit "theorem" ++ nl ++ nl ++ strip statement).
Proof.
  intros Hf Hl Ht. unfold candidate. unfold fenced in Hf.
  destruct (last (findall (lit "```lean4") output)); [done|].
  destruct (last (findall (lit "```lean") output)); [done|].
  cbn [default]. unfold normalise.
  assert (remove_comments_and_axioms_from_proof (strip output) = lit "theorem")
    as ->.
  { unfold remove_comments_and_axioms_from_proof. cbv zeta. rewrite Hl.
    unfold contains in Ht.
    destruct (find (lit "theorem") (strip (remove_lean_comments (strip output))))
      eqn:Hfind; [done|].
    by rewrite (split_absent _ _ Hfind). }
  assert (remove_imports_from_proof (lit "theorem") = lit "theorem") as ->
    by (vm_compute; reflexivity).
  unfold substitute_final_theorem. cbv zeta.
  assert (strip (lit "theorem") = lit "theorem") as -> by (vm_compute; reflexivity).
  assert (last_theorem (lit "theorem") = None) as -> by (vm_compute; reflexivity).
  done.
Qed.

End CandidateWithoutStatement.

Section CandidateWithoutStatementExample.
Import Py Lightweight.

(** [candidate_without_statement] on an answer in prose. *)
Lemma candidate_without_statement_witness :
  let output := lit "I could not find a proof." in
  let statement := lit "theorem T : 1 = 1 := by sorry" in
  candidate output statement
  = strip (lit "theorem" ++ nl ++ nl ++ strip statement).
Proof.
  intros output statement.
  apply candidate_without_statement; vm_compute; reflexivity.
Defined.

End CandidateWithoutStatementExample.

(** ** Output normalisation: what is rejected *)

Section RejectionShape.
Import Py Lightweight.

(** *** Occurrences *)







(** *** Stripping *)









(** *** The first occurrence of a keyword that begins a line *)




(** *** The block and the text that is kept *)


(** The block, stripped, without its comments. *)
Definition cleaned (block : str) : str :=
  strip (remove_lean_comments (strip block)).













End RejectionShape.

Section RejectionShapeExamples.
Import Py Lightweight.



End RejectionShapeExamples.
